(** * ONCF Atelier Connecte: criticality and health scoring (app.py)

    A shallow embedding of the scoring engine of [app.py]:
    [get_component_criticite], [count_similar_recent],
    [compute_criticite_calc], [recalc_train_health], and the two callers
    that derive the urgency label and mark an anomaly as resolved.

    The last parts of the file embed the rest of the application
    ([init_db], [login], [recalc_all_trains], the handlers of the forms and
    buttons) and follow the database through the clicks.

    Python floats are IEEE 754 binary64 numbers; they are modelled by
    Rocq's primitive [float] (the same format, evaluated by the same
    hardware operations).  Python integers are unbounded and are modelled
    by [Z].  The SQLite tables are lists of records. *)

From Stdlib Require Import ZArith QArith Qabs List String Bool Lia Floats.
Import ListNotations.

#[local] Set Warnings "-inexact-float".

Local Open Scope Z_scope.

(** ** Python numeric primitives *)

Module Py.

(** [float(z)] as done by [int * float] and [int / float]: the nearest
    binary64 value, ties to even; [None] is [OverflowError]. *)
Definition float_of_int (z : Z) : option float :=
  match binary_normalize prec emax z 0 false with
  | S754_infinity _ | S754_nan => None
  | sf => Some (SF2Prim sf)
  end.

(** An integer as an (unnormalised) binary float with exponent 0. *)
Definition Z2SF (z : Z) : spec_float :=
  match z with
  | Z0 => S754_zero false
  | Zpos p => S754_finite false p 0
  | Zneg p => S754_finite true p 0
  end.

(** [a / b] on two integers: the correctly rounded quotient;
    [None] is [ZeroDivisionError] or [OverflowError]. *)
Definition int_truediv (a b : Z) : option float :=
  if b =? 0 then None
  else match SF64div (Z2SF a) (Z2SF b) with
       | S754_infinity _ | S754_nan => None
       | sf => Some (SF2Prim sf)
       end.

(** [min(a, b)] and [max(a, b)] on floats: the first argument is kept
    unless the second compares strictly smaller (resp. larger). *)
Definition min (a b : float) : float := if (b <? a)%float then b else a.
Definition max (a b : float) : float := if (a <? b)%float then b else a.

(** [m / 2^k] rounded to the nearest integer, ties to even. *)
Definition round_half_even_shift (m k : Z) : Z :=
  let d := 2 ^ k in
  let q := m / d in
  let r := m mod d in
  match 2 * r ?= d with
  | Lt => q
  | Gt => q + 1
  | Eq => if Z.even q then q else q + 1
  end.

(** [round(x)] with a single float argument: an [int], ties to even;
    [None] is the [ValueError] (NaN) or [OverflowError] (infinity). *)
Definition round (x : float) : option Z :=
  match Prim2SF x with
  | S754_zero _ => Some 0
  | S754_finite s m e =>
      let a := if 0 <=? e then Zpos m * 2 ^ e
               else round_half_even_shift (Zpos m) (- e) in
      Some (if s then - a else a)
  | S754_infinity _ | S754_nan => None
  end.

(** [sum(l)] on a list of integers starts at 0 and adds left to right. *)
Definition sum (l : list Z) : Z := fold_left Z.add l 0.

End Py.

(** ** The database *)

Record user_row := mk_user
  { username : string; password : string; role : string; fullname : string }.

Record train_row := mk_train
  { t_id_train : string; modele : string; date_mise_en_service : string;
    km_total : Z; etat_sante : Z; derniere_visite : string }.

Record component_row := mk_component
  { name : string; criticite_max : Z }.

Record part_row := mk_part
  { ref : string; designation : string; qty : Z; seuil_min : Z;
    utilises : string }.

Record anomaly_row := mk_anomaly
  { id : Z; id_train : string; technicien : string;
    date_signalement : string; categorie : string; composant : string;
    description : string; photo : string; immobilisation : Z;
    gravite : string; criticite_calc : Z; urgence_col : string;
    statut : string }.

Record conformity_row := mk_conformity
  { c_id : Z; c_id_train : string; date_intervention : string;
    c_technicien : string; type_intervention : string;
    c_composant : string; piece_ref : string; resultat : string;
    observations : string }.

Record db := mk_db
  { users : list user_row;
    trains : list train_row;
    components : list component_row;
    parts : list part_row;
    anomalies : list anomaly_row;
    conformities : list conformity_row }.

(** ** Business logic: criticity and health *)

Section Scoring.

(** The functions of this section are given the text that their call of
    [days_ago_iso(days)] returns: [clock days] is this text.  The call
    itself, which reads the system clock and may raise, is the function
    [days_ago_iso] of the next part; [recalc_train_health_at] there is
    [recalc_train_health] with its call of the clock. *)
Variable clock : Z -> string.

(** SQL [date_signalement >= ?] on TEXT values: byte-wise ordering. *)
Definition text_ge (a b : string) : bool := String.leb b a.

Definition get_component_criticite (d : db) (nm : string) : Z :=
  match find (fun c => String.eqb (name c) nm) (components d) with
  | Some r => criticite_max r
  | None => 50
  end.

Definition similar_recent (train_id comp since : string) (a : anomaly_row) : bool :=
  String.eqb (id_train a) train_id
  && String.eqb (composant a) comp
  && text_ge (date_signalement a) since.

Definition count_similar_recent (d : db) (train_id comp : string) (days : Z) : Z :=
  let since := clock days in
  Z.of_nat (List.length (filter (similar_recent train_id comp since) (anomalies d))).

(** [grav_map.get(gravite, 0.6)] *)
Definition grav_map_get (gravite : string) (default : float) : float :=
  if String.eqb gravite "Urgent" then 1.0%float
  else if String.eqb gravite "Moyen" then 0.6%float
  else if String.eqb gravite "Faible" then 0.3%float
  else default.

(** The arithmetic of [compute_criticite_calc] once the two database
    reads are done. *)
Definition criticite_score (criticite_max occ : Z) (gravite : string)
    (immobilisation : bool) : option float :=
  let grav := grav_map_get gravite 0.6%float in
  match Py.float_of_int occ with
  | None => None
  | Some occ_f =>
      let freq_factor := Py.min 1.0%float (occ_f / 5.0)%float in
      let imm := if immobilisation then 1.0%float else 0.6%float in
      match Py.float_of_int criticite_max with
      | None => None
      | Some cm_f =>
          Some (cm_f * (0.5 + 0.3 * grav + 0.2 * freq_factor * imm))%float
      end
  end.

Definition compute_criticite_calc (d : db) (train_id comp gravite : string)
    (immobilisation : bool) : option Z :=
  let criticite_max := get_component_criticite d comp in
  let occ := count_similar_recent d train_id comp 90 in
  match criticite_score criticite_max occ gravite immobilisation with
  | None => None
  | Some score =>
      match Py.round score with
      | None => None
      | Some r => Some (Z.max 0 (Z.min 100 r))
      end
  end.

Definition in_window (train_id since : string) (a : anomaly_row) : bool :=
  String.eqb (id_train a) train_id && text_ge (date_signalement a) since.

(** The rows fetched by [recalc_train_health]: one [criticite_calc] per
    anomaly of the train in the window. *)
Definition health_rows (d : db) (train_id : string) (days_window : Z) : list Z :=
  let since := clock days_window in
  map criticite_calc (filter (in_window train_id since) (anomalies d)).

(** The [else] branch of the health formula, from the fetched rows. *)
Definition health_float (rows : list Z) : option float :=
  let n := Z.of_nat (List.length rows) in
  let s := Py.sum rows in
  let max_possible := n * 100 in
  match Py.int_truediv s max_possible with
  | None => None
  | Some fraction => Some (100.0 - fraction * 100.0)%float
  end.

Definition clamp_health (health_f : float) : float :=
  Py.max 0.0%float (Py.min 100.0%float health_f).

Definition health_of_rows (rows : list Z) : option Z :=
  match rows with
  | [] => Some 100
  | _ =>
      let n := Z.of_nat (List.length rows) in
      let max_possible := n * 100 in
      if max_possible =? 0 then Some 100
      else match health_float rows with
           | None => None
           | Some health_f => Py.round (clamp_health health_f)
           end
  end.

(** [UPDATE trains SET etat_sante=? WHERE id_train=?] *)
Definition set_etat_sante (health : Z) (t : train_row) : train_row :=
  mk_train (t_id_train t) (modele t) (date_mise_en_service t) (km_total t)
           health (derniere_visite t).

Definition update_etat_sante (d : db) (train_id : string) (health : Z) : db :=
  mk_db (users d)
        (map (fun t => if String.eqb (t_id_train t) train_id
                       then set_etat_sante health t else t) (trains d))
        (components d) (parts d) (anomalies d) (conformities d).

(** Returns the health and the database after the update; [None] when
    the Python code raises (the database is then left as it was). *)
Definition recalc_train_health (d : db) (train_id : string) (days_window : Z)
    : option (Z * db) :=
  match health_of_rows (health_rows d train_id days_window) with
  | None => None
  | Some health => Some (health, update_etat_sante d train_id health)
  end.

(** ** Callers *)

(** The urgency label of the "Nouvelle anomalie" form. *)
Definition urgence (crit_calc : Z) : string :=
  if 80 <=? crit_calc then "critique"
  else if 50 <=? crit_calc then "moyenne" else "faible".

Definition set_statut (st : string) (a : anomaly_row) : anomaly_row :=
  mk_anomaly (id a) (id_train a) (technicien a) (date_signalement a)
             (categorie a) (composant a) (description a) (photo a)
             (immobilisation a) (gravite a) (criticite_calc a)
             (urgence_col a) st.

(** [UPDATE anomalies SET statut=? WHERE id=?] *)
Definition update_statut (d : db) (sel : Z) (st : string) : db :=
  mk_db (users d) (trains d) (components d) (parts d)
        (map (fun a => if id a =? sel then set_statut st a else a)
             (anomalies d))
        (conformities d).

(** The "Marquer comme resolu" button: update the status, read the
    train of the anomaly, recompute its health. *)
Definition marquer_resolu (d : db) (sel : Z) : option (Z * db) :=
  let d1 := update_statut d sel "résolu" in
  match find (fun a => id a =? sel) (anomalies d1) with
  | None => None
  | Some a => recalc_train_health d1 (id_train a) 90
  end.

End Scoring.

(** ** The clock *)

(** [datetime.datetime]: the fields of a naive instant. *)
Record datetime := mk_datetime
  { dt_year : Z; dt_month : Z; dt_day : Z;
    dt_hour : Z; dt_minute : Z; dt_second : Z; dt_microsecond : Z }.

Module PyTime.

(** The calendar arithmetic of the [datetime] module. *)
Definition is_leap (year : Z) : bool :=
  (year mod 4 =? 0) && (negb (year mod 100 =? 0) || (year mod 400 =? 0)).

Definition days_before_year (year : Z) : Z :=
  let y := year - 1 in y * 365 + y / 4 - y / 100 + y / 400.

Definition DAYS_IN_MONTH : list Z :=
  [-1; 31; 28; 31; 30; 31; 30; 31; 31; 30; 31; 30; 31].

Definition DAYS_BEFORE_MONTH : list Z :=
  [-1; 0; 31; 59; 90; 120; 151; 181; 212; 243; 273; 304; 334].

Definition days_before_month (year month : Z) : Z :=
  nth (Z.to_nat month) DAYS_BEFORE_MONTH 0
  + (if (2 <? month) && is_leap year then 1 else 0).

Definition ymd2ord (year month day : Z) : Z :=
  days_before_year year + days_before_month year month + day.

Definition DI400Y : Z := 146097.
Definition DI100Y : Z := 36524.
Definition DI4Y : Z := 1461.
Definition MAXORDINAL : Z := 3652059.

Definition ord2ymd (n0 : Z) : Z * Z * Z :=
  let n := n0 - 1 in
  let n400 := n / DI400Y in
  let n := n mod DI400Y in
  let year := n400 * 400 + 1 in
  let n100 := n / DI100Y in
  let n := n mod DI100Y in
  let n4 := n / DI4Y in
  let n := n mod DI4Y in
  let n1 := n / 365 in
  let n := n mod 365 in
  let year := year + n100 * 100 + n4 * 4 + n1 in
  if (n1 =? 4) || (n100 =? 4) then (year - 1, 12, 31)
  else
    let leapyear := (n1 =? 3) && (negb (n4 =? 24) || (n100 =? 3)) in
    let month := Z.shiftr (n + 50) 5 in
    let preceding := nth (Z.to_nat month) DAYS_BEFORE_MONTH 0
                     + (if (2 <? month) && leapyear then 1 else 0) in
    if n <? preceding
    then
      let month := month - 1 in
      let preceding := preceding
                       - (nth (Z.to_nat month) DAYS_IN_MONTH 0
                          + (if (month =? 2) && leapyear then 1 else 0)) in
      (year, month, n - preceding + 1)
    else (year, month, n - preceding + 1).

Definition toordinal (t : datetime) : Z :=
  ymd2ord (dt_year t) (dt_month t) (dt_day t).

(** [t - datetime.timedelta(days=days)]; [None] is the [OverflowError] of
    [timedelta] (more than 999999999 days) or of the subtraction (a date
    before year 1 or after year 9999). *)
Definition sub_days (t : datetime) (days : Z) : option datetime :=
  if 999999999 <? Z.abs days then None
  else
    let n := toordinal t - days in
    if (0 <? n) && (n <=? MAXORDINAL)
    then let '(y, m, d) := ord2ymd n in
         Some (mk_datetime y m d (dt_hour t) (dt_minute t) (dt_second t)
                           (dt_microsecond t))
    else None.

(** ["%0<width>d" % n] for [0 <= n < 10 ^ width]. *)
Fixpoint pad (width : nat) (n : Z) : string :=
  match width with
  | O => EmptyString
  | S w => pad w (n / 10)
           ++ String (Ascii.ascii_of_nat (48 + Z.to_nat (n mod 10))) EmptyString
  end.

(** [t.isoformat()] *)
Definition isoformat (t : datetime) : string :=
  pad 4 (dt_year t) ++ "-" ++ pad 2 (dt_month t) ++ "-" ++ pad 2 (dt_day t)
  ++ "T" ++ pad 2 (dt_hour t) ++ ":" ++ pad 2 (dt_minute t) ++ ":"
  ++ pad 2 (dt_second t)
  ++ (if dt_microsecond t =? 0 then EmptyString
      else "." ++ pad 6 (dt_microsecond t)).

End PyTime.

(** [now_iso()] and [days_ago_iso(days)] when [datetime.datetime.utcnow()]
    returns [utcnow]. *)
Definition now_iso (utcnow : datetime) : string := PyTime.isoformat utcnow.

Definition days_ago_iso (utcnow : datetime) (days : Z) : option string :=
  option_map PyTime.isoformat (PyTime.sub_days utcnow days).

(** [recalc_train_health(train_id, days_window)] called when the clock
    shows [utcnow]: the call of [days_ago_iso] comes first and may raise. *)
Definition recalc_train_health_at (utcnow : datetime) (d : db)
    (train_id : string) (days_window : Z) : option (Z * db) :=
  match days_ago_iso utcnow days_window with
  | None => None
  | Some since => recalc_train_health (fun _ => since) d train_id days_window
  end.

(** The window of [recalc_train_health] starts at a date that
    [datetime] can hold: the number of days is one that [timedelta] takes,
    and the day of the clock less this number is a day of the years 1 to
    9999. *)
Definition window_start_ok (utcnow : datetime) (days_window : Z) : Prop :=
  - 999999999 <= days_window <= 999999999
  /\ 1 <= PyTime.toordinal utcnow - days_window <= 3652059.

Definition demo_utcnow : datetime := mk_datetime 2025 5 30 0 0 0 0.

(** ** A demonstration database: the rows seeded by [init_db], and three
    anomalies on the train Z2M-01. *)

Definition demo_clock (days : Z) : string := "2025-03-01T00:00:00".

Definition demo_anomaly (i : Z) (tr date comp grav : string) (crit : Z) (st : string)
  : anomaly_row :=
  mk_anomaly i tr "tech" date "mécanique" comp "" "" 0 grav crit (urgence crit) st.

Definition demo_db : db :=
  mk_db
    [ mk_user "tech" "password" "technicien" "Technicien Demo";
      mk_user "responsable" "password" "responsable" "Responsable Demo" ]
    [ mk_train "Z2M-01" "Z2M" "2010-05-20" 450000 100 "";
      mk_train "Z2M-05" "Z2M" "2011-07-12" 512000 100 "";
      mk_train "Z2M-08" "Z2M" "2009-03-03" 600000 100 "" ]
    [ mk_component "frein" 95; mk_component "porte" 80;
      mk_component "moteur" 90; mk_component "climatisation" 40;
      mk_component "compresseur" 85; mk_component "batterie" 70;
      mk_component "pantographe" 88 ]
    [ mk_part "VP001" "Valve de pression" 4 2 "frein,hydraulique";
      mk_part "VR003" "Vérin porte" 2 1 "porte";
      mk_part "PLT10" "Plaquette de frein" 20 5 "frein" ]
    [ demo_anomaly 1 "Z2M-01" "2025-04-02T10:00:00" "frein" "Urgent" 80 "à traiter";
      demo_anomaly 2 "Z2M-01" "2025-04-03T11:30:00" "porte" "Faible" 40 "en cours";
      demo_anomaly 3 "Z2M-01" "2024-01-15T09:00:00" "frein" "Moyen" 64 "résolu" ]
    [].

(** ** The primitives on a few values *)

Example round_examples :
  map Py.round [0.5; 1.5; 2.5; (-2.5); 67.45; 29.5; infinity; nan]%float
  = [Some 0; Some 2; Some 2; Some (-2); Some 67; Some 30; None; None].
Proof. vm_compute. reflexivity. Qed.

(** On small integers [int_truediv] is the hardware division of the two
    converted operands. *)
Example int_truediv_examples :
  Py.int_truediv 120 200 = Some (120 / 200)%float
  /\ Py.int_truediv 1 3 = Some (1 / 3)%float
  /\ Py.int_truediv (-7) 200 = Some (-7 / 200)%float
  /\ Py.int_truediv 5 0 = None.
Proof. vm_compute. repeat split; reflexivity. Qed.

Example float_of_int_examples :
  Py.float_of_int 95 = Some 95%float
  /\ Py.float_of_int (-3) = Some (-3)%float
  /\ Py.float_of_int (2 ^ 53 + 1) = Some 9007199254740992%float
  /\ Py.float_of_int (2 ^ 1024) = None.
Proof. vm_compute. repeat split; reflexivity. Qed.

(** * Binary64 arithmetic through integer rounding

    The operations of SpecFloat are related to one rounding function on
    rationals; values are counted in units of [2^-1074], the smallest
    positive binary64 number, so that every finite float is an integer. *)

(** ** Rounding a quotient to an integer, ties to even *)

(** Round-half-even quotient *)
Definition rhe (N D : Z) : Z :=
  let q := N / D in
  let r := N mod D in
  match 2 * r ?= D with
  | Lt => q
  | Gt => q + 1
  | Eq => if Z.even q then q else q + 1
  end.

Lemma rhe_bounds N D : N / D <= rhe N D <= N / D + 1.
Proof.
  unfold rhe. destruct (2 * (N mod D) ?= D); try lia.
  destruct (Z.even (N / D)); lia.
Qed.

Lemma rhe_exact N D : 0 < D -> N mod D = 0 -> rhe N D = N / D.
Proof.
  intros HD H. unfold rhe. rewrite H.
  destruct (Z.compare_spec (2 * 0) D); lia.
Qed.

Lemma rhe_scale c N D : 0 < c -> 0 < D -> rhe (c * N) (c * D) = rhe N D.
Proof.
  intros Hc HD. unfold rhe.
  rewrite Z.div_mul_cancel_l by lia.
  rewrite Z.mul_mod_distr_l by lia.
  replace (2 * (c * (N mod D))) with (c * (2 * (N mod D))) by ring.
  rewrite <- (Zmult_compare_compat_l (2 * (N mod D)) D c) by lia.
  reflexivity.
Qed.

Lemma rhe_mono_num N N' D : 0 < D -> N <= N' -> rhe N D <= rhe N' D.
Proof.
  intros HD H.
  assert (Hq : N / D <= N' / D) by (apply Z.div_le_mono; lia).
  destruct (Z.eq_dec (N / D) (N' / D)) as [E | E].
  - assert (Hr : N mod D <= N' mod D).
    { rewrite (Z.mod_eq N D), (Z.mod_eq N' D) by lia. rewrite E. lia. }
    unfold rhe. rewrite <- E.
    destruct (Z.compare_spec (2 * (N mod D)) D);
      destruct (Z.compare_spec (2 * (N' mod D)) D);
      destruct (Z.even (N / D)); lia.
  - pose proof (rhe_bounds N D). pose proof (rhe_bounds N' D). lia.
Qed.

Lemma rhe_mono N D N' D' :
  0 < D -> 0 < D' -> N * D' <= N' * D -> rhe N D <= rhe N' D'.
Proof.
  intros HD HD' H.
  rewrite <- (rhe_scale D' N D) by lia.
  rewrite <- (rhe_scale D N' D') by lia.
  replace (D * D') with (D' * D) by ring.
  apply rhe_mono_num; lia.
Qed.

Lemma rhe_ge k N D : 0 < D -> k * D <= N -> k <= rhe N D.
Proof.
  intros HD H. pose proof (rhe_bounds N D).
  assert (k <= N / D) by (apply Z.div_le_lower_bound; lia). lia.
Qed.

Lemma rhe_le k N D : 0 < D -> N <= k * D -> rhe N D <= k.
Proof.
  intros HD H.
  replace k with (rhe (k * D) D).
  - apply rhe_mono_num; lia.
  - rewrite rhe_exact; [ apply Z.div_mul; lia | lia | apply Z.mod_mul; lia ].
Qed.

Lemma rhe_nonneg N D : 0 < D -> 0 <= N -> 0 <= rhe N D.
Proof. intros. apply rhe_ge; lia. Qed.

(** Number of binary digits *)
Definition dig (m : Z) : Z := Zdigits2 m.

Lemma digits2_pos_size p : digits2_pos p = Pos.size p.
Proof. induction p; simpl; congruence. Qed.

Lemma dig_log2 m : 0 < m -> dig m = Z.log2 m + 1.
Proof.
  intros H. destruct m as [ | p | p ]; try lia.
  unfold dig, Zdigits2. rewrite digits2_pos_size.
  destruct p; simpl; lia.
Qed.

Lemma dig_0 : dig 0 = 0.
Proof. reflexivity. Qed.

Lemma dig_nonneg m : 0 <= dig m.
Proof. destruct m; simpl; lia. Qed.

Lemma dig_spec m : 0 < m -> 2 ^ (dig m - 1) <= m < 2 ^ dig m.
Proof.
  intros H. rewrite dig_log2 by lia.
  replace (Z.log2 m + 1 - 1) with (Z.log2 m) by lia.
  replace (Z.log2 m + 1) with (Z.succ (Z.log2 m)) by lia.
  apply Z.log2_spec. lia.
Qed.

Lemma dig_unique m d : 2 ^ (d - 1) <= m < 2 ^ d -> 0 < m -> dig m = d.
Proof.
  intros H Hm. rewrite dig_log2 by lia.
  assert (0 <= d - 1).
  { destruct (Z.lt_ge_cases (d - 1) 0) as [Hn | Hn]; [ | lia ].
    assert (d <= 0) by lia.
    assert (2 ^ d <= 2 ^ 0) by (destruct (Z.eq_dec d 0); [subst; lia | rewrite Z.pow_neg_r by lia; simpl; lia ]).
    simpl in *. lia. }
  assert (Z.log2 m = d - 1); [ | lia ].
  apply Z.log2_unique; [ lia | ].
  replace (Z.succ (d - 1)) with d by lia. lia.
Qed.

Lemma dig_pos m : 0 < m -> 0 < dig m.
Proof. intros. rewrite dig_log2 by lia. pose proof (Z.log2_nonneg m). lia. Qed.

Lemma dig_le m m' : 0 <= m -> m <= m' -> dig m <= dig m'.
Proof.
  intros H0 H.
  destruct (Z.eq_dec m 0) as [-> | ].
  - rewrite dig_0. apply dig_nonneg.
  - rewrite !dig_log2 by lia. pose proof (Z.log2_le_mono m m' H). lia.
Qed.

Lemma dig_lt_pow m d : 0 <= m -> 0 <= d -> m < 2 ^ d -> dig m <= d.
Proof.
  intros H0 Hd H. destruct (Z.eq_dec m 0) as [-> | ]; [ rewrite dig_0; lia | ].
  rewrite dig_log2 by lia.
  assert (Z.log2 m < d); [ | lia ].
  apply Z.log2_lt_pow2; lia.
Qed.

Lemma dig_ge_pow m d : 0 <= d -> 2 ^ d <= m -> d + 1 <= dig m.
Proof.
  intros Hd H.
  assert (0 < m) by (pose proof (Z.pow_pos_nonneg 2 d); lia).
  rewrite dig_log2 by lia.
  assert (d <= Z.log2 m); [ | lia ].
  apply Z.log2_le_pow2; lia.
Qed.

(** digits of m / 2^n *)
Lemma dig_shift_r m n : 0 < m -> 0 <= n -> n < dig m -> dig (m / 2 ^ n) = dig m - n.
Proof.
  intros Hm Hn Hlt.
  pose proof (dig_spec m Hm) as [Hlo Hhi].
  assert (P : 0 < 2 ^ n) by (apply Z.pow_pos_nonneg; lia).
  assert (E1 : 2 ^ (dig m - 1) = 2 ^ (dig m - n - 1) * 2 ^ n).
  { rewrite <- Z.pow_add_r by lia. f_equal. lia. }
  assert (E2 : 2 ^ (dig m) = 2 ^ (dig m - n) * 2 ^ n).
  { rewrite <- Z.pow_add_r by lia. f_equal. lia. }
  apply dig_unique.
  - split.
    + apply Z.div_le_lower_bound; [ lia | ]. rewrite Z.mul_comm. rewrite <- E1. lia.
    + apply Z.div_lt_upper_bound; [ lia | ]. rewrite Z.mul_comm. rewrite <- E2. lia.
  - assert (0 < 2 ^ (dig m - n - 1)) by (apply Z.pow_pos_nonneg; lia).
    assert (2 ^ (dig m - n - 1) <= m / 2 ^ n); [ | lia ].
    apply Z.div_le_lower_bound; [ lia | ]. rewrite Z.mul_comm. rewrite <- E1. lia.
Qed.

Lemma dig_shift_r_small m n : 0 <= m -> 0 <= n -> dig m <= n -> m / 2 ^ n = 0.
Proof.
  intros Hm Hn Hle. apply Z.div_small.
  destruct (Z.eq_dec m 0) as [-> | ].
  - split; [ lia | apply Z.pow_pos_nonneg; lia ].
  - pose proof (dig_spec m ltac:(lia)) as [_ Hhi].
    assert (2 ^ dig m <= 2 ^ n) by (apply Z.pow_le_mono_r; lia). lia.
Qed.

Lemma dig_shift_l m n : 0 < m -> 0 <= n -> dig (m * 2 ^ n) = dig m + n.
Proof.
  intros Hm Hn.
  pose proof (dig_spec m Hm) as [Hlo Hhi].
  pose proof (dig_pos m Hm).
  assert (P : 0 < 2 ^ n) by (apply Z.pow_pos_nonneg; lia).
  apply dig_unique; [ | lia ].
  replace (dig m + n - 1) with ((dig m - 1) + n) by lia.
  rewrite !Z.pow_add_r by lia. nia.
Qed.

(** Rounding of the nonnegative rational [A / B] to the nearest number with
    at most 53 significant bits and no fractional part, ties to even. *)
Definition rnd_shift (A B : Z) : Z := Z.max (dig (A / B) - 53) 0.

Definition rnd_pos (A B : Z) : Z :=
  let n := rnd_shift A B in rhe A (B * 2 ^ n) * 2 ^ n.

Definition rnd (A B : Z) : Z :=
  if A <? 0 then - rnd_pos (- A) B else rnd_pos A B.

Lemma rnd_shift_nonneg A B : 0 <= rnd_shift A B.
Proof. unfold rnd_shift. lia. Qed.

Lemma rnd_shift_scale c A B : 0 < c -> 0 < B -> rnd_shift (c * A) (c * B) = rnd_shift A B.
Proof. intros. unfold rnd_shift. rewrite Z.div_mul_cancel_l by lia. reflexivity. Qed.

Lemma rnd_pos_scale c A B : 0 < c -> 0 < B -> rnd_pos (c * A) (c * B) = rnd_pos A B.
Proof.
  intros Hc HB. unfold rnd_pos. rewrite rnd_shift_scale by lia.
  set (n := rnd_shift A B).
  assert (0 < 2 ^ n) by (apply Z.pow_pos_nonneg; [ lia | apply rnd_shift_nonneg ]).
  rewrite <- Z.mul_assoc. rewrite rhe_scale by lia. reflexivity.
Qed.

Lemma rnd_pos_nonneg A B : 0 < B -> 0 <= A -> 0 <= rnd_pos A B.
Proof.
  intros HB HA. unfold rnd_pos. set (n := rnd_shift A B).
  assert (0 < 2 ^ n) by (apply Z.pow_pos_nonneg; [ lia | apply rnd_shift_nonneg ]).
  apply Z.mul_nonneg_nonneg; [ apply rhe_nonneg; lia | lia ].
Qed.

(** The quotient is below [2^(53+n)]. *)
Lemma rnd_shift_upper A B :
  0 < B -> 0 <= A -> A < 2 ^ (53 + rnd_shift A B) * B.
Proof.
  intros HB HA. set (n := rnd_shift A B).
  assert (Hn : 0 <= n) by apply rnd_shift_nonneg.
  assert (Hq : 0 <= A / B) by (apply Z.div_pos; lia).
  assert (Hd : dig (A / B) <= 53 + n) by (unfold n, rnd_shift; lia).
  assert (Hlt : A / B < 2 ^ (53 + n)).
  { destruct (Z.eq_dec (A / B) 0) as [E | E].
    - rewrite E. apply Z.pow_pos_nonneg; lia.
    - pose proof (dig_spec (A / B) ltac:(lia)) as [_ Hhi].
      assert (2 ^ dig (A / B) <= 2 ^ (53 + n)) by (apply Z.pow_le_mono_r; lia). lia. }
  assert (P : 0 < 2 ^ (53 + n)) by (apply Z.pow_pos_nonneg; lia).
  pose proof (Z.mul_succ_div_gt A B HB). nia.
Qed.

(** When the shift is positive the quotient is at least [2^(52+n)]. *)
Lemma rnd_shift_lower A B :
  0 < B -> 0 <= A -> 0 < rnd_shift A B -> 2 ^ (52 + rnd_shift A B) * B <= A.
Proof.
  intros HB HA Hpos. set (n := rnd_shift A B) in *.
  assert (Hd : dig (A / B) = 53 + n) by (unfold n, rnd_shift in *; lia).
  assert (Hq : 0 < A / B).
  { destruct (Z.eq_dec (A / B) 0) as [E | E].
    - rewrite E, dig_0 in Hd. lia.
    - assert (0 <= A / B) by (apply Z.div_pos; lia). lia. }
  pose proof (dig_spec (A / B) Hq) as [Hlo _]. rewrite Hd in Hlo.
  replace (53 + n - 1) with (52 + n) in Hlo by lia.
  pose proof (Z.mul_div_le A B HB).
  assert (P : 0 < 2 ^ (52 + n)) by (apply Z.pow_pos_nonneg; lia). nia.
Qed.

Lemma rnd_shift_mono A B A' B' :
  0 < B -> 0 < B' -> 0 <= A -> A * B' <= A' * B -> rnd_shift A B <= rnd_shift A' B'.
Proof.
  intros HB HB' HA H. unfold rnd_shift.
  assert (A / B <= A' / B').
  { apply Z.div_le_lower_bound; [ lia | ].
    pose proof (Z.mul_div_le A B HB).
    assert (0 <= A / B) by (apply Z.div_pos; lia). nia. }
  assert (dig (A / B) <= dig (A' / B')) by (apply dig_le; [ apply Z.div_pos; lia | lia ]).
  lia.
Qed.

Lemma rnd_pos_upper A B :
  0 < B -> 0 <= A -> rnd_pos A B <= 2 ^ (53 + rnd_shift A B).
Proof.
  intros HB HA. unfold rnd_pos. set (n := rnd_shift A B).
  assert (Hn : 0 <= n) by apply rnd_shift_nonneg.
  assert (P : 0 < 2 ^ n) by (apply Z.pow_pos_nonneg; lia).
  pose proof (rnd_shift_upper A B HB HA) as Hu. fold n in Hu.
  rewrite Z.pow_add_r in * by lia.
  assert (rhe A (B * 2 ^ n) <= 2 ^ 53); [ | nia ].
  apply rhe_le; nia.
Qed.

Lemma rnd_pos_lower A B :
  0 < B -> 0 <= A -> 0 < rnd_shift A B -> 2 ^ (52 + rnd_shift A B) <= rnd_pos A B.
Proof.
  intros HB HA Hpos. unfold rnd_pos. set (n := rnd_shift A B) in *.
  assert (P : 0 < 2 ^ n) by (apply Z.pow_pos_nonneg; lia).
  pose proof (rnd_shift_lower A B HB HA Hpos) as Hl. fold n in Hl.
  rewrite Z.pow_add_r in * by lia.
  assert (2 ^ 52 <= rhe A (B * 2 ^ n)); [ | nia ].
  apply rhe_ge; nia.
Qed.

Lemma rnd_pos_mono A B A' B' :
  0 < B -> 0 < B' -> 0 <= A -> A * B' <= A' * B -> rnd_pos A B <= rnd_pos A' B'.
Proof.
  intros HB HB' HA H.
  assert (HA' : 0 <= A') by nia.
  pose proof (rnd_shift_mono A B A' B' HB HB' HA H) as Hn.
  pose proof (rnd_shift_nonneg A B) as Hn0.
  destruct (Z.eq_dec (rnd_shift A B) (rnd_shift A' B')) as [E | E].
  - unfold rnd_pos. rewrite <- E. set (n := rnd_shift A B) in *.
    assert (P : 0 < 2 ^ n) by (apply Z.pow_pos_nonneg; lia).
    apply Z.mul_le_mono_nonneg_r; [ lia | ].
    apply rhe_mono; nia.
  - pose proof (rnd_pos_upper A B HB HA).
    pose proof (rnd_pos_lower A' B' HB' HA' ltac:(lia)).
    assert (2 ^ (53 + rnd_shift A B) <= 2 ^ (52 + rnd_shift A' B'))
      by (apply Z.pow_le_mono_r; lia).
    lia.
Qed.

(** Values that are already on the grid are left alone. *)
Lemma rnd_pos_exact m j B :
  0 < B -> 0 <= m < 2 ^ 53 -> 0 <= j -> rnd_pos (m * 2 ^ j * B) B = m * 2 ^ j.
Proof.
  intros HB Hm Hj. unfold rnd_pos.
  assert (Hq : m * 2 ^ j * B / B = m * 2 ^ j) by (apply Z.div_mul; lia).
  assert (Pj : 0 < 2 ^ j) by (apply Z.pow_pos_nonneg; lia).
  set (n := rnd_shift (m * 2 ^ j * B) B).
  assert (Hn : 0 <= n <= j).
  { unfold n, rnd_shift. rewrite Hq. split; [ lia | ].
    destruct (Z.eq_dec m 0) as [-> | ].
    - rewrite Z.mul_0_l, dig_0. lia.
    - rewrite dig_shift_l by lia.
      assert (dig m <= 53) by (apply dig_lt_pow; lia). lia. }
  assert (Pn : 0 < 2 ^ n) by (apply Z.pow_pos_nonneg; lia).
  assert (Ej : 2 ^ j = 2 ^ (j - n) * 2 ^ n).
  { rewrite <- Z.pow_add_r by lia. f_equal. lia. }
  rewrite rhe_exact.
  - replace (m * 2 ^ j * B) with (m * 2 ^ (j - n) * (B * 2 ^ n)) by (rewrite Ej; ring).
    rewrite Z.div_mul by lia. rewrite Ej. ring.
  - lia.
  - replace (m * 2 ^ j * B) with (m * 2 ^ (j - n) * (B * 2 ^ n)) by (rewrite Ej; ring).
    apply Z.mod_mul. lia.
Qed.

Lemma rnd_pos_0 B : 0 < B -> rnd_pos 0 B = 0.
Proof.
  intros HB. pose proof (rnd_pos_exact 0 0 B HB ltac:(simpl; lia) ltac:(lia)) as H.
  simpl in H. exact H.
Qed.

(** Signed version *)
Lemma rnd_opp A B : 0 < B -> rnd (- A) B = - rnd A B.
Proof.
  intros HB. unfold rnd.
  destruct (Z.ltb_spec (- A) 0), (Z.ltb_spec A 0); try lia.
  - rewrite Z.opp_involutive. reflexivity.
  - assert (A = 0) by lia. subst. simpl. rewrite rnd_pos_0 by lia. reflexivity.
Qed.

Lemma rnd_nonneg A B : 0 < B -> 0 <= A -> rnd A B = rnd_pos A B.
Proof. intros HB HA. unfold rnd. destruct (Z.ltb_spec A 0); [ lia | reflexivity ]. Qed.

Lemma rnd_neg A B : 0 < B -> A <= 0 -> rnd A B = - rnd_pos (- A) B.
Proof.
  intros HB HA. unfold rnd. destruct (Z.ltb_spec A 0); [ reflexivity | ].
  assert (A = 0) by lia. subst. simpl. rewrite rnd_pos_0 by lia. reflexivity.
Qed.

Lemma rnd_mono A B A' B' :
  0 < B -> 0 < B' -> A * B' <= A' * B -> rnd A B <= rnd A' B'.
Proof.
  intros HB HB' H.
  destruct (Z.le_gt_cases 0 A) as [HA | HA].
  - assert (0 <= A') by nia.
    rewrite !rnd_nonneg by lia. apply rnd_pos_mono; lia.
  - destruct (Z.le_gt_cases 0 A') as [HA' | HA'].
    + rewrite (rnd_neg A B) by lia. rewrite (rnd_nonneg A' B') by lia.
      pose proof (rnd_pos_nonneg (- A) B HB ltac:(lia)).
      pose proof (rnd_pos_nonneg A' B' HB' HA'). lia.
    + rewrite !rnd_neg by lia.
      assert (rnd_pos (- A') B' <= rnd_pos (- A) B); [ | lia ].
      apply rnd_pos_mono; lia.
Qed.

Lemma rnd_scale c A B : 0 < c -> 0 < B -> rnd (c * A) (c * B) = rnd A B.
Proof.
  intros Hc HB. unfold rnd.
  destruct (Z.ltb_spec (c * A) 0), (Z.ltb_spec A 0); try nia.
  - replace (- (c * A)) with (c * - A) by ring. rewrite rnd_pos_scale by lia. reflexivity.
  - apply rnd_pos_scale; lia.
Qed.

Lemma rnd_exact m j B :
  0 < B -> - 2 ^ 53 < m < 2 ^ 53 -> 0 <= j -> rnd (m * 2 ^ j * B) B = m * 2 ^ j.
Proof.
  intros HB Hm Hj.
  assert (Pj : 0 < 2 ^ j) by (apply Z.pow_pos_nonneg; lia).
  destruct (Z.le_gt_cases 0 m).
  - rewrite rnd_nonneg by nia. apply rnd_pos_exact; lia.
  - rewrite rnd_neg by nia.
    replace (- (m * 2 ^ j * B)) with ((- m) * 2 ^ j * B) by ring.
    rewrite rnd_pos_exact by lia. ring.
Qed.

(** ** The right shift of SpecFloat as a division *)

(** [mrs] is the truncation of [N / D] with its round and sticky bits. *)
Definition shr_inv (N D : Z) (mrs : shr_record) : Prop :=
  shr_m mrs = N / D /\
  shr_r mrs = (D <=? 2 * (N mod D)) /\
  shr_s mrs = negb ((2 * (N mod D)) mod D =? 0).

Lemma shr_1_nonneg m r s :
  0 <= m ->
  shr_1 (Build_shr_record m r s) = Build_shr_record (Z.div2 m) (Z.odd m) (r || s).
Proof.
  intros Hm. destruct m as [ | p | p ]; [ reflexivity | | lia ].
  destruct p; reflexivity.
Qed.

Lemma shr_inv_shr_1 N D mrs :
  0 <= N -> 0 < D -> shr_inv N D mrs -> shr_inv N (D * 2) (shr_1 mrs).
Proof.
  intros HN HD [Hm [Hr Hs]]. destruct mrs as [m r s].
  cbn [shr_m shr_r shr_s] in Hm, Hr, Hs.
  assert (Hq : 0 <= N / D) by (apply Z.div_pos; lia).
  rewrite shr_1_nonneg by lia.
  pose proof (Z.mod_pos_bound N D HD) as Hrem.
  assert (Hmod : N mod (D * 2) = N mod D + D * ((N / D) mod 2))
    by (apply Z.rem_mul_r; lia).
  assert (Hb : (N / D) mod 2 = if Z.odd (N / D) then 1 else 0) by apply Zmod_odd.
  set (rem := N mod D) in *. set (q := N / D) in *.
  assert (Hmod2 : (2 * (N mod (D * 2))) mod (D * 2) = 2 * rem).
  { rewrite Hmod, Hb. destruct (Z.odd q).
    - symmetry. apply (Z.mod_unique _ _ 1); lia.
    - symmetry. apply (Z.mod_unique _ _ 0); lia. }
  unfold shr_inv; cbn [shr_m shr_r shr_s]. repeat split.
  - rewrite Z.div2_div, Hm. apply Z.div_div; lia.
  - rewrite Hm, Hmod, Hb. destruct (Z.odd q).
    + symmetry. apply Z.leb_le. lia.
    + symmetry. apply Z.leb_gt. lia.
  - rewrite Hmod2, Hr, Hs.
    destruct (Z.leb_spec D (2 * rem)) as [Hle | Hlt].
    + cbn [orb]. symmetry. apply negb_true_iff. apply Z.eqb_neq. lia.
    + cbn [orb]. rewrite Z.mod_small by lia. reflexivity.
Qed.

Lemma shr_inv_iter_pos p :
  forall N D mrs,
    0 <= N -> 0 < D -> shr_inv N D mrs ->
    shr_inv N (D * 2 ^ Zpos p) (iter_pos shr_1 p mrs).
Proof.
  induction p as [ p IH | p IH | ]; intros N D mrs HN HD H; simpl iter_pos.
  - assert (P : 0 < 2 ^ Zpos p) by (apply Z.pow_pos_nonneg; lia).
    replace (D * 2 ^ Zpos p~1) with (D * 2 * 2 ^ Zpos p * 2 ^ Zpos p).
    + apply IH; [ lia | nia | ]. apply IH; [ lia | lia | ].
      apply shr_inv_shr_1; assumption.
    + replace (Zpos p~1) with (1 + Zpos p + Zpos p) by lia.
      rewrite !Z.pow_add_r by lia. ring.
  - assert (P : 0 < 2 ^ Zpos p) by (apply Z.pow_pos_nonneg; lia).
    replace (D * 2 ^ Zpos p~0) with (D * 2 ^ Zpos p * 2 ^ Zpos p).
    + apply IH; [ lia | nia | ]. apply IH; assumption.
    + replace (Zpos p~0) with (Zpos p + Zpos p) by lia.
      rewrite !Z.pow_add_r by lia. ring.
  - replace (D * 2 ^ 1) with (D * 2) by lia. apply shr_inv_shr_1; assumption.
Qed.

Lemma shr_spec N D mrs e n :
  0 <= N -> 0 < D -> shr_inv N D mrs ->
  exists mrs', shr mrs e n = (mrs', e + Z.max n 0)
               /\ shr_inv N (D * 2 ^ Z.max n 0) mrs'.
Proof.
  intros HN HD H. destruct n as [ | p | p ]; simpl.
  - exists mrs. rewrite Z.add_0_r, Z.mul_1_r. split; [ reflexivity | assumption ].
  - exists (iter_pos shr_1 p mrs). split; [ reflexivity | ].
    apply shr_inv_iter_pos; assumption.
  - exists mrs. rewrite Z.add_0_r, Z.mul_1_r. split; [ reflexivity | assumption ].
Qed.

Lemma shr_inv_of_exact m : shr_inv m 1 (shr_record_of_loc m loc_Exact).
Proof.
  unfold shr_inv; cbn [shr_record_of_loc shr_m shr_r shr_s].
  rewrite Z.div_1_r, Z.mod_1_r. repeat split.
Qed.

(** Rounding the truncated record is the half-even quotient. *)
Lemma round_nearest_even_rhe N D mrs :
  0 <= N -> 0 < D -> shr_inv N D mrs ->
  round_nearest_even (shr_m mrs) (loc_of_shr_record mrs) = rhe N D.
Proof.
  intros HN HD [Hm [Hr Hs]]. destruct mrs as [m r s].
  cbn [shr_m shr_r shr_s] in *.
  pose proof (Z.mod_pos_bound N D HD) as Hrem.
  unfold rhe. rewrite <- Hm. subst r s. unfold loc_of_shr_record, round_nearest_even.
  destruct (Z.leb_spec D (2 * (N mod D))) as [Hle | Hlt].
  - destruct (Z.eqb_spec ((2 * (N mod D)) mod D) 0) as [E | E]; cbn [negb].
    + assert (2 * (N mod D) = D).
      { destruct (Z.eq_dec (2 * (N mod D)) D) as [ | Hne ]; [ assumption | ].
        exfalso. rewrite <- (Z.mod_unique (2 * (N mod D)) D 1 (2 * (N mod D) - D)) in E; lia. }
      replace (2 * (N mod D) ?= D) with Eq by (symmetry; apply Z.compare_eq_iff; lia).
      reflexivity.
    + assert (2 * (N mod D) <> D).
      { intros Heq. apply E. rewrite Heq. apply Z.mod_same; lia. }
      replace (2 * (N mod D) ?= D) with Gt by (symmetry; apply Z.compare_gt_iff; lia).
      reflexivity.
  - replace (2 * (N mod D) ?= D) with Lt by (symmetry; apply Z.compare_lt_iff; lia).
    destruct (Z.eqb_spec ((2 * (N mod D)) mod D) 0); reflexivity.
Qed.

Lemma fexp_eq x : fexp prec emax x = Z.max (x - 53) (-1074).
Proof. reflexivity. Qed.

Lemma shr_fexp_spec m e l N D :
  0 <= N -> 0 < D -> shr_inv N D (shr_record_of_loc m l) ->
  let n := Z.max (fexp prec emax (dig m + e) - e) 0 in
  exists mrs', shr_fexp prec emax m e l = (mrs', e + n)
               /\ shr_inv N (D * 2 ^ n) mrs'.
Proof.
  intros HN HD H n. unfold shr_fexp. apply shr_spec; assumption.
Qed.

Lemma div_cross A B N D : 0 < B -> 0 < D -> A * D = N * B -> A / B = N / D.
Proof.
  intros HB HD H.
  rewrite <- (Z.div_mul_cancel_r A B D) by lia.
  rewrite H. rewrite (Z.mul_comm B D). apply Z.div_mul_cancel_r; lia.
Qed.

Lemma rhe_cross N D N' D' :
  0 < D -> 0 < D' -> N * D' = N' * D -> rhe N D = rhe N' D'.
Proof.
  intros HD HD' H. apply Z.le_antisymm; apply rhe_mono; lia.
Qed.

Lemma dig_div_shift_l N D b :
  0 < D -> D <= N -> 0 <= b -> dig (N * 2 ^ b / D) = dig (N / D) + b.
Proof.
  intros HD HN Hb.
  assert (Hq : 0 < N / D) by (apply Z.div_str_pos; lia).
  pose proof (dig_spec (N / D) Hq) as [Hlo Hhi].
  pose proof (dig_pos (N / D) Hq) as Hd.
  set (d := dig (N / D)) in *.
  assert (Pb : 0 < 2 ^ b) by (apply Z.pow_pos_nonneg; lia).
  assert (P1 : 0 < 2 ^ (d - 1)) by (apply Z.pow_pos_nonneg; lia).
  assert (L : 2 ^ (d - 1) * D <= N).
  { pose proof (Z.mul_div_le N D HD). nia. }
  assert (U : N < 2 ^ d * D).
  { pose proof (Z.mul_succ_div_gt N D HD). nia. }
  assert (E1 : 2 ^ (d + b - 1) = 2 ^ (d - 1) * 2 ^ b).
  { rewrite <- Z.pow_add_r by lia. f_equal. lia. }
  assert (E2 : 2 ^ (d + b) = 2 ^ d * 2 ^ b).
  { rewrite <- Z.pow_add_r by lia. reflexivity. }
  assert (Lq : 2 ^ (d + b - 1) <= N * 2 ^ b / D).
  { apply Z.div_le_lower_bound; [ lia | ]. rewrite E1. nia. }
  apply dig_unique; [ split; [ exact Lq | ] | nia ].
  apply Z.div_lt_upper_bound; [ lia | ]. rewrite E2. nia.
Qed.

(** The first shift of [binary_round_aux] lands on the grid of [rnd_pos]. *)
Lemma stage1_params m e N D A B :
  0 <= N -> 0 < D -> 0 < B -> m = N / D ->
  e <= fexp prec emax (dig m + e) /\ (0 < m \/ e <= -1074) ->
  A * D * 2 ^ Z.max (-1074 - e) 0 = N * B * 2 ^ Z.max (e + 1074) 0 ->
  let n1 := Z.max (fexp prec emax (dig m + e) - e) 0 in
  e + n1 + 1074 = rnd_shift A B
  /\ N * (B * 2 ^ rnd_shift A B) = A * (D * 2 ^ n1).
Proof.
  intros HN HD HB Hm P1 Hx n1. unfold n1. rewrite fexp_eq in *.
  assert (Hm0 : 0 <= m) by (subst m; apply Z.div_pos; lia).
  pose proof (dig_nonneg m) as Hdm.
  destruct (Z.eq_dec e (-1074)) as [He | He].
  - subst e. replace (Z.max (-1074 - -1074) 0) with 0 in Hx by lia.
    replace (Z.max (-1074 + 1074) 0) with 0 in Hx by lia.
    rewrite !Z.pow_0_r, !Z.mul_1_r in Hx.
    assert (Hq : A / B = m) by (subst m; apply div_cross; lia).
    unfold rnd_shift. rewrite Hq. split; [ lia | ].
    replace (Z.max (Z.max (dig m + -1074 - 53) (-1074) - -1074) 0)
      with (Z.max (dig m - 53) 0) by lia.
    nia.
  - destruct P1 as [P1 Hmpos].
    destruct (Z.le_gt_cases (-1074) e) as [Hge | Hlt].
    + assert (0 < m) by lia. clear Hmpos.
      replace (Z.max (-1074 - e) 0) with 0 in Hx by lia.
      replace (Z.max (e + 1074) 0) with (e + 1074) in Hx by lia.
      rewrite Z.pow_0_r, Z.mul_1_r in Hx.
      assert (HDN : D <= N).
      { destruct (Z.le_gt_cases D N); [ assumption | ].
        rewrite Z.div_small in Hm by lia. lia. }
      assert (Hq : A / B = N * 2 ^ (e + 1074) / D) by (apply div_cross; lia).
      assert (Hd : dig (A / B) = dig m + (e + 1074)).
      { rewrite Hq, Hm. apply dig_div_shift_l; lia. }
      unfold rnd_shift. rewrite Hd.
      assert (En : Z.max (dig m + (e + 1074) - 53) 0
                   = Z.max (Z.max (dig m + e - 53) (-1074) - e) 0 + (e + 1074)) by lia.
      split; [ lia | ].
      rewrite En. set (k := Z.max (Z.max (dig m + e - 53) (-1074) - e) 0).
      assert (0 <= k) by (unfold k; lia).
      rewrite Z.pow_add_r by lia.
      assert (0 < 2 ^ k) by (apply Z.pow_pos_nonneg; lia). nia.
    + replace (Z.max (-1074 - e) 0) with (-1074 - e) in Hx by lia.
      replace (Z.max (e + 1074) 0) with 0 in Hx by lia.
      rewrite Z.pow_0_r, Z.mul_1_r in Hx.
      set (a := -1074 - e) in *.
      assert (Pa : 0 < 2 ^ a) by (apply Z.pow_pos_nonneg; lia).
      assert (Hq : A / B = m / 2 ^ a).
      { rewrite Hm, Z.div_div by lia. apply div_cross; nia. }
      assert (Hn : rnd_shift A B = Z.max (dig m + e + 1074 - 53) 0).
      { unfold rnd_shift. rewrite Hq.
        destruct (Z.lt_ge_cases a (dig m)) as [Hs | Hs].
        - assert (0 < m).
          { destruct (Z.eq_dec m 0) as [E0 | E0]; [ | lia ].
            rewrite E0, dig_0 in Hs. lia. }
          rewrite dig_shift_r by lia. lia.
        - rewrite dig_shift_r_small by lia. rewrite dig_0. lia. }
      rewrite Hn. split; [ lia | ].
      replace (Z.max (Z.max (dig m + e - 53) (-1074) - e) 0)
        with (Z.max (dig m + e + 1074 - 53) 0 + a) by lia.
      set (k := Z.max (dig m + e + 1074 - 53) 0).
      assert (0 <= k) by (unfold k; lia).
      rewrite Z.pow_add_r by lia.
      assert (0 < 2 ^ k) by (apply Z.pow_pos_nonneg; lia). nia.
Qed.

Lemma rhe_shift_upper A B :
  0 < B -> 0 <= A -> rhe A (B * 2 ^ rnd_shift A B) <= 2 ^ 53.
Proof.
  intros HB HA. set (n := rnd_shift A B).
  assert (Hn : 0 <= n) by apply rnd_shift_nonneg.
  assert (P : 0 < 2 ^ n) by (apply Z.pow_pos_nonneg; lia).
  pose proof (rnd_shift_upper A B HB HA) as Hu. fold n in Hu.
  rewrite Z.pow_add_r in Hu by lia.
  apply rhe_le; nia.
Qed.

Lemma rhe_shift_lower A B :
  0 < B -> 0 <= A -> 0 < rnd_shift A B -> 2 ^ 52 <= rhe A (B * 2 ^ rnd_shift A B).
Proof.
  intros HB HA Hpos. set (n := rnd_shift A B) in *.
  assert (P : 0 < 2 ^ n) by (apply Z.pow_pos_nonneg; lia).
  pose proof (rnd_shift_lower A B HB HA Hpos) as Hl. fold n in Hl.
  rewrite Z.pow_add_r in Hl by lia.
  apply rhe_ge; nia.
Qed.

(** What a SpecFloat rounding returns for the sign [s] and the rounded
    magnitude [V], counted in units of [2^-1074]. *)
Definition SFres (s : bool) (V : Z) (x : spec_float) : Prop :=
  match x with
  | S754_zero s' => s' = s /\ V = 0
  | S754_finite s' m' e' =>
      s' = s /\ V = Zpos m' * 2 ^ (e' + 1074) /\ bounded prec emax m' e' = true
  | S754_infinity s' => s' = s /\ 2 ^ 2098 <= V
  | S754_nan => False
  end.

Lemma bounded_iff m e :
  bounded prec emax m e = true
  <-> Z.max (dig (Zpos m) + e - 53) (-1074) = e /\ e <= 971.
Proof.
  unfold bounded, canonical_mantissa. rewrite andb_true_iff, Z.eqb_eq, Z.leb_le.
  rewrite fexp_eq. reflexivity.
Qed.

Lemma pow2_split a b : 0 <= a -> 0 <= b -> 2 ^ (a + b) = 2 ^ a * 2 ^ b.
Proof. intros. apply Z.pow_add_r; assumption. Qed.

(** The second shift of [binary_round_aux]: renormalisation after a carry,
    and the overflow test. *)
Lemma stage2 s m2 e1 n V :
  0 <= m2 <= 2 ^ 53 -> (0 < n -> 2 ^ 52 <= m2) ->
  e1 + 1074 = n -> 0 <= n -> V = m2 * 2 ^ n ->
  SFres s V
    (let '(mrs2, e2) := shr_fexp prec emax m2 e1 loc_Exact in
     match shr_m mrs2 with
     | Z0 => S754_zero s
     | Zpos p => if e2 <=? emax - prec then S754_finite s p e2 else S754_infinity s
     | Zneg _ => S754_nan
     end).
Proof.
  intros [Hm2lo Hm2hi] Hm2n He1 Hn0 HV.
  assert (Pn : 0 < 2 ^ n) by (apply Z.pow_pos_nonneg; lia).
  destruct (shr_fexp_spec m2 e1 loc_Exact m2 1 Hm2lo ltac:(lia) (shr_inv_of_exact m2))
    as [mrs2 [E2 I2]].
  cbv zeta in E2, I2. rewrite E2. rewrite fexp_eq in *.
  destruct I2 as [I2 _]. rewrite I2, Z.mul_1_l. clear E2 I2 mrs2.
  change (emax - prec) with 971.
  destruct (Z.eq_dec m2 0) as [Z0 | NZ].
  - subst m2. rewrite Z.div_0_l by (apply Z.pow_nonzero; lia).
    cbn [SFres]. split; [ reflexivity | lia ].
  - destruct (Z.eq_dec m2 (2 ^ 53)) as [Ecarry | Ncarry].
    + subst m2.
      replace (dig (2 ^ 53)) with 54 by reflexivity.
      replace (Z.max (Z.max (54 + e1 - 53) (-1074) - e1) 0) with 1 by lia.
      change (2 ^ 53 / 2 ^ 1) with (Zpos (2 ^ 52)).
      assert (EV : V = Zpos (2 ^ 52) * 2 ^ (e1 + 1 + 1074)).
      { rewrite HV. replace (e1 + 1 + 1074) with (1 + n) by lia.
        rewrite pow2_split by lia. change (2 ^ 53) with (Zpos (2 ^ 52) * 2 ^ 1). ring. }
      destruct (Z.leb_spec (e1 + 1) 971) as [Hfit | Hovf].
      * cbn [SFres]. split; [ reflexivity | ]. split; [ exact EV | ].
        apply bounded_iff.
        replace (dig (Zpos (2 ^ 52))) with 53 by reflexivity. lia.
      * cbn [SFres]. split; [ reflexivity | ].
        rewrite HV.
        assert (Hp : 2 ^ 2045 <= 2 ^ n) by (apply Z.pow_le_mono_r; lia).
        replace 2098 with (53 + 2045) by reflexivity.
        rewrite pow2_split by lia.
        apply Z.mul_le_mono_nonneg_l; [ lia | exact Hp ].
    + assert (Hd : dig m2 <= 53) by (apply dig_lt_pow; lia).
      replace (Z.max (Z.max (dig m2 + e1 - 53) (-1074) - e1) 0) with 0 by lia.
      rewrite Z.pow_0_r, Z.div_1_r, Z.add_0_r.
      destruct m2 as [ | p | p ]; [ lia | | lia ].
      assert (EV : V = Zpos p * 2 ^ (e1 + 1074)) by (rewrite HV; f_equal; f_equal; lia).
      destruct (Z.leb_spec e1 971) as [Hfit | Hovf].
      * cbn [SFres]. split; [ reflexivity | ]. split; [ exact EV | ].
        apply bounded_iff. split; [ | lia ].
        destruct (Z.eq_dec n 0) as [En0 | En0]; [ lia | ].
        assert (53 <= dig (Zpos p)).
        { apply (dig_ge_pow (Zpos p) 52); [ lia | apply Hm2n; lia ]. }
        lia.
      * cbn [SFres]. split; [ reflexivity | ].
        rewrite HV.
        assert (Hp : 2 ^ 2046 <= 2 ^ n) by (apply Z.pow_le_mono_r; lia).
        assert (Hq : 2 ^ 52 <= Zpos p) by (apply Hm2n; lia).
        replace 2098 with (52 + 2046) by reflexivity.
        rewrite pow2_split by lia.
        apply Z.mul_le_mono_nonneg; [ lia | exact Hq | | exact Hp ].
        apply Z.pow_nonneg; lia.
Qed.

Lemma binary_round_aux_Rpos s m e l N D A B :
  0 <= N -> 0 < D -> 0 < B ->
  shr_inv N D (shr_record_of_loc m l) ->
  e <= fexp prec emax (dig m + e) /\ (0 < m \/ e <= -1074) ->
  A * D * 2 ^ Z.max (-1074 - e) 0 = N * B * 2 ^ Z.max (e + 1074) 0 ->
  SFres s (rnd_pos A B) (binary_round_aux prec emax s m e l).
Proof.
  intros HN HD HB Hinv P1 Hx.
  assert (Hm : m = N / D).
  { destruct Hinv as [Hm _]. destruct l as [ | [ | | ] ]; exact Hm. }
  assert (HA : 0 <= A).
  { assert (0 < 2 ^ Z.max (-1074 - e) 0) by (apply Z.pow_pos_nonneg; lia).
    assert (0 < 2 ^ Z.max (e + 1074) 0) by (apply Z.pow_pos_nonneg; lia).
    nia. }
  pose proof (stage1_params m e N D A B HN HD HB Hm P1 Hx) as [Hn Hc].
  cbv zeta in Hn, Hc.
  unfold binary_round_aux.
  destruct (shr_fexp_spec m e l N D HN HD Hinv) as [mrs1 [E1 I1]].
  cbv zeta in E1, I1. rewrite E1.
  assert (Hn1 : 0 <= Z.max (fexp prec emax (dig m + e) - e) 0) by lia.
  assert (PD1 : 0 < D * 2 ^ Z.max (fexp prec emax (dig m + e) - e) 0)
    by (apply Z.mul_pos_pos; [ lia | apply Z.pow_pos_nonneg; lia ]).
  rewrite (round_nearest_even_rhe N _ mrs1 HN PD1 I1).
  pose proof (rnd_shift_nonneg A B) as Hn0.
  assert (Pn : 0 < 2 ^ rnd_shift A B) by (apply Z.pow_pos_nonneg; lia).
  assert (Em2 : rhe N (D * 2 ^ Z.max (fexp prec emax (dig m + e) - e) 0)
                = rhe A (B * 2 ^ rnd_shift A B)).
  { apply rhe_cross; [ lia | nia | lia ]. }
  rewrite Em2.
  apply stage2 with (n := rnd_shift A B).
  - split; [ apply rhe_nonneg; nia | apply rhe_shift_upper; lia ].
  - apply rhe_shift_lower; lia.
  - lia.
  - lia.
  - reflexivity.
Qed.

(** ** Values of spec floats, in units of [2^-1074] *)

Definition SFival (x : spec_float) : Z :=
  match x with
  | S754_finite s m e => cond_Zopp s (Zpos m * 2 ^ (e + 1074))
  | _ => 0
  end.

Definition SFfin (x : spec_float) : bool :=
  match x with
  | S754_finite _ _ _ | S754_zero _ => true
  | _ => false
  end.

(** [r] is the binary64 rounding of [A / B] (in units of [2^-1074]). *)
Definition SFrounds (A B : Z) (r : spec_float) : Prop :=
  valid_binary r = true
  /\ (Z.abs (rnd A B) < 2 ^ 2098 -> SFfin r = true /\ SFival r = rnd A B).

Lemma SFres_rounds s A B r :
  0 < B -> SFres s (rnd_pos (Z.abs A) B) r ->
  (A < 0 -> s = true) -> (0 < A -> s = false) -> SFrounds A B r.
Proof.
  intros HB Hres Hneg Hpos.
  assert (HR : A <> 0 -> rnd A B = cond_Zopp s (rnd_pos (Z.abs A) B)).
  { intros HA. destruct (Z.lt_trichotomy A 0) as [H | [H | H]]; [ | lia | ].
    - rewrite (Hneg H). rewrite rnd_neg by lia. rewrite Z.abs_neq by lia. reflexivity.
    - rewrite (Hpos H). rewrite rnd_nonneg by lia. rewrite Z.abs_eq by lia. reflexivity. }
  assert (HR0 : A = 0 -> rnd A B = 0 /\ rnd_pos (Z.abs A) B = 0).
  { intros ->. rewrite rnd_nonneg by lia. cbn [Z.abs]. rewrite rnd_pos_0 by lia. lia. }
  assert (HV : 0 <= rnd_pos (Z.abs A) B) by (apply rnd_pos_nonneg; lia).
  assert (Habs : Z.abs (rnd A B) = rnd_pos (Z.abs A) B).
  { destruct (Z.eq_dec A 0) as [E | E].
    - destruct (HR0 E) as [E1 E2]. rewrite E1, E2. reflexivity.
    - rewrite (HR E). destruct s; cbn [cond_Zopp]; lia. }
  destruct r as [ s' | s' | | s' m' e' ]; cbn [SFres] in Hres.
  - destruct Hres as [-> HV0]. split; [ reflexivity | ]. intros _.
    split; [ reflexivity | ]. cbn [SFival]. lia.
  - destruct Hres as [-> Hinf]. split; [ reflexivity | ]. intros Hlt. lia.
  - contradiction.
  - destruct Hres as [-> [EV Hb]]. split; [ exact Hb | ]. intros _.
    split; [ reflexivity | ]. cbn [SFival]. rewrite <- EV.
    destruct (Z.eq_dec A 0) as [E | E].
    + destruct (HR0 E) as [E1 E2]. rewrite E1, E2. destruct s; reflexivity.
    + symmetry. apply HR. exact E.
Qed.

(** ** Left alignment *)

Lemma iter_xO m d : Zpos (Pos.iter xO m d) = Zpos m * 2 ^ Zpos d.
Proof.
  induction d as [ | d IH ] using Pos.peano_ind.
  - simpl. lia.
  - rewrite Pos.iter_succ. rewrite Pos2Z.inj_xO, IH.
    rewrite Pos2Z.inj_succ, Z.pow_succ_r by lia. ring.
Qed.

Lemma shl_align_spec mx ex ex' mz ez :
  shl_align mx ex ex' = (mz, ez) ->
  ez = Z.min ex ex' /\ Zpos mz = Zpos mx * 2 ^ (ex - ez).
Proof.
  unfold shl_align. destruct (ex' - ex) as [ | d | d ] eqn:E; intros H; inversion H; subst.
  - split; [ lia | ]. rewrite Z.sub_diag. simpl. lia.
  - split; [ lia | ]. rewrite Z.sub_diag. simpl. lia.
  - split; [ lia | ]. rewrite iter_xO. f_equal. f_equal. lia.
Qed.

Lemma binary_round_Rpos s mx ex :
  -1074 <= ex ->
  SFres s (rnd_pos (Zpos mx * 2 ^ (ex + 1074)) 1) (binary_round prec emax s mx ex).
Proof.
  intros Hex. unfold binary_round.
  change (Zpos (digits2_pos mx)) with (dig (Zpos mx)).
  destruct (shl_align mx ex (fexp prec emax (dig (Zpos mx) + ex))) as [mz ez] eqn:E.
  apply shl_align_spec in E. destruct E as [Ez Emz].
  rewrite fexp_eq in Ez.
  assert (Hez : -1074 <= ez <= ex) by lia.
  assert (Hd : dig (Zpos mz) + ez = dig (Zpos mx) + ex).
  { rewrite Emz. rewrite dig_shift_l by lia. lia. }
  apply binary_round_aux_Rpos with (N := Zpos mz) (D := 1).
  - lia.
  - lia.
  - lia.
  - apply shr_inv_of_exact.
  - rewrite Hd, fexp_eq. split; lia.
  - replace (Z.max (-1074 - ez) 0) with 0 by lia.
    replace (Z.max (ez + 1074) 0) with (ez + 1074) by lia.
    rewrite Emz. rewrite Z.pow_0_r, !Z.mul_1_r.
    rewrite <- Z.mul_assoc. rewrite <- Z.pow_add_r by lia.
    f_equal. f_equal. lia.
Qed.

Lemma binary_normalize_rounds z e :
  -1074 <= e ->
  SFrounds (z * 2 ^ (e + 1074)) 1 (binary_normalize prec emax z e false).
Proof.
  intros He.
  assert (P : 0 < 2 ^ (e + 1074)) by (apply Z.pow_pos_nonneg; lia).
  destruct z as [ | p | p ]; unfold binary_normalize.
  - apply (SFres_rounds false); [ lia | | lia | lia ].
    rewrite Z.mul_0_l. cbn [Z.abs]. rewrite rnd_pos_0 by lia. cbn [SFres]. split; reflexivity.
  - apply (SFres_rounds false); [ lia | | lia | reflexivity ].
    rewrite Z.abs_eq by lia. apply binary_round_Rpos. exact He.
  - apply (SFres_rounds true); [ lia | | reflexivity | lia ].
    rewrite Z.abs_neq by lia.
    replace (- (Zneg p * 2 ^ (e + 1074))) with (Zpos p * 2 ^ (e + 1074)) by lia.
    apply binary_round_Rpos. exact He.
Qed.

(** ** Valid finite floats *)

Lemma bounded_facts m e :
  bounded prec emax m e = true ->
  -1074 <= e <= 971 /\ Zpos m < 2 ^ 53
  /\ (-1074 < e -> 2 ^ 52 <= Zpos m).
Proof.
  intros H. apply bounded_iff in H. destruct H as [Hc He].
  assert (Hd : dig (Zpos m) <= 53) by lia.
  pose proof (dig_spec (Zpos m) ltac:(lia)) as [Hlo Hhi].
  split; [ lia | ]. split.
  - assert (2 ^ dig (Zpos m) <= 2 ^ 53) by (apply Z.pow_le_mono_r; lia). lia.
  - intros Hn. assert (dig (Zpos m) = 53) by lia.
    replace (dig (Zpos m) - 1) with 52 in Hlo by lia. exact Hlo.
Qed.

Lemma SFival_abs_finite s m e :
  Z.abs (SFival (S754_finite s m e)) = Zpos m * 2 ^ (e + 1074).
Proof.
  cbn [SFival]. pose proof (Z.pow_nonneg 2 (e + 1074) ltac:(lia)).
  destruct s; cbn [cond_Zopp]; lia.
Qed.

(** ** Multiplication *)

Lemma SFmul_rounds x y :
  valid_binary x = true -> valid_binary y = true ->
  SFfin x = true -> SFfin y = true ->
  SFrounds (SFival x * SFival y) (2 ^ 1074) (SFmul prec emax x y).
Proof.
  intros Vx Vy Fx Fy.
  assert (P : 0 < 2 ^ 1074) by (apply Z.pow_pos_nonneg; lia).
  assert (Zero : forall s, SFrounds 0 (2 ^ 1074) (S754_zero s)).
  { intros s. apply (SFres_rounds s); [ lia | | lia | lia ].
    cbn [Z.abs]. rewrite rnd_pos_0 by lia. cbn [SFres]. split; reflexivity. }
  destruct x as [ sx | sx | | sx mx ex ]; try discriminate;
    destruct y as [ sy | sy | | sy my ey ]; try discriminate; cbn [SFmul].
  - cbn [SFival]. apply Zero.
  - cbn [SFival]. apply Zero.
  - cbn [SFival]. rewrite Z.mul_0_r. apply Zero.
  - cbn [valid_binary] in Vx, Vy.
    pose proof (bounded_facts mx ex Vx) as (Hex & Hmx & Hnx).
    pose proof (bounded_facts my ey Vy) as (Hey & Hmy & Hny).
    assert (Px : 0 < 2 ^ (ex + 1074)) by (apply Z.pow_pos_nonneg; lia).
    assert (Py : 0 < 2 ^ (ey + 1074)) by (apply Z.pow_pos_nonneg; lia).
    assert (Habs : Z.abs (SFival (S754_finite sx mx ex) * SFival (S754_finite sy my ey))
                   = Zpos mx * 2 ^ (ex + 1074) * (Zpos my * 2 ^ (ey + 1074))).
    { rewrite Z.abs_mul, !SFival_abs_finite. reflexivity. }
    apply (SFres_rounds (xorb sx sy)).
    + lia.
    + rewrite Habs.
      apply binary_round_aux_Rpos with (N := Zpos (mx * my)) (D := 1).
      * lia.
      * lia.
      * lia.
      * apply shr_inv_of_exact.
      * rewrite fexp_eq. split; [ | lia ].
        rewrite Pos2Z.inj_mul.
        assert (Hd : dig (Zpos mx) + dig (Zpos my) - 1 <= dig (Zpos mx * Zpos my)).
        { pose proof (dig_spec (Zpos mx) ltac:(lia)) as [Lx _].
          pose proof (dig_spec (Zpos my) ltac:(lia)) as [Ly _].
          pose proof (dig_pos (Zpos mx) ltac:(lia)).
          pose proof (dig_pos (Zpos my) ltac:(lia)).
          assert (2 ^ (dig (Zpos mx) - 1 + (dig (Zpos my) - 1)) <= Zpos mx * Zpos my).
          { rewrite Z.pow_add_r by lia.
            apply Z.mul_le_mono_nonneg; try lia; apply Z.pow_nonneg; lia. }
          pose proof (dig_ge_pow (Zpos mx * Zpos my)
                        (dig (Zpos mx) - 1 + (dig (Zpos my) - 1)) ltac:(lia) H1).
          lia. }
        apply bounded_iff in Vx, Vy.
        pose proof (dig_pos (Zpos mx) ltac:(lia)).
        pose proof (dig_pos (Zpos my) ltac:(lia)).
        lia.
      * rewrite Pos2Z.inj_mul, Z.mul_1_r.
        destruct (Z.le_gt_cases (-1074) (ex + ey)) as [Hge | Hlt].
        -- replace (Z.max (-1074 - (ex + ey)) 0) with 0 by lia.
           replace (Z.max (ex + ey + 1074) 0) with (ex + ey + 1074) by lia.
           rewrite Z.pow_0_r, Z.mul_1_r.
           replace (Zpos mx * 2 ^ (ex + 1074) * (Zpos my * 2 ^ (ey + 1074)))
             with (Zpos mx * Zpos my * (2 ^ (ex + 1074) * 2 ^ (ey + 1074))) by ring.
           rewrite <- Z.pow_add_r by lia.
           rewrite <- !Z.mul_assoc. rewrite <- Z.pow_add_r by lia.
           do 3 f_equal. lia.
        -- replace (Z.max (-1074 - (ex + ey)) 0) with (-1074 - (ex + ey)) by lia.
           replace (Z.max (ex + ey + 1074) 0) with 0 by lia.
           rewrite Z.pow_0_r, Z.mul_1_r.
           replace (Zpos mx * 2 ^ (ex + 1074) * (Zpos my * 2 ^ (ey + 1074)))
             with (Zpos mx * Zpos my * (2 ^ (ex + 1074) * 2 ^ (ey + 1074))) by ring.
           rewrite <- Z.pow_add_r by lia.
           rewrite <- !Z.mul_assoc. rewrite <- Z.pow_add_r by lia.
           do 3 f_equal. lia.
    + intros Hneg. cbn [SFival] in Hneg.
      pose proof (Z.mul_pos_pos _ _ (Pos2Z.is_pos mx) Px).
      pose proof (Z.mul_pos_pos _ _ (Pos2Z.is_pos my) Py).
      destruct sx, sy; cbn [cond_Zopp xorb] in *; try reflexivity; nia.
    + intros Hpos. cbn [SFival] in Hpos.
      pose proof (Z.mul_pos_pos _ _ (Pos2Z.is_pos mx) Px).
      pose proof (Z.mul_pos_pos _ _ (Pos2Z.is_pos my) Py).
      destruct sx, sy; cbn [cond_Zopp xorb] in *; try reflexivity; nia.
Qed.

(** ** Division *)

Lemma new_location_inv N D :
  0 <= N -> 0 < D ->
  shr_inv N D (shr_record_of_loc (N / D) (new_location D (N mod D))).
Proof.
  intros HN HD. pose proof (Z.mod_pos_bound N D HD) as Hr.
  set (r := N mod D) in *.
  assert (Hloc : new_location D r
                 = if r =? 0 then loc_Exact else loc_Inexact (2 * r ?= D)).
  { unfold new_location, new_location_even, new_location_odd.
    destruct (Z.even D) eqn:Ev; [ reflexivity | ].
    destruct (r =? 0); [ reflexivity | ]. f_equal.
    assert (Hne : 2 * r <> D).
    { intros E. rewrite <- E, Z.even_mul in Ev. discriminate. }
    destruct (Z.compare_spec (2 * r + 1) D); destruct (Z.compare_spec (2 * r) D);
      try reflexivity; lia. }
  rewrite Hloc. unfold shr_inv. fold r.
  destruct (Z.eqb_spec r 0) as [E0 | N0].
  - cbn [shr_record_of_loc shr_m shr_r shr_s]. rewrite E0.
    replace (2 * 0) with 0 by reflexivity. rewrite Z.mod_0_l by lia.
    repeat split. symmetry. apply Z.leb_gt. lia.
  - destruct (Z.compare_spec (2 * r) D) as [E | L | G];
      cbn [shr_record_of_loc shr_m shr_r shr_s]; repeat split.
    + symmetry. apply Z.leb_le. lia.
    + rewrite E, Z.mod_same by lia. reflexivity.
    + symmetry. apply Z.leb_gt. lia.
    + rewrite Z.mod_small by lia. symmetry. apply negb_true_iff, Z.eqb_neq. lia.
    + symmetry. apply Z.leb_le. lia.
    + rewrite <- (Z.mod_unique (2 * r) D 1 (2 * r - D)) by lia.
      symmetry. apply negb_true_iff, Z.eqb_neq. lia.
Qed.

Lemma pow2_mul a b : 0 <= a -> 0 <= b -> 2 ^ a * 2 ^ b = 2 ^ (a + b).
Proof. intros. symmetry. apply Z.pow_add_r; assumption. Qed.

Lemma SFdiv_core_Rpos s m1 e1 m2 e2 :
  0 < m1 -> 0 < m2 -> -1074 <= e1 -> -1074 <= e2 ->
  let '(q, e', l) := SFdiv_core_binary prec emax m1 e1 m2 e2 in
  SFres s (rnd_pos (m1 * 2 ^ (e1 + 1074) * 2 ^ 1074) (m2 * 2 ^ (e2 + 1074)))
        (binary_round_aux prec emax s q e' l).
Proof.
  intros H1 H2 He1 He2. unfold SFdiv_core_binary.
  change (Zdigits2 m1) with (dig m1). change (Zdigits2 m2) with (dig m2).
  rewrite fexp_eq.
  set (X := dig m1 + e1 - (dig m2 + e2)).
  set (e' := Z.min (Z.max (X - 53) (-1074)) (e1 - e2)).
  set (sft := e1 - e2 - e').
  assert (Hs : 0 <= sft) by (unfold sft, e'; lia).
  assert (Ps : 0 < 2 ^ sft) by (apply Z.pow_pos_nonneg; lia).
  assert (Em : match sft with
               | 0 => m1
               | Zpos _ => Z.shiftl m1 sft
               | Zneg _ => 0
               end = m1 * 2 ^ sft).
  { destruct sft as [ | p | p ] eqn:E; [ simpl; lia | | lia ].
    rewrite Z.shiftl_mul_pow2 by lia. reflexivity. }
  rewrite Em. clear Em.
  set (m' := m1 * 2 ^ sft).
  assert (Hm' : 0 < m') by (unfold m'; nia).
  pose proof (Z_div_mod m' m2 ltac:(lia)) as Hde.
  destruct (Z.div_eucl m' m2) as [q r] eqn:Ede.
  assert (Eq : q = m' / m2) by (unfold Z.div; rewrite Ede; reflexivity).
  assert (Er : r = m' mod m2) by (unfold Z.modulo; rewrite Ede; reflexivity).
  pose proof (dig_spec m1 H1) as [L1 U1].
  pose proof (dig_spec m2 H2) as [L2 U2].
  pose proof (dig_pos m1 H1) as D1. pose proof (dig_pos m2 H2) as D2.
  assert (Px1 : 0 < 2 ^ (e1 + 1074)) by (apply Z.pow_pos_nonneg; lia).
  assert (Px2 : 0 < 2 ^ (e2 + 1074)) by (apply Z.pow_pos_nonneg; lia).
  assert (P74 : 0 < 2 ^ 1074) by (apply Z.pow_pos_nonneg; lia).
  apply binary_round_aux_Rpos with (N := m') (D := m2).
  - lia.
  - lia.
  - nia.
  - rewrite Eq, Er. apply new_location_inv; lia.
  - rewrite fexp_eq.
    destruct (Z.le_gt_cases e' (-1074)) as [Hle | Hgt].
    + split; [ lia | right; lia ].
    + assert (Hx : e' <= X - 53) by (unfold e' in *; lia).
      assert (Hk : 52 <= dig m1 - 1 + sft - dig m2) by (unfold sft, X in *; lia).
      set (k := dig m1 - 1 + sft - dig m2) in *.
      assert (Hq : 2 ^ k <= q).
      { rewrite Eq. apply Z.div_le_lower_bound; [ lia | ].
        assert (E : 2 ^ (dig m1 - 1) * 2 ^ sft = 2 ^ k * 2 ^ dig m2).
        { rewrite !pow2_mul by lia. f_equal. unfold k. lia. }
        assert (Pk : 0 < 2 ^ k) by (apply Z.pow_pos_nonneg; lia).
        unfold m'. nia. }
      pose proof (dig_ge_pow q k ltac:(lia) Hq) as Hdq.
      assert (0 < q) by (pose proof (Z.pow_pos_nonneg 2 k); lia).
      split; [ | left; assumption ].
      unfold k, sft, X in *. lia.
  - unfold m'.
    destruct (Z.le_gt_cases (-1074) e') as [Hge | Hlt].
    + replace (Z.max (-1074 - e') 0) with 0 by lia.
      replace (Z.max (e' + 1074) 0) with (e' + 1074) by lia.
      rewrite Z.pow_0_r, Z.mul_1_r.
      replace (m1 * 2 ^ (e1 + 1074) * 2 ^ 1074 * m2)
        with (m1 * m2 * (2 ^ (e1 + 1074) * 2 ^ 1074)) by ring.
      replace (m1 * 2 ^ sft * (m2 * 2 ^ (e2 + 1074)) * 2 ^ (e' + 1074))
        with (m1 * m2 * (2 ^ sft * 2 ^ (e2 + 1074) * 2 ^ (e' + 1074))) by ring.
      rewrite !pow2_mul by lia. do 2 f_equal. unfold sft. lia.
    + replace (Z.max (-1074 - e') 0) with (-1074 - e') by lia.
      replace (Z.max (e' + 1074) 0) with 0 by lia.
      rewrite Z.pow_0_r, Z.mul_1_r.
      replace (m1 * 2 ^ (e1 + 1074) * 2 ^ 1074 * m2 * 2 ^ (-1074 - e'))
        with (m1 * m2 * (2 ^ (e1 + 1074) * 2 ^ 1074 * 2 ^ (-1074 - e'))) by ring.
      replace (m1 * 2 ^ sft * (m2 * 2 ^ (e2 + 1074)))
        with (m1 * m2 * (2 ^ sft * 2 ^ (e2 + 1074))) by ring.
      rewrite !pow2_mul by lia. do 2 f_equal. unfold sft. lia.
Qed.

(** Division of two finite operands whose exponents are at least -1074
    (canonical or not): the quotient is rounded once. *)
Lemma SFdiv_finite_rounds sx mx ex sy my ey :
  -1074 <= ex -> -1074 <= ey ->
  SFrounds (SFival (S754_finite sx mx ex) * 2 ^ 1074
            * Z.sgn (SFival (S754_finite sy my ey)))
           (Z.abs (SFival (S754_finite sy my ey)))
           (SFdiv prec emax (S754_finite sx mx ex) (S754_finite sy my ey)).
Proof.
  intros Hex Hey.
  assert (Px : 0 < 2 ^ (ex + 1074)) by (apply Z.pow_pos_nonneg; lia).
  assert (Py : 0 < 2 ^ (ey + 1074)) by (apply Z.pow_pos_nonneg; lia).
  assert (P74 : 0 < 2 ^ 1074) by (apply Z.pow_pos_nonneg; lia).
  pose proof (Z.mul_pos_pos _ _ (Pos2Z.is_pos mx) Px) as Vx.
  pose proof (Z.mul_pos_pos _ _ (Pos2Z.is_pos my) Py) as Vy.
  rewrite SFival_abs_finite.
  cbn [SFdiv].
  pose proof (SFdiv_core_Rpos (xorb sx sy) (Zpos mx) ex (Zpos my) ey
                ltac:(lia) ltac:(lia) Hex Hey) as H.
  destruct (SFdiv_core_binary prec emax (Zpos mx) ex (Zpos my) ey) as [[q e'] l].
  apply (SFres_rounds (xorb sx sy)).
  - lia.
  - replace (Z.abs (SFival (S754_finite sx mx ex) * 2 ^ 1074
                    * Z.sgn (SFival (S754_finite sy my ey))))
      with (Zpos mx * 2 ^ (ex + 1074) * 2 ^ 1074); [ exact H | ].
    rewrite !Z.abs_mul, SFival_abs_finite.
    rewrite (Z.abs_eq (2 ^ 1074)) by lia.
    cbn [SFival]. destruct sy; cbn [cond_Zopp].
    + rewrite Z.sgn_neg by lia. simpl Z.abs. lia.
    + rewrite Z.sgn_pos by lia. simpl Z.abs. lia.
  - cbn [SFival]. intros Hneg.
    destruct sx, sy; cbn [cond_Zopp xorb] in *; try reflexivity;
      [ rewrite Z.sgn_neg in Hneg by lia | rewrite Z.sgn_pos in Hneg by lia ]; nia.
  - cbn [SFival]. intros Hpos.
    destruct sx, sy; cbn [cond_Zopp xorb] in *; try reflexivity;
      [ rewrite Z.sgn_pos in Hpos by lia | rewrite Z.sgn_neg in Hpos by lia ]; nia.
Qed.

(** ** Subtraction *)

Lemma SFrounds_exact x :
  valid_binary x = true -> SFfin x = true -> SFrounds (SFival x) 1 x.
Proof.
  intros V F. split; [ exact V | ]. intros _. split; [ exact F | ].
  destruct x as [ s | s | | s m e ]; try discriminate; cbn [SFival].
  - rewrite rnd_nonneg by lia. rewrite rnd_pos_0 by lia. reflexivity.
  - cbn [valid_binary] in V. pose proof (bounded_facts m e V) as (He & Hm & _).
    replace (cond_Zopp s (Zpos m * 2 ^ (e + 1074)))
      with (cond_Zopp s (Zpos m) * 2 ^ (e + 1074) * 1)
      by (destruct s; cbn [cond_Zopp]; ring).
    rewrite rnd_exact; [ ring | lia | destruct s; cbn [cond_Zopp]; lia | lia ].
Qed.

Lemma SFopp_ival x : SFival (SFopp x) = - SFival x.
Proof.
  destruct x as [ s | s | | s m e ]; cbn [SFopp SFival]; try reflexivity.
  destruct s; cbn [negb cond_Zopp]; lia.
Qed.

Lemma SFsub_rounds x y :
  valid_binary x = true -> valid_binary y = true ->
  SFfin x = true -> SFfin y = true ->
  SFrounds (SFival x - SFival y) 1 (SFsub prec emax x y).
Proof.
  intros Vx Vy Fx Fy.
  assert (Zero : forall s, SFrounds 0 1 (S754_zero s)).
  { intros s. apply (SFrounds_exact (S754_zero s)); reflexivity. }
  destruct x as [ sx | sx | | sx mx ex ]; try discriminate;
    destruct y as [ sy | sy | | sy my ey ]; try discriminate; cbn [SFsub].
  - cbn [SFival]. destruct sx, sy; apply Zero.
  - replace (SFival (S754_zero sx) - SFival (S754_finite sy my ey))
      with (SFival (S754_finite (negb sy) my ey))
      by (cbn [SFival]; destruct sy; cbn [negb cond_Zopp]; lia).
    apply SFrounds_exact; [ exact Vy | reflexivity ].
  - replace (SFival (S754_finite sx mx ex) - SFival (S754_zero sy))
      with (SFival (S754_finite sx mx ex)) by (cbn [SFival]; lia).
    apply SFrounds_exact; [ exact Vx | reflexivity ].
  - cbn [valid_binary] in Vx, Vy.
    pose proof (bounded_facts mx ex Vx) as (Hex & _).
    pose proof (bounded_facts my ey Vy) as (Hey & _).
    set (ez := Z.min ex ey).
    destruct (shl_align mx ex ez) as [mx' ex'] eqn:Ex.
    destruct (shl_align my ey ez) as [my' ey'] eqn:Ey.
    apply shl_align_spec in Ex, Ey. destruct Ex as [Ex1 Ex2], Ey as [Ey1 Ey2].
    cbn [fst].
    assert (Hez : -1074 <= ez) by (unfold ez; lia).
    assert (Hx : Zpos mx' * 2 ^ (ez + 1074) = Zpos mx * 2 ^ (ex + 1074)).
    { rewrite Ex2. rewrite <- Z.mul_assoc, pow2_mul by lia. do 2 f_equal. lia. }
    assert (Hy : Zpos my' * 2 ^ (ez + 1074) = Zpos my * 2 ^ (ey + 1074)).
    { rewrite Ey2. rewrite <- Z.mul_assoc, pow2_mul by lia. do 2 f_equal. lia. }
    replace (SFival (S754_finite sx mx ex) - SFival (S754_finite sy my ey))
      with ((cond_Zopp sx (Zpos mx') - cond_Zopp sy (Zpos my')) * 2 ^ (ez + 1074)).
    + apply binary_normalize_rounds. exact Hez.
    + cbn [SFival]. rewrite <- Hx, <- Hy.
      destruct sx, sy; cbn [cond_Zopp]; ring.
Qed.

(** ** Comparison *)

Lemma canonical_lt m1 e1 m2 e2 :
  bounded prec emax m1 e1 = true -> bounded prec emax m2 e2 = true ->
  e1 < e2 -> Zpos m1 * 2 ^ (e1 + 1074) < Zpos m2 * 2 ^ (e2 + 1074).
Proof.
  intros B1 B2 Hlt.
  pose proof (bounded_facts m1 e1 B1) as (He1 & Hm1 & _).
  pose proof (bounded_facts m2 e2 B2) as (He2 & _ & Hm2).
  specialize (Hm2 ltac:(lia)).
  assert (P1 : 0 < 2 ^ (e1 + 1074)) by (apply Z.pow_pos_nonneg; lia).
  assert (E : 2 ^ (e1 + 1074 + 1) <= 2 ^ (e2 + 1074)) by (apply Z.pow_le_mono_r; lia).
  rewrite Z.pow_add_r in E by lia.
  change (2 ^ 53) with (2 ^ 52 * 2) in Hm1. change (2 ^ 1) with 2 in E. nia.
Qed.

Lemma SFltb_ival x y :
  valid_binary x = true -> valid_binary y = true ->
  SFfin x = true -> SFfin y = true ->
  SFltb x y = (SFival x <? SFival y).
Proof.
  intros Vx Vy Fx Fy.
  destruct x as [ sx | sx | | sx mx ex ]; try discriminate;
    destruct y as [ sy | sy | | sy my ey ]; try discriminate;
    unfold SFltb; cbn [SFcompare SFival].
  - reflexivity.
  - cbn [valid_binary] in Vy. pose proof (bounded_facts my ey Vy) as (He & _).
    assert (0 < Zpos my * 2 ^ (ey + 1074))
      by (apply Z.mul_pos_pos; [ lia | apply Z.pow_pos_nonneg; lia ]).
    destruct sy; cbn [cond_Zopp]; symmetry; [ apply Z.ltb_ge | apply Z.ltb_lt ]; lia.
  - cbn [valid_binary] in Vx. pose proof (bounded_facts mx ex Vx) as (He & _).
    assert (0 < Zpos mx * 2 ^ (ex + 1074))
      by (apply Z.mul_pos_pos; [ lia | apply Z.pow_pos_nonneg; lia ]).
    destruct sx; cbn [cond_Zopp]; symmetry; [ apply Z.ltb_lt | apply Z.ltb_ge ]; lia.
  - cbn [valid_binary] in Vx, Vy.
    pose proof (bounded_facts mx ex Vx) as (Hex & _).
    pose proof (bounded_facts my ey Vy) as (Hey & _).
    assert (Px : 0 < Zpos mx * 2 ^ (ex + 1074))
      by (apply Z.mul_pos_pos; [ lia | apply Z.pow_pos_nonneg; lia ]).
    assert (Py : 0 < Zpos my * 2 ^ (ey + 1074))
      by (apply Z.mul_pos_pos; [ lia | apply Z.pow_pos_nonneg; lia ]).
    assert (Hcmp : (Zpos mx * 2 ^ (ex + 1074) ?= Zpos my * 2 ^ (ey + 1074))
                   = match ex ?= ey with
                     | Lt => Lt | Gt => Gt | Eq => Pos.compare_cont Eq mx my
                     end).
    { destruct (Z.compare_spec ex ey) as [E | L | G].
      - subst ey. change (Pos.compare_cont Eq mx my) with (Zpos mx ?= Zpos my).
        assert (0 < 2 ^ (ex + 1074)) by (apply Z.pow_pos_nonneg; lia).
        destruct (Z.compare_spec (Zpos mx) (Zpos my)) as [E | L | G].
        + rewrite E. apply Z.compare_refl.
        + apply Z.compare_lt_iff. nia.
        + apply Z.compare_gt_iff. nia.
      - apply Z.compare_lt_iff. apply canonical_lt; assumption.
      - apply Z.compare_gt_iff. apply canonical_lt; assumption. }
    destruct sx, sy; cbn [cond_Zopp].
    + replace (match ex ?= ey with
               | Eq => CompOpp (Pos.compare_cont Eq mx my)
               | Lt => Gt
               | Gt => Lt
               end)
        with (CompOpp (Zpos mx * 2 ^ (ex + 1074) ?= Zpos my * 2 ^ (ey + 1074)))
        by (rewrite Hcmp; destruct (ex ?= ey); reflexivity).
      destruct (Z.compare_spec (Zpos mx * 2 ^ (ex + 1074)) (Zpos my * 2 ^ (ey + 1074)));
        cbn [CompOpp]; symmetry; [ apply Z.ltb_ge | apply Z.ltb_ge | apply Z.ltb_lt ]; lia.
    + symmetry. apply Z.ltb_lt. lia.
    + symmetry. apply Z.ltb_ge. lia.
    + rewrite <- Hcmp.
      destruct (Z.compare_spec (Zpos mx * 2 ^ (ex + 1074)) (Zpos my * 2 ^ (ey + 1074)));
        symmetry; [ apply Z.ltb_ge | apply Z.ltb_lt | apply Z.ltb_ge ]; lia.
Qed.

(** ** Primitive floats through their values *)

(** The number of units of [2^-1074] in 1. *)
Definition ONE : Z := 2 ^ 1074.

Lemma ONE_pos : 0 < ONE.
Proof. unfold ONE. apply Z.pow_pos_nonneg; lia. Qed.

Definition fval (x : float) : Z := SFival (Prim2SF x).
Definition ffin (x : float) : bool := SFfin (Prim2SF x).

(** The rounded value does not overflow. *)
Definition fits (V : Z) : Prop := Z.abs V < 2 ^ 2098.

Lemma SFfin_cases r :
  SFfin r = true ->
  match r with S754_infinity _ | S754_nan => False | _ => True end.
Proof. destruct r; simpl; intros; try discriminate; exact I. Qed.

Lemma SFrounds_prim A B r :
  SFrounds A B r -> fits (rnd A B) ->
  Prim2SF (SF2Prim r) = r /\ SFfin r = true /\ SFival r = rnd A B.
Proof.
  intros [V H] Hf. destruct (H Hf) as [F E].
  split; [ apply Prim2SF_SF2Prim; exact V | ]. split; assumption.
Qed.

Lemma mul_fval x y :
  ffin x = true -> ffin y = true -> fits (rnd (fval x * fval y) ONE) ->
  ffin (x * y) = true /\ fval (x * y) = rnd (fval x * fval y) ONE.
Proof.
  unfold ffin, fval, ONE. intros Fx Fy Hf. rewrite mul_spec.
  pose proof (SFmul_rounds (Prim2SF x) (Prim2SF y)
                (Prim2SF_valid x) (Prim2SF_valid y) Fx Fy) as [_ H].
  apply H. exact Hf.
Qed.

Lemma sub_fval x y :
  ffin x = true -> ffin y = true -> fits (rnd (fval x - fval y) 1) ->
  ffin (x - y) = true /\ fval (x - y) = rnd (fval x - fval y) 1.
Proof.
  unfold ffin, fval. intros Fx Fy Hf. rewrite sub_spec.
  pose proof (SFsub_rounds (Prim2SF x) (Prim2SF y)
                (Prim2SF_valid x) (Prim2SF_valid y) Fx Fy) as [_ H].
  apply H. exact Hf.
Qed.

Lemma div_fval x y :
  ffin x = true -> ffin y = true -> 0 < fval y ->
  fits (rnd (fval x * ONE) (fval y)) ->
  ffin (x / y) = true /\ fval (x / y) = rnd (fval x * ONE) (fval y).
Proof.
  unfold ffin, fval, ONE. intros Fx Fy Hy Hf. rewrite div_spec.
  pose proof (Prim2SF_valid x) as Vx. pose proof (Prim2SF_valid y) as Vy.
  destruct (Prim2SF y) as [ sy | sy | | sy my ey ]; cbn [SFfin] in Fy;
    try discriminate.
  cbn [valid_binary] in Vy. pose proof (bounded_facts my ey Vy) as (Hey & _).
  destruct (Prim2SF x) as [ sx | sx | | sx mx ex ]; cbn [SFfin] in Fx; try discriminate.
  - unfold SF64div. cbn [SFdiv SFfin]. split; [ reflexivity | ].
    change (SFival (S754_zero (xorb sx sy))) with 0.
    change (SFival (S754_zero sx)) with 0.
    rewrite Z.mul_0_l, rnd_nonneg by lia. rewrite rnd_pos_0 by lia. reflexivity.
  - cbn [valid_binary] in Vx. pose proof (bounded_facts mx ex Vx) as (Hex & _).
    pose proof (SFdiv_finite_rounds sx mx ex sy my ey ltac:(lia) ltac:(lia)) as [_ H].
    rewrite Z.sgn_pos, Z.mul_1_r in H by exact Hy.
    rewrite (Z.abs_eq (SFival (S754_finite sy my ey))) in H by lia.
    apply H. exact Hf.
Qed.

Lemma ltb_fval x y :
  ffin x = true -> ffin y = true -> (x <? y)%float = (fval x <? fval y).
Proof.
  unfold ffin, fval. intros Fx Fy. rewrite ltb_spec.
  apply SFltb_ival; auto using Prim2SF_valid.
Qed.

Lemma float_of_int_fval z :
  fits (rnd (z * ONE) 1) ->
  exists f, Py.float_of_int z = Some f /\ ffin f = true /\ fval f = rnd (z * ONE) 1.
Proof.
  unfold ONE. intros Hf.
  pose proof (binary_normalize_rounds z 0 ltac:(lia)) as H.
  replace (0 + 1074) with 1074 in H by reflexivity.
  destruct (SFrounds_prim _ _ _ H Hf) as (E & F & V).
  unfold Py.float_of_int, ffin, fval.
  destruct (binary_normalize prec emax z 0 false) as [ s | s | | s m e ] eqn:Eb;
    try discriminate.
  - exists (SF2Prim (S754_zero s)). rewrite E. repeat split; assumption.
  - exists (SF2Prim (S754_finite s m e)). rewrite E. repeat split; assumption.
Qed.

Lemma SFival_Z2SF z : SFival (Py.Z2SF z) = z * 2 ^ 1074.
Proof. destruct z; cbn [Py.Z2SF SFival cond_Zopp]; lia. Qed.

Lemma int_truediv_fval a b :
  0 < b -> fits (rnd (a * ONE) b) ->
  exists f, Py.int_truediv a b = Some f /\ ffin f = true /\ fval f = rnd (a * ONE) b.
Proof.
  unfold ONE. intros Hb Hf.
  assert (P : 0 < 2 ^ 1074) by (apply Z.pow_pos_nonneg; lia).
  assert (H : SFrounds (a * 2 ^ 1074) b (SF64div (Py.Z2SF a) (Py.Z2SF b))).
  { unfold SF64div. destruct b as [ | pb | pb ]; try lia.
    destruct a as [ | pa | pa ].
    - cbn [Py.Z2SF SFdiv xorb]. rewrite Z.mul_0_l.
      apply (SFres_rounds false); [ lia | | lia | lia ].
      cbn [Z.abs]. rewrite rnd_pos_0 by lia. cbn [SFres]. split; reflexivity.
    - pose proof (SFdiv_finite_rounds false pa 0 false pb 0 ltac:(lia) ltac:(lia)) as [V H].
      split; [ exact V | ].
      cbn [SFival cond_Zopp] in H. replace (0 + 1074) with 1074 in H by reflexivity.
      rewrite Z.sgn_pos, Z.mul_1_r in H by lia.
      rewrite (Z.abs_eq (Zpos pb * 2 ^ 1074)) in H by lia.
      replace (Zpos pa * 2 ^ 1074 * 2 ^ 1074)
        with (2 ^ 1074 * (Zpos pa * 2 ^ 1074)) in H by lia.
      rewrite (Z.mul_comm (Zpos pb)) in H.
      rewrite rnd_scale in H by lia. exact H.
    - pose proof (SFdiv_finite_rounds true pa 0 false pb 0 ltac:(lia) ltac:(lia)) as [V H].
      split; [ exact V | ].
      cbn [SFival cond_Zopp] in H. replace (0 + 1074) with 1074 in H by reflexivity.
      rewrite Z.sgn_pos, Z.mul_1_r in H by lia.
      rewrite (Z.abs_eq (Zpos pb * 2 ^ 1074)) in H by lia.
      replace (- (Zpos pa * 2 ^ 1074) * 2 ^ 1074)
        with (2 ^ 1074 * (Zneg pa * 2 ^ 1074)) in H by lia.
      rewrite (Z.mul_comm (Zpos pb)) in H.
      rewrite rnd_scale in H by lia. exact H. }
  destruct (SFrounds_prim _ _ _ H Hf) as (E & F & V).
  unfold Py.int_truediv, ffin, fval.
  replace (b =? 0) with false by (symmetry; apply Z.eqb_neq; lia).
  destruct (SF64div (Py.Z2SF a) (Py.Z2SF b)) as [ s | s | | s m e ] eqn:Eb;
    try discriminate.
  - exists (SF2Prim (S754_zero s)). rewrite E. repeat split; assumption.
  - exists (SF2Prim (S754_finite s m e)). rewrite E. repeat split; assumption.
Qed.

(** [round] on a value: half-even rounding of [v / ONE], symmetric in the sign. *)
Definition round_ival (v : Z) : Z := Z.sgn v * rhe (Z.abs v) ONE.

Lemma round_fval x :
  ffin x = true -> Py.round x = Some (round_ival (fval x)).
Proof.
  unfold ffin, fval, Py.round, round_ival, ONE. intros F.
  pose proof (Prim2SF_valid x) as V.
  destruct (Prim2SF x) as [ s | s | | s m e ]; try discriminate.
  - reflexivity.
  - cbn [valid_binary] in V. pose proof (bounded_facts m e V) as (He & _).
    rewrite SFival_abs_finite. f_equal.
    assert (Pe : 0 < 2 ^ (e + 1074)) by (apply Z.pow_pos_nonneg; lia).
    assert (P : 0 < 2 ^ 1074) by (apply Z.pow_pos_nonneg; lia).
    assert (Hr : rhe (Zpos m * 2 ^ (e + 1074)) (2 ^ 1074)
                 = if 0 <=? e then Zpos m * 2 ^ e
                   else Py.round_half_even_shift (Zpos m) (- e)).
    { destruct (Z.leb_spec 0 e) as [Hp | Hn].
      - replace (e + 1074) with (e + 1074) by lia.
        rewrite Z.pow_add_r, Z.mul_assoc by lia.
        rewrite rhe_exact; [ apply Z.div_mul; lia | lia | apply Z.mod_mul; lia ].
      - change (Py.round_half_even_shift (Zpos m) (- e)) with (rhe (Zpos m) (2 ^ (- e))).
        assert (Pn : 0 < 2 ^ (- e)) by (apply Z.pow_pos_nonneg; lia).
        replace (2 ^ 1074) with (2 ^ (e + 1074) * 2 ^ (- e))
          by (rewrite pow2_mul by lia; f_equal; lia).
        rewrite (Z.mul_comm (Zpos m)).
        apply rhe_scale; lia. }
    rewrite Hr. cbn [SFival].
    set (a := if 0 <=? e then Zpos m * 2 ^ e
              else Py.round_half_even_shift (Zpos m) (- e)).
    assert (0 < Zpos m * 2 ^ (e + 1074)) by (apply Z.mul_pos_pos; lia).
    destruct s; cbn [cond_Zopp].
    + rewrite Z.sgn_neg by lia. lia.
    + rewrite Z.sgn_pos by lia. lia.
Qed.

(** ** Bounds of rounded values by representable numbers *)

Lemma rnd_le_grid A B m j :
  0 < B -> - 2 ^ 53 < m < 2 ^ 53 -> 0 <= j -> A <= m * 2 ^ j * B -> rnd A B <= m * 2 ^ j.
Proof.
  intros HB Hm Hj H. rewrite <- (rnd_exact m j 1) by lia.
  apply rnd_mono; lia.
Qed.

Lemma rnd_ge_grid A B m j :
  0 < B -> - 2 ^ 53 < m < 2 ^ 53 -> 0 <= j -> m * 2 ^ j * B <= A -> m * 2 ^ j <= rnd A B.
Proof.
  intros HB Hm Hj H. rewrite <- (rnd_exact m j 1) by lia.
  apply rnd_mono; lia.
Qed.

Lemma rnd_le_ONE A B K :
  0 < B -> - 2 ^ 53 < K < 2 ^ 53 -> A <= K * ONE * B -> rnd A B <= K * ONE.
Proof. intros. unfold ONE in *. apply rnd_le_grid; lia. Qed.

Lemma rnd_ge_ONE A B K :
  0 < B -> - 2 ^ 53 < K < 2 ^ 53 -> K * ONE * B <= A -> K * ONE <= rnd A B.
Proof. intros. unfold ONE in *. apply rnd_ge_grid; lia. Qed.

Lemma rnd_0 B : 0 < B -> rnd 0 B = 0.
Proof. intros. rewrite rnd_nonneg by lia. apply rnd_pos_0; lia. Qed.

Lemma rnd_int_ONE K : - 2 ^ 53 < K < 2 ^ 53 -> rnd (K * ONE) 1 = K * ONE.
Proof.
  intros HK. unfold ONE.
  replace (K * 2 ^ 1074) with (K * 2 ^ 1074 * 1) at 1 by ring.
  apply rnd_exact; lia.
Qed.

(** Magnitudes up to [2^1000] do not overflow. *)
Lemma fits_le V k : 0 <= k <= 1000 -> Z.abs V <= 2 ^ k * ONE -> fits V.
Proof.
  intros Hk H. unfold fits, ONE in *.
  assert (2 ^ k * 2 ^ 1074 < 2 ^ 2098).
  { rewrite <- Z.pow_add_r by lia. apply Z.pow_lt_mono_r; lia. }
  lia.
Qed.

Lemma rnd_abs_le_pow A B k :
  0 < B -> 0 <= k -> Z.abs A <= 2 ^ k * ONE * B -> Z.abs (rnd A B) <= 2 ^ k * ONE.
Proof.
  intros HB Hk H. unfold ONE in *.
  assert (P : 0 < 2 ^ k * 2 ^ 1074) by (apply Z.mul_pos_pos; apply Z.pow_pos_nonneg; lia).
  rewrite <- Z.pow_add_r in * by lia.
  assert (U : rnd A B <= 1 * 2 ^ (k + 1074)) by (apply rnd_le_grid; lia).
  assert (L : -1 * 2 ^ (k + 1074) <= rnd A B) by (apply rnd_ge_grid; lia).
  lia.
Qed.

(** ** Uniqueness of the canonical representation *)

Lemma canonical_unique m1 e1 m2 e2 :
  bounded prec emax m1 e1 = true -> bounded prec emax m2 e2 = true ->
  Zpos m1 * 2 ^ (e1 + 1074) = Zpos m2 * 2 ^ (e2 + 1074) ->
  m1 = m2 /\ e1 = e2.
Proof.
  intros B1 B2 H.
  destruct (Z.lt_trichotomy e1 e2) as [L | [E | G]].
  - pose proof (canonical_lt m1 e1 m2 e2 B1 B2 L). lia.
  - subst e2. split; [ | reflexivity ].
    pose proof (bounded_facts m1 e1 B1) as (He & _).
    assert (0 < 2 ^ (e1 + 1074)) by (apply Z.pow_pos_nonneg; lia).
    assert (Zpos m1 = Zpos m2) by nia. congruence.
  - pose proof (canonical_lt m2 e2 m1 e1 B2 B1 ltac:(lia)). lia.
Qed.

Lemma bounded_below_overflow m e :
  bounded prec emax m e = true -> Zpos m * 2 ^ (e + 1074) < 2 ^ 2098.
Proof.
  intros B. pose proof (bounded_facts m e B) as (He & Hm & _).
  assert (2 ^ (e + 1074) <= 2 ^ 2045) by (apply Z.pow_le_mono_r; lia).
  assert (0 < 2 ^ (e + 1074)) by (apply Z.pow_pos_nonneg; lia).
  replace 2098 with (53 + 2045) by reflexivity. rewrite (Z.pow_add_r 2 53 2045) by lia.
  apply Z.lt_le_trans with (2 ^ 53 * 2 ^ (e + 1074)).
  - apply Z.mul_lt_mono_pos_r; lia.
  - apply Z.mul_le_mono_nonneg_l; lia.
Qed.

Lemma bounded_pos m e :
  bounded prec emax m e = true -> 0 < Zpos m * 2 ^ (e + 1074).
Proof.
  intros B. pose proof (bounded_facts m e B) as (He & _).
  apply Z.mul_pos_pos; [ lia | apply Z.pow_pos_nonneg; lia ].
Qed.

Lemma SFres_unique s V r1 r2 : SFres s V r1 -> SFres s V r2 -> r1 = r2.
Proof.
  intros H1 H2.
  assert (P : 0 < 2 ^ 2098) by (apply Z.pow_pos_nonneg; lia).
  destruct r1 as [ s1 | s1 | | s1 m1 e1 ], r2 as [ s2 | s2 | | s2 m2 e2 ];
    cbn [SFres] in H1, H2; try contradiction.
  - destruct H1 as [-> _], H2 as [-> _]. reflexivity.
  - destruct H1 as [_ H1], H2 as [_ H2]. lia.
  - destruct H1 as [_ H1], H2 as [_ [H2 B2]].
    pose proof (bounded_pos m2 e2 B2). lia.
  - destruct H1 as [_ H1], H2 as [_ H2]. lia.
  - destruct H1 as [-> _], H2 as [-> _]. reflexivity.
  - destruct H1 as [_ H1], H2 as [_ [H2 B2]].
    pose proof (bounded_below_overflow m2 e2 B2). lia.
  - destruct H1 as [_ [H1 B1]], H2 as [_ H2].
    pose proof (bounded_pos m1 e1 B1). lia.
  - destruct H1 as [_ [H1 B1]], H2 as [_ H2].
    pose proof (bounded_below_overflow m1 e1 B1). lia.
  - destruct H1 as [-> [H1 B1]], H2 as [-> [H2 B2]].
    destruct (canonical_unique m1 e1 m2 e2 B1 B2 ltac:(lia)) as [-> ->]. reflexivity.
Qed.

Lemma fval_inj x y :
  ffin x = true -> ffin y = true -> fval x = fval y -> fval x <> 0 -> x = y.
Proof.
  unfold ffin, fval. intros Fx Fy E N. apply Prim2SF_inj.
  pose proof (Prim2SF_valid x) as Vx. pose proof (Prim2SF_valid y) as Vy.
  destruct (Prim2SF x) as [ sx | sx | | sx mx ex ]; cbn [SFfin] in Fx; try discriminate;
    [ cbn [SFival] in N; lia | ].
  destruct (Prim2SF y) as [ sy | sy | | sy my ey ]; cbn [SFfin] in Fy; try discriminate;
    [ cbn [SFival] in E, N; lia | ].
  cbn [valid_binary] in Vx, Vy. cbn [SFival] in E.
  pose proof (bounded_facts mx ex Vx) as (Hex & _).
  pose proof (bounded_facts my ey Vy) as (Hey & _).
  assert (0 < Zpos mx * 2 ^ (ex + 1074)) by (apply Z.mul_pos_pos; [ lia | apply Z.pow_pos_nonneg; lia ]).
  assert (0 < Zpos my * 2 ^ (ey + 1074)) by (apply Z.mul_pos_pos; [ lia | apply Z.pow_pos_nonneg; lia ]).
  assert (sx = sy) by (destruct sx, sy; cbn [cond_Zopp] in E; try reflexivity; lia).
  subst sy.
  destruct (canonical_unique mx ex my ey Vx Vy) as [-> ->]; [ | reflexivity ].
  destruct sx; cbn [cond_Zopp] in E; lia.
Qed.

(** ** The constants of the formulas *)

Lemma fval_consts :
  (ffin 0.0 = true /\ fval 0.0 = 0) /\
  (ffin 1.0 = true /\ fval 1.0 = 1 * ONE) /\
  (ffin 5.0 = true /\ fval 5.0 = 5 * ONE) /\
  (ffin 100.0 = true /\ fval 100.0 = 100 * ONE).
Proof. vm_compute. repeat split; reflexivity. Qed.

(** ** [min], [max] and [round] on values *)

Lemma min_fval a b :
  ffin a = true -> ffin b = true ->
  ffin (Py.min a b) = true /\ fval (Py.min a b) = Z.min (fval a) (fval b).
Proof.
  intros Fa Fb. unfold Py.min. rewrite (ltb_fval b a Fb Fa).
  destruct (Z.ltb_spec (fval b) (fval a)); split; try assumption; lia.
Qed.

Lemma max_fval a b :
  ffin a = true -> ffin b = true ->
  ffin (Py.max a b) = true /\ fval (Py.max a b) = Z.max (fval a) (fval b).
Proof.
  intros Fa Fb. unfold Py.max. rewrite (ltb_fval a b Fa Fb).
  destruct (Z.ltb_spec (fval a) (fval b)); split; try assumption; lia.
Qed.

Lemma rhe_0 D : 0 < D -> rhe 0 D = 0.
Proof.
  intros HD. rewrite rhe_exact; [ apply Z.div_0_l; lia | lia | apply Z.mod_0_l; lia ].
Qed.

Lemma round_ival_nonneg v : 0 <= v -> round_ival v = rhe v ONE.
Proof.
  intros H. unfold round_ival. destruct (Z.eq_dec v 0) as [-> | N].
  - cbn [Z.sgn Z.abs]. rewrite rhe_0 by apply ONE_pos. reflexivity.
  - rewrite Z.sgn_pos, Z.abs_eq by lia. lia.
Qed.

Lemma round_ival_neg v : v <= 0 -> round_ival v = - rhe (- v) ONE.
Proof.
  intros H. unfold round_ival. destruct (Z.eq_dec v 0) as [-> | N].
  - cbn [Z.sgn Z.abs Z.opp]. rewrite rhe_0 by apply ONE_pos. reflexivity.
  - rewrite Z.sgn_neg, Z.abs_neq by lia. lia.
Qed.

Lemma round_ival_mono v v' : v <= v' -> round_ival v <= round_ival v'.
Proof.
  intros H. pose proof ONE_pos as HW.
  destruct (Z.le_gt_cases 0 v) as [P | Ng].
  - rewrite !round_ival_nonneg by lia. apply rhe_mono_num; lia.
  - destruct (Z.le_gt_cases 0 v') as [P' | Ng'].
    + rewrite (round_ival_neg v), (round_ival_nonneg v') by lia.
      pose proof (rhe_nonneg (- v) ONE HW ltac:(lia)).
      pose proof (rhe_nonneg v' ONE HW P'). lia.
    + rewrite !round_ival_neg by lia.
      assert (rhe (- v') ONE <= rhe (- v) ONE) by (apply rhe_mono_num; lia). lia.
Qed.

Lemma round_ival_int K : round_ival (K * ONE) = K.
Proof.
  pose proof ONE_pos as HW.
  destruct (Z.le_gt_cases 0 K) as [P | Ng].
  - rewrite round_ival_nonneg by nia.
    rewrite rhe_exact; [ apply Z.div_mul; lia | lia | apply Z.mod_mul; lia ].
  - rewrite round_ival_neg by nia.
    replace (- (K * ONE)) with ((- K) * ONE) by ring.
    rewrite rhe_exact; [ rewrite Z.div_mul by lia; lia | lia | apply Z.mod_mul; lia ].
Qed.

(** The rounded integer is within one half of the value. *)
Lemma rhe_err N D : 0 < D -> 2 * Z.abs (rhe N D * D - N) <= D.
Proof.
  intros HD. pose proof (Z.mod_pos_bound N D HD) as Hr.
  pose proof (Z.div_mod N D ltac:(lia)) as E.
  unfold rhe.
  destruct (Z.compare_spec (2 * (N mod D)) D); [ destruct (Z.even (N / D)) | | ]; nia.
Qed.

Lemma round_ival_err v : 2 * Z.abs (round_ival v * ONE - v) <= ONE.
Proof.
  pose proof ONE_pos as HW.
  destruct (Z.le_gt_cases 0 v) as [P | Ng].
  - rewrite round_ival_nonneg by lia. apply rhe_err; lia.
  - rewrite round_ival_neg by lia.
    pose proof (rhe_err (- v) ONE HW). lia.
Qed.

(** * The health formula *)

(** ** The health formula on values *)

Lemma sum_acc l a : fold_left Z.add l a = a + Py.sum l.
Proof.
  unfold Py.sum. revert a. induction l as [ | x l IH ]; intros a; simpl.
  - lia.
  - rewrite IH. rewrite (IH x). lia.
Qed.

Lemma sum_cons x l : Py.sum (x :: l) = x + Py.sum l.
Proof. unfold Py.sum at 1. simpl. apply sum_acc. Qed.

Lemma sum_app l1 l2 : Py.sum (l1 ++ l2) = Py.sum l1 + Py.sum l2.
Proof.
  induction l1 as [ | x l1 IH ]; simpl.
  - reflexivity.
  - rewrite !sum_cons, IH. lia.
Qed.

(** The value of [fraction], of [fraction * 100.0] and of [health_f]. *)
Definition fraction_val (s M : Z) : Z := rnd (s * ONE) M.
Definition percent_val (s M : Z) : Z := rnd (fraction_val s M * (100 * ONE)) ONE.
Definition health_f_val (s M : Z) : Z := rnd (100 * ONE - percent_val s M) 1.

Definition health_val (s M : Z) : Z :=
  round_ival (Z.max 0 (Z.min (100 * ONE) (health_f_val s M))).

Lemma health_vals_bounds s M :
  0 < M -> Z.abs s <= 2 ^ 64 * M ->
  Z.abs (fraction_val s M) <= 2 ^ 64 * ONE
  /\ Z.abs (percent_val s M) <= 2 ^ 71 * ONE
  /\ Z.abs (health_f_val s M) <= 2 ^ 72 * ONE.
Proof.
  intros HM Hs. pose proof ONE_pos as HW.
  assert (B1 : Z.abs (fraction_val s M) <= 2 ^ 64 * ONE).
  { unfold fraction_val. apply rnd_abs_le_pow; [ lia | lia | ].
    rewrite Z.abs_mul, (Z.abs_eq ONE) by lia. nia. }
  assert (B2 : Z.abs (percent_val s M) <= 2 ^ 71 * ONE).
  { unfold percent_val. apply rnd_abs_le_pow; [ lia | lia | ].
    rewrite Z.abs_mul, (Z.abs_eq (100 * ONE)) by lia.
    change (2 ^ 71) with (2 ^ 64 * 128). nia. }
  repeat split; try assumption.
  unfold health_f_val. apply rnd_abs_le_pow; [ lia | lia | ].
  change (2 ^ 72) with (2 ^ 71 * 2). change (2 ^ 71) with (2 ^ 64 * 128) in *. lia.
Qed.

Lemma health_float_fval rows :
  let n := Z.of_nat (List.length rows) in
  let s := Py.sum rows in
  0 < n -> Z.abs s <= 2 ^ 64 * (n * 100) ->
  exists hf, health_float rows = Some hf /\ ffin hf = true
             /\ fval hf = health_f_val s (n * 100).
Proof.
  intros n s Hn Hs.
  destruct (health_vals_bounds s (n * 100) ltac:(lia) Hs) as (B1 & B2 & B3).
  destruct fval_consts as (_ & _ & _ & F100 & V100).
  unfold health_float. fold n. fold s.
  destruct (int_truediv_fval s (n * 100) ltac:(lia)) as (fr & E & Ffr & Vfr).
  { apply (fits_le _ 64); [ lia | exact B1 ]. }
  rewrite E.
  destruct (mul_fval fr 100.0%float Ffr F100) as (Fp & Vp).
  { rewrite Vfr, V100. apply (fits_le _ 71); [ lia | exact B2 ]. }
  destruct (sub_fval 100.0%float (fr * 100.0)%float F100 Fp) as (Fh & Vh).
  { rewrite Vp, Vfr, V100. apply (fits_le _ 72); [ lia | exact B3 ]. }
  eexists. split; [ reflexivity | ]. split; [ exact Fh | ].
  rewrite Vh, Vp, Vfr, V100. reflexivity.
Qed.

Lemma clamp_health_fval hf :
  ffin hf = true ->
  ffin (clamp_health hf) = true
  /\ fval (clamp_health hf) = Z.max 0 (Z.min (100 * ONE) (fval hf)).
Proof.
  intros F. destruct fval_consts as ((F0 & V0) & _ & _ & F100 & V100).
  unfold clamp_health.
  destruct (min_fval 100.0%float hf F100 F) as (Fm & Vm).
  destruct (max_fval 0.0%float _ F0 Fm) as (Fx & Vx).
  split; [ exact Fx | ]. rewrite Vx, Vm, V0, V100. reflexivity.
Qed.

Lemma health_of_rows_val rows :
  let n := Z.of_nat (List.length rows) in
  let s := Py.sum rows in
  rows <> [] -> Z.abs s <= 2 ^ 64 * (n * 100) ->
  health_of_rows rows = Some (health_val s (n * 100)).
Proof.
  intros n s Hne Hs.
  assert (Hn : 0 < n).
  { unfold n. destruct rows; [ contradiction | simpl List.length; lia ]. }
  destruct (health_float_fval rows Hn Hs) as (hf & E & F & V).
  fold n s in E, V.
  unfold health_of_rows. destruct rows as [ | x rows' ]; [ contradiction | ].
  fold n. replace (n * 100 =? 0) with false by (symmetry; apply Z.eqb_neq; lia).
  rewrite E.
  destruct (clamp_health_fval hf F) as (Fc & Vc).
  rewrite (round_fval _ Fc), Vc, V. reflexivity.
Qed.

(** Monotonicity in the sum. *)
Lemma health_val_antitone s s' M :
  0 < M -> s <= s' -> health_val s' M <= health_val s M.
Proof.
  intros HM H. pose proof ONE_pos as HW.
  unfold health_val. apply round_ival_mono.
  assert (H1 : fraction_val s M <= fraction_val s' M).
  { unfold fraction_val. apply rnd_mono; [ lia | lia | ].
    apply Z.mul_le_mono_nonneg_r; [ lia | ].
    apply Z.mul_le_mono_nonneg_r; lia. }
  assert (H2 : percent_val s M <= percent_val s' M).
  { unfold percent_val. apply rnd_mono; [ lia | lia | ].
    apply Z.mul_le_mono_nonneg_r; [ lia | ].
    apply Z.mul_le_mono_nonneg_r; lia. }
  assert (H3 : health_f_val s' M <= health_f_val s M).
  { unfold health_f_val. apply rnd_mono; lia. }
  lia.
Qed.

(** The health depends on the sum and the count through their ratio. *)
Lemma health_val_scale k s M :
  0 < k -> 0 < M -> health_val (k * s) (k * M) = health_val s M.
Proof.
  intros Hk HM. unfold health_val, health_f_val, percent_val, fraction_val.
  replace (k * s * ONE) with (k * (s * ONE)) by ring.
  rewrite rnd_scale by lia. reflexivity.
Qed.

(** In range: the intermediate value lies between 0 and 100. *)
Lemma health_f_val_range s M :
  0 < M -> 0 <= s <= M -> 0 <= health_f_val s M <= 100 * ONE.
Proof.
  intros HM Hs. pose proof ONE_pos as HW.
  assert (H1 : 0 * ONE <= fraction_val s M <= 1 * ONE).
  { unfold fraction_val. split; [ apply rnd_ge_ONE | apply rnd_le_ONE ]; try lia; nia. }
  assert (H2 : 0 * ONE <= percent_val s M <= 100 * ONE).
  { unfold percent_val. split; [ apply rnd_ge_ONE | apply rnd_le_ONE ]; try lia; nia. }
  unfold health_f_val.
  split.
  - replace 0 with (0 * ONE) by lia. apply rnd_ge_ONE; lia.
  - apply rnd_le_ONE; lia.
Qed.

(** ** Sign of a zero difference *)

Lemma rnd_pos_ge_1 A : 1 <= A -> 1 <= rnd_pos A 1.
Proof.
  intros H. pose proof (rnd_pos_exact 1 0 1 ltac:(lia) ltac:(simpl; lia) ltac:(lia)) as E.
  simpl in E. rewrite <- E at 1. apply rnd_pos_mono; lia.
Qed.

Lemma SFsub_zero_sign mx ex y s :
  valid_binary (S754_finite false mx ex) = true -> valid_binary y = true ->
  SFfin y = true ->
  SFsub prec emax (S754_finite false mx ex) y = S754_zero s -> s = false.
Proof.
  intros Vx Vy Fy E.
  destruct y as [ sy | sy | | sy my ey ]; cbn [SFfin] in Fy; try discriminate;
    cbn [SFsub] in E; try discriminate.
  cbn [valid_binary] in Vx, Vy.
  pose proof (bounded_facts mx ex Vx) as (Hex & _).
  pose proof (bounded_facts my ey Vy) as (Hey & _).
  set (ez := Z.min ex ey) in *.
  assert (Hez : -1074 <= ez) by (unfold ez; lia).
  set (z := cond_Zopp false (Zpos (fst (shl_align mx ex ez)))
            - cond_Zopp sy (Zpos (fst (shl_align my ey ez)))) in *.
  destruct z as [ | p | p ]; unfold binary_normalize in E.
  - congruence.
  - pose proof (binary_round_Rpos false p ez Hez) as H. rewrite E in H.
    cbn [SFres] in H. destruct H as [H _]. exact H.
  - pose proof (binary_round_Rpos true p ez Hez) as H. rewrite E in H.
    cbn [SFres] in H. destruct H as [_ H].
    assert (0 < 2 ^ (ez + 1074)) by (apply Z.pow_pos_nonneg; lia).
    pose proof (rnd_pos_ge_1 (Zpos p * 2 ^ (ez + 1074)) ltac:(nia)). lia.
Qed.

Lemma sub_zero_eq x y :
  ffin x = true -> ffin y = true -> 0 < fval x ->
  ffin (x - y) = true -> fval (x - y) = 0 -> (x - y)%float = 0.0%float.
Proof.
  unfold ffin, fval. intros Fx Fy Hx Fr Vr.
  apply Prim2SF_inj. rewrite sub_spec in *.
  pose proof (Prim2SF_valid x) as Vx. pose proof (Prim2SF_valid y) as Vy.
  destruct (Prim2SF x) as [ sx | sx | | sx mx ex ]; cbn [SFfin] in Fx; try discriminate.
  assert (sx = false).
  { cbn [SFival] in Hx. cbn [valid_binary] in Vx. pose proof (bounded_pos mx ex Vx).
    destruct sx; cbn [cond_Zopp] in Hx; [ lia | reflexivity ]. }
  subst sx. unfold SF64sub in *.
  destruct (SFsub prec emax (S754_finite false mx ex) (Prim2SF y))
    as [ s | s | | s m e ] eqn:E; cbn [SFfin] in Fr; try discriminate.
  - rewrite (SFsub_zero_sign mx ex (Prim2SF y) s Vx Vy Fy E). reflexivity.
  - exfalso.
    pose proof (SFsub_rounds _ _ Vx Vy eq_refl Fy) as [Vres _].
    rewrite E in Vres. cbn [valid_binary] in Vres.
    pose proof (bounded_pos m e Vres). cbn [SFival] in Vr.
    destruct s; cbn [cond_Zopp] in Vr; lia.
Qed.

(** ** Integer division is homogeneous *)

Lemma int_truediv_scale k a b :
  0 < k -> 0 < b -> Py.int_truediv (k * a) (k * b) = Py.int_truediv a b.
Proof.
  intros Hk Hb. unfold Py.int_truediv.
  replace (k * b =? 0) with false by (symmetry; apply Z.eqb_neq; nia).
  replace (b =? 0) with false by (symmetry; apply Z.eqb_neq; lia).
  assert (E : SF64div (Py.Z2SF (k * a)) (Py.Z2SF (k * b))
              = SF64div (Py.Z2SF a) (Py.Z2SF b)); [ | rewrite E; reflexivity ].
  unfold SF64div.
  assert (Hkb : 0 < k * b) by nia.
  destruct b as [ | pb | pb ]; try lia.
  destruct (k * Zpos pb) as [ | pkb | pkb ] eqn:Ekb; try lia.
  destruct a as [ | pa | pa ].
  - rewrite Z.mul_0_r. reflexivity.
  - assert (Hka : 0 < k * Zpos pa) by nia.
    destruct (k * Zpos pa) as [ | pka | pka ] eqn:Eka; try lia.
    cbn [Py.Z2SF SFdiv xorb].
    pose proof (SFdiv_core_Rpos false (Zpos pka) 0 (Zpos pkb) 0
                  ltac:(lia) ltac:(lia) ltac:(lia) ltac:(lia)) as H1.
    pose proof (SFdiv_core_Rpos false (Zpos pa) 0 (Zpos pb) 0
                  ltac:(lia) ltac:(lia) ltac:(lia) ltac:(lia)) as H2.
    destruct (SFdiv_core_binary prec emax (Zpos pka) 0 (Zpos pkb) 0) as [[q1 e1] l1].
    destruct (SFdiv_core_binary prec emax (Zpos pa) 0 (Zpos pb) 0) as [[q2 e2] l2].
    apply (SFres_unique false _ _ _ H1).
    rewrite <- Eka, <- Ekb.
    assert (P : 0 < 2 ^ (0 + 1074)) by (apply Z.pow_pos_nonneg; lia).
    replace (k * Zpos pa * 2 ^ (0 + 1074) * 2 ^ 1074)
      with (k * (Zpos pa * 2 ^ (0 + 1074) * 2 ^ 1074)) by ring.
    replace (k * Zpos pb * 2 ^ (0 + 1074))
      with (k * (Zpos pb * 2 ^ (0 + 1074))) by ring.
    rewrite rnd_pos_scale by lia. exact H2.
  - assert (Hka : k * Zneg pa < 0) by nia.
    destruct (k * Zneg pa) as [ | pka | pka ] eqn:Eka; try lia.
    cbn [Py.Z2SF SFdiv xorb].
    pose proof (SFdiv_core_Rpos true (Zpos pka) 0 (Zpos pkb) 0
                  ltac:(lia) ltac:(lia) ltac:(lia) ltac:(lia)) as H1.
    pose proof (SFdiv_core_Rpos true (Zpos pa) 0 (Zpos pb) 0
                  ltac:(lia) ltac:(lia) ltac:(lia) ltac:(lia)) as H2.
    destruct (SFdiv_core_binary prec emax (Zpos pka) 0 (Zpos pkb) 0) as [[q1 e1] l1].
    destruct (SFdiv_core_binary prec emax (Zpos pa) 0 (Zpos pb) 0) as [[q2 e2] l2].
    apply (SFres_unique true _ _ _ H1).
    assert (Epk : Zpos pka = k * Zpos pa) by lia.
    rewrite Epk, <- Ekb.
    assert (P : 0 < 2 ^ (0 + 1074)) by (apply Z.pow_pos_nonneg; lia).
    replace (k * Zpos pa * 2 ^ (0 + 1074) * 2 ^ 1074)
      with (k * (Zpos pa * 2 ^ (0 + 1074) * 2 ^ 1074)) by ring.
    replace (k * Zpos pb * 2 ^ (0 + 1074))
      with (k * (Zpos pb * 2 ^ (0 + 1074))) by ring.
    rewrite rnd_pos_scale by lia. exact H2.
Qed.

(** ** Sums and lengths *)

Lemma sum_bounds lo hi rows :
  Forall (fun c => lo <= c <= hi) rows ->
  lo * Z.of_nat (List.length rows) <= Py.sum rows <= hi * Z.of_nat (List.length rows).
Proof.
  induction 1 as [ | c rows Hc _ IH ].
  - unfold Py.sum. simpl. lia.
  - rewrite sum_cons. simpl List.length. rewrite Nat2Z.inj_succ. lia.
Qed.

Lemma sum_concat_repeat rows k :
  Py.sum (List.concat (repeat rows k)) = Z.of_nat k * Py.sum rows.
Proof.
  induction k as [ | k IH ].
  - reflexivity.
  - cbn [repeat List.concat]. rewrite sum_app, IH, Nat2Z.inj_succ. lia.
Qed.

Lemma length_concat_repeat (rows : list Z) k :
  List.length (List.concat (repeat rows k)) = (k * List.length rows)%nat.
Proof.
  induction k as [ | k IH ].
  - reflexivity.
  - cbn [repeat List.concat]. rewrite length_app, IH. simpl. reflexivity.
Qed.

(** ** Rounding errors *)

Lemma rnd_pos_err A B :
  0 < B -> 0 <= A -> 2 * Z.abs (rnd_pos A B * B - A) <= B * 2 ^ rnd_shift A B.
Proof.
  intros HB HA. unfold rnd_pos. set (n := rnd_shift A B).
  assert (Pn : 0 < 2 ^ n) by (apply Z.pow_pos_nonneg; [ lia | apply rnd_shift_nonneg ]).
  pose proof (rhe_err A (B * 2 ^ n) ltac:(nia)) as H.
  replace (rhe A (B * 2 ^ n) * 2 ^ n * B) with (rhe A (B * 2 ^ n) * (B * 2 ^ n)) by ring.
  exact H.
Qed.

Lemma rnd_shift_le A B k :
  0 < B -> 0 <= A -> 53 <= k -> A < 2 ^ k * B -> rnd_shift A B <= k - 53.
Proof.
  intros HB HA Hk H. unfold rnd_shift.
  assert (0 <= A / B) by (apply Z.div_pos; lia).
  assert (A / B < 2 ^ k) by (apply Z.div_lt_upper_bound; [ lia | nia ]).
  pose proof (dig_lt_pow (A / B) k ltac:(lia) ltac:(lia) ltac:(lia)). lia.
Qed.

Lemma rnd_err A B k :
  0 < B -> 0 <= A -> 53 <= k -> A < 2 ^ k * B ->
  2 * Z.abs (rnd A B * B - A) <= B * 2 ^ (k - 53).
Proof.
  intros HB HA Hk H. rewrite rnd_nonneg by lia.
  pose proof (rnd_pos_err A B HB HA) as E.
  pose proof (rnd_shift_le A B k HB HA Hk H) as L.
  pose proof (rnd_shift_nonneg A B) as L0.
  assert (2 ^ rnd_shift A B <= 2 ^ (k - 53)) by (apply Z.pow_le_mono_r; lia).
  nia.
Qed.

(** ** The computed health is a nearest integer of the exact formula *)

Lemma ONE_split : ONE = 2 ^ 53 * 2 ^ 1021.
Proof. unfold ONE. rewrite <- Z.pow_add_r by lia. reflexivity. Qed.

Lemma health_val_nearest s n :
  0 < n < 2 ^ 44 -> 0 <= s <= 100 * n ->
  2 * Z.abs (health_val s (100 * n) * n - (100 * n - s)) <= n.
Proof.
  intros Hn Hs. pose proof ONE_pos as HW.
  set (M := 100 * n) in *. assert (HM : 0 < M) by (unfold M; lia).
  pose proof (health_f_val_range s M HM Hs) as R3.
  assert (R1 : 0 * ONE <= fraction_val s M <= 1 * ONE).
  { unfold fraction_val. split; [ apply rnd_ge_ONE | apply rnd_le_ONE ]; try lia; nia. }
  assert (R2 : 0 * ONE <= percent_val s M <= 100 * ONE).
  { unfold percent_val. split; [ apply rnd_ge_ONE | apply rnd_le_ONE ]; try lia; nia. }
  (* the three rounding errors *)
  assert (E1 : 2 * Z.abs (fraction_val s M * M - s * ONE) <= M * 2 ^ 1022).
  { unfold fraction_val.
    apply (rnd_err (s * ONE) M 1075); [ lia | nia | lia | ].
    change (2 ^ 1075) with (2 * 2 ^ 1074). fold ONE. nia. }
  assert (E2 : 2 * Z.abs (percent_val s M * ONE - fraction_val s M * (100 * ONE))
               <= ONE * 2 ^ 1028).
  { unfold percent_val.
    apply (rnd_err (fraction_val s M * (100 * ONE)) ONE 1081); [ lia | nia | lia | ].
    change (2 ^ 1081) with (128 * 2 ^ 1074). fold ONE. nia. }
  assert (E3 : 2 * Z.abs (health_f_val s M * 1 - (100 * ONE - percent_val s M))
               <= 1 * 2 ^ 1028).
  { unfold health_f_val.
    apply (rnd_err (100 * ONE - percent_val s M) 1 1081); [ lia | lia | lia | ].
    change (2 ^ 1081) with (128 * 2 ^ 1074). fold ONE. lia. }
  change (2 ^ (1075 - 53)) with (2 ^ 1022) in E1.
  pose proof (round_ival_err (health_f_val s M)) as E4.
  unfold health_val.
  replace (Z.max 0 (Z.min (100 * ONE) (health_f_val s M))) with (health_f_val s M) by lia.
  set (r := round_ival (health_f_val s M)) in *.
  set (v1 := fraction_val s M) in *. set (v2 := percent_val s M) in *.
  set (v3 := health_f_val s M) in *.
  rewrite ONE_split in *.
  set (u := 2 ^ 1021) in *.
  change (2 ^ 1022) with (2 * u) in E1. change (2 ^ 1028) with (128 * u) in E2, E3.
  assert (Hu : 0 < u) by (unfold u; apply Z.pow_pos_nonneg; lia).
  clearbody u r v1 v2 v3. clear R1 R2 R3 HW.
  change (2 ^ 53) with 9007199254740992 in *.
  change (2 ^ 44) with 17592186044416 in *.
  unfold M in *. clear HM M.
  assert (Amul : forall x b k, 0 <= k -> Z.abs x <= b -> Z.abs (x * k) <= b * k).
  { intros x b k Hk Hx. rewrite Z.abs_mul, (Z.abs_eq k) by lia.
    apply Z.mul_le_mono_nonneg_r; lia. }
  assert (Adiv : forall x b k, 0 < k -> Z.abs (x * k) <= b * k -> Z.abs x <= b).
  { intros x b k Hk Hx. rewrite Z.abs_mul, (Z.abs_eq k) in Hx by lia.
    apply Z.mul_le_mono_pos_r in Hx; lia. }
  set (K := 9007199254740992) in *.
  assert (HK : K = 9007199254740992) by reflexivity. clearbody K.
  assert (D2 : Z.abs (v2 - 100 * v1) <= 64 * u).
  { apply (Adiv _ _ (K * u)); [ apply Z.mul_pos_pos; lia | ].
    replace ((v2 - 100 * v1) * (K * u)) with (v2 * (K * u) - v1 * (100 * (K * u))) by ring.
    replace (64 * u * (K * u)) with (K * u * (64 * u)) by ring. lia. }
  assert (D3 : Z.abs (v3 - (100 * (K * u) - v2)) <= 64 * u) by lia.
  assert (D1 : Z.abs (v1 * (100 * n) - s * (K * u)) <= 100 * n * u) by lia.
  pose proof (Amul _ _ n ltac:(lia) D2) as D2n.
  pose proof (Amul _ _ n ltac:(lia) D3) as D3n.
  assert (D : Z.abs (v3 * n - K * u * (100 * n - s)) <= 228 * u * n).
  { replace (v3 * n - K * u * (100 * n - s))
      with ((v3 - (100 * (K * u) - v2)) * n - (v2 - 100 * v1) * n
            - (v1 * (100 * n) - s * (K * u))) by ring.
    replace (228 * u * n) with (64 * u * n + 64 * u * n + 100 * n * u) by ring.
    lia. }
  assert (E4n : Z.abs ((r * (K * u) - v3) * n) * 2 <= K * u * n).
  { rewrite Z.abs_mul, (Z.abs_eq n) by lia.
    replace (Z.abs (r * (K * u) - v3) * n * 2)
      with (2 * Z.abs (r * (K * u) - v3) * n) by ring.
    apply Z.mul_le_mono_nonneg_r; lia. }
  assert (T : Z.abs ((r * n - (100 * n - s)) * (K * u)) * 2
              <= K * u * n + 456 * u * n).
  { replace ((r * n - (100 * n - s)) * (K * u))
      with ((r * (K * u) - v3) * n + (v3 * n - K * u * (100 * n - s))) by ring.
    replace (456 * u * n) with (2 * (228 * u * n)) by ring. lia. }
  assert (T' : Z.abs (r * n - (100 * n - s)) * (2 * K) <= K * n + 456 * n).
  { rewrite Z.abs_mul, (Z.abs_eq (K * u)) in T by (apply Z.mul_nonneg_nonneg; lia).
    apply (Z.mul_le_mono_pos_r _ _ u Hu).
    replace (Z.abs (r * n - (100 * n - s)) * (2 * K) * u)
      with (Z.abs (r * n - (100 * n - s)) * (K * u) * 2) by ring.
    replace ((K * n + 456 * n) * u) with (K * u * n + 456 * u * n) by ring.
    exact T. }
  subst K. lia.
Qed.

(** ** The formulas of the specification, in exact rational arithmetic *)

(** [clamp(x, lo, hi)] *)
Definition clampQ (x lo hi : Q) : Q :=
  if Qlt_le_dec x lo then lo else if Qlt_le_dec hi x then hi else x.

(** [r] is an integer nearest to [x] (at a tie, either neighbour). *)
Definition nearest_integer (x : Q) (r : Z) : Prop :=
  (Qabs (inject_Z r - x) <= 1 # 2)%Q.

Definition clampZ (x lo hi : Z) : Z := Z.max lo (Z.min hi x).

Lemma Qmake_inject a b : 0 < b -> (inject_Z a / inject_Z b == a # Z.to_pos b)%Q.
Proof.
  intros Hb. destruct b as [ | p | p ]; try lia. simpl Z.to_pos.
  symmetry. apply Qmake_Qdiv.
Qed.

Lemma nearest_integer_frac a b r :
  0 < b -> 2 * Z.abs (r * b - a) <= b -> nearest_integer (a # Z.to_pos b) r.
Proof.
  intros Hb H. unfold nearest_integer.
  destruct b as [ | p | p ]; try lia. simpl Z.to_pos.
  apply Qabs_Qle_condition. unfold Qle, Qminus, Qplus, Qopp, inject_Z; simpl.
  split; lia.
Qed.

Lemma nearest_integer_int k r : r = k -> nearest_integer (inject_Z k) r.
Proof.
  intros ->. unfold nearest_integer. apply Qabs_Qle_condition.
  unfold Qle, Qminus, Qplus, Qopp, inject_Z; simpl. split; lia.
Qed.

(** A nearest integer of a clamped fraction, from integer bounds. *)
Lemma nearest_clamp_frac (x : Q) a b lo hi r :
  0 < b -> lo <= hi -> (x == a # Z.to_pos b)%Q ->
  2 * Z.abs (r * b - clampZ a (lo * b) (hi * b)) <= b ->
  nearest_integer (clampQ x (inject_Z lo) (inject_Z hi)) r.
Proof.
  intros Hb Hlh Hx H. unfold clampQ, clampZ in *.
  destruct (Qlt_le_dec x (inject_Z lo)) as [L | L].
  - rewrite Hx in L. destruct b as [ | p | p ]; try lia. simpl Z.to_pos in *.
    unfold Qlt, inject_Z in L; simpl in L.
    apply nearest_integer_int.
    replace (Z.max (lo * Zpos p) (Z.min (hi * Zpos p) a)) with (lo * Zpos p) in H by nia.
    nia.
  - destruct (Qlt_le_dec (inject_Z hi) x) as [U | U].
    + rewrite Hx in U. destruct b as [ | p | p ]; try lia. simpl Z.to_pos in *.
      unfold Qlt, inject_Z in U; simpl in U.
      apply nearest_integer_int.
      replace (Z.max (lo * Zpos p) (Z.min (hi * Zpos p) a)) with (hi * Zpos p) in H by nia.
      nia.
    + unfold nearest_integer. rewrite Hx.
      rewrite Hx in L, U. destruct b as [ | p | p ]; try lia. simpl Z.to_pos in *.
      unfold Qle, inject_Z in L, U; simpl in L, U.
      replace (Z.max (lo * Zpos p) (Z.min (hi * Zpos p) a)) with a in H by lia.
      apply Qabs_Qle_condition.
      unfold Qle, Qminus, Qplus, Qopp, inject_Z; simpl. split; lia.
Qed.

(** * Properties *)

(** ** Urgency label *)

(** C7: the label derived from a criticality score is "critique" exactly
    when the score is at least 80, "moyenne" exactly when it is at least 50
    and below 80, and "faible" exactly when it is below 50. *)
Theorem urgence_thresholds :
  forall score : Z,
    (urgence score = "critique"%string <-> 80 <= score) /\
    (urgence score = "moyenne"%string <-> 50 <= score < 80) /\
    (urgence score = "faible"%string <-> score < 50).
Proof.
  intro score. unfold urgence.
  destruct (Z.leb_spec 80 score) as [H80 | H80];
    [ | destruct (Z.leb_spec 50 score) as [H50 | H50] ];
    (repeat split; intros; try lia; try discriminate; try reflexivity).
Qed.

(** ** Status independence of the health *)

(** Two anomaly rows that agree on every column but [statut]. *)
Definition same_but_statut (a b : anomaly_row) : Prop :=
  set_statut (statut b) a = b.

Lemma same_but_statut_in_window :
  forall tr since a b,
    same_but_statut a b -> in_window tr since b = in_window tr since a.
Proof.
  intros tr since a b H. unfold same_but_statut in H. rewrite <- H. reflexivity.
Qed.

Lemma same_but_statut_rows :
  forall clock d1 d2 tr w,
    Forall2 same_but_statut (anomalies d1) (anomalies d2) ->
    health_rows clock d2 tr w = health_rows clock d1 tr w.
Proof.
  intros clock d1 d2 tr w H. unfold health_rows.
  induction H as [ | a b l1 l2 Hab _ IH ]; [ reflexivity | ].
  simpl. rewrite (same_but_statut_in_window _ _ _ _ Hab).
  destruct (in_window tr (clock w) a); simpl; rewrite IH; [ | reflexivity ].
  unfold same_but_statut in Hab. rewrite <- Hab. reflexivity.
Qed.

Lemma update_statut_same_but_statut :
  forall d sel st,
    Forall2 same_but_statut (anomalies d) (anomalies (update_statut d sel st)).
Proof.
  intros d sel st. simpl. induction (anomalies d) as [ | a l IH ]; simpl.
  - constructor.
  - constructor; [ | exact IH ].
    unfold same_but_statut. destruct (id a =? sel); [ reflexivity | ].
    destruct a; reflexivity.
Qed.

Lemma find_update_statut :
  forall l sel st a,
    find (fun x => id x =? sel) l = Some a ->
    find (fun x => id x =? sel)
         (map (fun x => if id x =? sel then set_statut st x else x) l)
    = Some (set_statut st a).
Proof.
  induction l as [ | x l IH ]; intros sel st a H; simpl in *; [ discriminate | ].
  destruct (id x =? sel) eqn:E; simpl.
  - rewrite E. congruence.
  - rewrite E. apply IH. exact H.
Qed.

(** C8: the health computed by [recalc_train_health] does not read the
    [statut] column: on two databases whose anomaly rows differ only in
    [statut] it returns the same value for every train and window, and the
    recomputation run by the "Marquer comme resolu" button returns the
    health that the same train had before the status was changed. *)
Theorem health_ignores_statut :
  forall clock d1 d2 tr w,
    Forall2 same_but_statut (anomalies d1) (anomalies d2) ->
    option_map fst (recalc_train_health clock d2 tr w)
    = option_map fst (recalc_train_health clock d1 tr w)
    /\ forall sel a,
         d2 = update_statut d1 sel "résolu" ->
         find (fun x => id x =? sel) (anomalies d1) = Some a ->
         option_map fst (marquer_resolu clock d1 sel)
         = option_map fst (recalc_train_health clock d1 (id_train a) 90).
Proof.
  intros clock d1 d2 tr w H.
  assert (Hall : forall tr' w',
             option_map fst (recalc_train_health clock d2 tr' w')
             = option_map fst (recalc_train_health clock d1 tr' w')).
  { intros tr' w'. unfold recalc_train_health.
    rewrite (same_but_statut_rows clock d1 d2 tr' w' H).
    destruct (health_of_rows (health_rows clock d1 tr' w')); reflexivity. }
  split; [ apply Hall | ].
  intros sel a Hd2 Hfind. unfold marquer_resolu. rewrite <- Hd2.
  assert (Hf : find (fun x => id x =? sel) (anomalies d2) = Some (set_statut "résolu" a)).
  { subst d2. simpl. apply find_update_statut. exact Hfind. }
  rewrite Hf. apply Hall.
Qed.

Lemma health_ignores_statut_witness :
  Forall2 same_but_statut (anomalies demo_db)
          (anomalies (update_statut demo_db 1 "résolu"))
  /\ option_map fst (marquer_resolu demo_clock demo_db 1) = Some 40
  /\ option_map fst (recalc_train_health demo_clock demo_db "Z2M-01" 90) = Some 40.
Proof.
  pose proof (health_ignores_statut demo_clock demo_db
                (update_statut demo_db 1 "résolu") "Z2M-01" 90
                (update_statut_same_but_statut demo_db 1 "résolu")) as [_ H].
  split; [ apply update_statut_same_but_statut | ].
  split; [ | vm_compute; reflexivity ].
  rewrite (H 1 (demo_anomaly 1 "Z2M-01" "2025-04-02T10:00:00" "frein" "Urgent" 80 "à traiter")
             eq_refl eq_refl).
  vm_compute; reflexivity.
Defined.

(** ** Frame of the health update *)

(** Two train rows that agree on every column but [etat_sante]. *)
Definition same_but_etat_sante (t t' : train_row) : Prop :=
  t_id_train t' = t_id_train t /\ modele t' = modele t /\
  date_mise_en_service t' = date_mise_en_service t /\
  km_total t' = km_total t /\ derniere_visite t' = derniere_visite t.

(** C10: [recalc_train_health] leaves the users, components, parts,
    anomalies and conformities tables as they were; in the trains table it
    keeps the rows in place, leaves every row of another train untouched,
    and changes at most the [etat_sante] column of the rows of
    [train_id], which receives the returned health. *)
Theorem recalc_train_health_frame :
  forall clock d tr w h d',
    recalc_train_health clock d tr w = Some (h, d') ->
    users d' = users d /\ components d' = components d /\
    parts d' = parts d /\ anomalies d' = anomalies d /\
    conformities d' = conformities d /\
    Forall2 (fun t t' =>
               same_but_etat_sante t t' /\
               (t_id_train t <> tr -> t' = t) /\
               (t_id_train t = tr -> etat_sante t' = h))
            (trains d) (trains d').
Proof.
  intros clock d tr w h d' H. unfold recalc_train_health in H.
  destruct (health_of_rows (health_rows clock d tr w)) as [ h0 | ]; [ | discriminate ].
  injection H as Hh Hd. subst h0 d'. simpl.
  repeat (split; [ reflexivity | ]).
  induction (trains d) as [ | t l IH ]; simpl; constructor; [ | exact IH ].
  destruct (String.eqb_spec (t_id_train t) tr) as [ E | E ].
  - repeat split; try reflexivity. intros N. contradiction.
  - repeat split; try reflexivity. intros N. contradiction.
Qed.

Lemma recalc_train_health_frame_witness :
  recalc_train_health demo_clock demo_db "Z2M-01" 90
  = Some (40, update_etat_sante demo_db "Z2M-01" 40)
  /\ anomalies (update_etat_sante demo_db "Z2M-01" 40) = anomalies demo_db
  /\ Forall2 (fun t t' =>
               same_but_etat_sante t t' /\
               (t_id_train t <> "Z2M-01"%string -> t' = t) /\
               (t_id_train t = "Z2M-01"%string -> etat_sante t' = 40))
            (trains demo_db) (trains (update_etat_sante demo_db "Z2M-01" 40)).
Proof.
  assert (E : recalc_train_health demo_clock demo_db "Z2M-01" 90
              = Some (40, update_etat_sante demo_db "Z2M-01" 40))
    by (vm_compute; reflexivity).
  split; [ exact E | ].
  destruct (recalc_train_health_frame demo_clock demo_db "Z2M-01" 90 40 _ E)
    as (_ & _ & _ & Ha & _ & Ht).
  split; [ exact Ha | exact Ht ].
Defined.

(** An SQLite INTEGER is a 64-bit signed integer. *)
Definition sqlite_int (z : Z) : Prop := - 2 ^ 63 <= z < 2 ^ 63.

Lemma sqlite_rows_sum rows :
  Forall sqlite_int rows ->
  Z.abs (Py.sum rows) <= 2 ^ 64 * (Z.of_nat (List.length rows) * 100).
Proof.
  intros H.
  assert (H' : Forall (fun c => - 2 ^ 63 <= c <= 2 ^ 63) rows).
  { eapply Forall_impl; [ | exact H ]. unfold sqlite_int. intros; lia. }
  pose proof (sum_bounds _ _ _ H') as B.
  change (2 ^ 64) with (2 * 2 ^ 63). set (K := 2 ^ 63) in *.
  assert (0 < K) by reflexivity. clearbody K.
  pose proof (Nat2Z.is_nonneg (List.length rows)).
  set (n := Z.of_nat (List.length rows)) in *. clearbody n.
  assert (K * n <= 2 * K * (n * 100)) by nia. lia.
Qed.

Lemma rows_length_pos (rows : list Z) : rows <> [] -> 0 < Z.of_nat (List.length rows).
Proof. destruct rows; [ contradiction | simpl List.length; lia ]. Qed.

(** ** C9: the clamp and the zero guard *)

Lemma health_float_parts rows :
  let n := Z.of_nat (List.length rows) in
  let s := Py.sum rows in
  0 < n -> Z.abs s <= 2 ^ 64 * (n * 100) ->
  exists fr, Py.int_truediv s (n * 100) = Some fr
             /\ ffin (fr * 100.0)%float = true
             /\ ffin (100.0 - fr * 100.0)%float = true
             /\ fval (100.0 - fr * 100.0)%float = health_f_val s (n * 100).
Proof.
  intros n s Hn Hs.
  destruct (health_vals_bounds s (n * 100) ltac:(lia) Hs) as (B1 & B2 & B3).
  destruct fval_consts as (_ & _ & _ & F100 & V100).
  destruct (int_truediv_fval s (n * 100) ltac:(lia)) as (fr & E & Ffr & Vfr).
  { apply (fits_le _ 64); [ lia | exact B1 ]. }
  destruct (mul_fval fr 100.0%float Ffr F100) as (Fp & Vp).
  { rewrite Vfr, V100. apply (fits_le _ 71); [ lia | exact B2 ]. }
  destruct (sub_fval 100.0%float (fr * 100.0)%float F100 Fp) as (Fh & Vh).
  { rewrite Vp, Vfr, V100. apply (fits_le _ 72); [ lia | exact B3 ]. }
  exists fr. repeat split; try assumption.
  rewrite Vh, Vp, Vfr, V100. reflexivity.
Qed.

(** C9: when every fetched [criticite_calc] lies in [0,100], the value
    [health_f] already lies between 0.0 and 100.0, so clamping returns it
    unchanged; and on a non-empty set of rows [max_possible] is not 0, so
    the guard [max_possible == 0] is never taken. *)
Theorem clamp_health_identity :
  forall rows : list Z,
    rows <> [] -> Forall (fun c => 0 <= c <= 100) rows ->
    (Z.of_nat (List.length rows) * 100 =? 0) = false
    /\ exists health_f,
         health_float rows = Some health_f
         /\ (health_f <? 0.0)%float = false
         /\ (100.0 <? health_f)%float = false
         /\ clamp_health health_f = health_f.
Proof.
  intros rows Hne Hall.
  pose proof (rows_length_pos rows Hne) as Hn.
  split; [ apply Z.eqb_neq; lia | ].
  pose proof (sum_bounds 0 100 rows Hall) as Hs.
  set (n := Z.of_nat (List.length rows)) in *. set (s := Py.sum rows) in *.
  assert (Hs64 : Z.abs s <= 2 ^ 64 * (n * 100)).
  { change (2 ^ 64) with 18446744073709551616. lia. }
  destruct (health_float_parts rows Hn Hs64) as (fr & E & Fp & Fh & Vh).
  fold n s in E, Vh.
  pose proof (health_f_val_range s (n * 100) ltac:(lia) ltac:(lia)) as Rg.
  destruct fval_consts as ((F0 & V0) & _ & _ & F100 & V100).
  pose proof ONE_pos as HW.
  unfold health_float. fold n s. rewrite E.
  set (hf := (100.0 - fr * 100.0)%float) in *.
  exists hf. split; [ reflexivity | ].
  split; [ rewrite (ltb_fval _ _ Fh F0), V0; apply Z.ltb_ge; lia | ].
  split; [ rewrite (ltb_fval _ _ F100 Fh), V100; apply Z.ltb_ge; lia | ].
  unfold clamp_health, Py.min.
  rewrite (ltb_fval _ _ Fh F100), V100.
  destruct (Z.ltb_spec (fval hf) (100 * ONE)) as [Hlt | Hge].
  - unfold Py.max. rewrite (ltb_fval _ _ F0 Fh), V0.
    destruct (Z.ltb_spec 0 (fval hf)) as [Hpos | Hz]; [ reflexivity | ].
    symmetry. unfold hf.
    apply sub_zero_eq; try assumption; try (rewrite V100; lia). fold hf. lia.
  - assert (Ehf : hf = 100.0%float).
    { apply fval_inj; try assumption; rewrite ?V100; lia. }
    unfold Py.max. rewrite (ltb_fval _ _ F0 F100), V0, V100.
    destruct (Z.ltb_spec 0 (100 * ONE)); [ symmetry; exact Ehf | lia ].
Qed.

Lemma clamp_health_identity_witness :
  [80; 40] <> [] /\ Forall (fun c => 0 <= c <= 100) [80; 40]
  /\ exists health_f,
       health_float [80; 40] = Some health_f
       /\ clamp_health health_f = health_f.
Proof.
  assert (Hne : [80; 40] <> []) by discriminate.
  assert (Hall : Forall (fun c => 0 <= c <= 100) [80; 40])
    by (repeat constructor; lia).
  split; [ exact Hne | ]. split; [ exact Hall | ].
  destruct (clamp_health_identity [80; 40] Hne Hall) as (_ & hf & E & _ & _ & C).
  exists hf. split; assumption.
Defined.

(** ** C6: monotonicity *)

Definition set_criticite_calc (c : Z) (a : anomaly_row) : anomaly_row :=
  mk_anomaly (id a) (id_train a) (technicien a) (date_signalement a)
             (categorie a) (composant a) (description a) (photo a)
             (immobilisation a) (gravite a) c (urgence_col a) (statut a).

(** [a'] is [a] with a [criticite_calc] that is not smaller. *)
Definition raised (a a' : anomaly_row) : Prop :=
  criticite_calc a <= criticite_calc a'
  /\ a' = set_criticite_calc (criticite_calc a') a.

Lemma raised_rows clock d d' tr w :
  Forall2 raised (anomalies d) (anomalies d') ->
  Forall2 Z.le (health_rows clock d tr w) (health_rows clock d' tr w).
Proof.
  intros H. unfold health_rows.
  induction H as [ | a a' l l' [Hle Ha] _ IH ]; [ constructor | ].
  assert (Ew : in_window tr (clock w) a' = in_window tr (clock w) a)
    by (rewrite Ha; reflexivity).
  cbn [filter]. rewrite Ew.
  destruct (in_window tr (clock w) a); [ | exact IH ].
  cbn [map]. constructor; assumption.
Qed.

Lemma Forall2_le_sum l l' :
  Forall2 Z.le l l' ->
  List.length l = List.length l' /\ Py.sum l <= Py.sum l'.
Proof.
  induction 1 as [ | x y l l' Hxy _ [IHl IHs] ].
  - split; reflexivity.
  - rewrite !sum_cons. simpl List.length. split; lia.
Qed.

Lemma health_of_rows_monotone rows rows' :
  Forall2 Z.le rows rows' -> Forall sqlite_int rows -> Forall sqlite_int rows' ->
  exists h h', health_of_rows rows = Some h /\ health_of_rows rows' = Some h'
               /\ h' <= h.
Proof.
  intros H S S'. destruct (Forall2_le_sum _ _ H) as [El Es].
  destruct rows as [ | x rows0 ].
  - destruct rows' as [ | y rows0' ]; [ | discriminate ].
    exists 100, 100. repeat split; lia.
  - destruct rows' as [ | y rows0' ]; [ discriminate | ].
    set (rows := x :: rows0) in *. set (rows' := y :: rows0') in *.
    assert (Hne : rows <> []) by discriminate.
    assert (Hne' : rows' <> []) by discriminate.
    pose proof (health_of_rows_val rows Hne (sqlite_rows_sum rows S)) as E.
    pose proof (health_of_rows_val rows' Hne' (sqlite_rows_sum rows' S')) as E'.
    cbv zeta in E, E'.
    eexists; eexists. split; [ exact E | ]. split; [ exact E' | ].
    rewrite <- El. apply health_val_antitone; [ | exact Es ].
    pose proof (rows_length_pos rows Hne). lia.
Qed.

(** C6: raising the [criticite_calc] of anomalies, everything else being
    equal, never raises the health returned by [recalc_train_health]; in
    particular when a single anomaly is raised. *)
Theorem recalc_train_health_monotone :
  forall clock d d' tr w,
    Forall2 raised (anomalies d) (anomalies d') ->
    Forall (fun a => sqlite_int (criticite_calc a)) (anomalies d) ->
    Forall (fun a => sqlite_int (criticite_calc a)) (anomalies d') ->
    exists h h' d1 d1',
      recalc_train_health clock d tr w = Some (h, d1)
      /\ recalc_train_health clock d' tr w = Some (h', d1')
      /\ h' <= h.
Proof.
  intros clock d d' tr w Hr S S'.
  assert (Rows : forall x, Forall (fun a => sqlite_int (criticite_calc a)) (anomalies x) ->
                           Forall sqlite_int (health_rows clock x tr w)).
  { intros x Hx. unfold health_rows. apply Forall_map.
    apply Forall_forall. intros a Ha. apply filter_In in Ha. destruct Ha as [Ha _].
    rewrite Forall_forall in Hx. apply Hx. exact Ha. }
  destruct (health_of_rows_monotone _ _ (raised_rows clock d d' tr w Hr)
              (Rows d S) (Rows d' S')) as (h & h' & E & E' & Hle).
  exists h, h', (update_etat_sante d tr h), (update_etat_sante d' tr h').
  unfold recalc_train_health. rewrite E, E'. repeat split. exact Hle.
Qed.

Definition demo_db_raised : db :=
  mk_db (users demo_db) (trains demo_db) (components demo_db) (parts demo_db)
        (map (fun a => if id a =? 2 then set_criticite_calc 90 a else a)
             (anomalies demo_db))
        (conformities demo_db).

Lemma recalc_train_health_monotone_witness :
  Forall2 raised (anomalies demo_db) (anomalies demo_db_raised)
  /\ exists h h' d1 d1',
      recalc_train_health demo_clock demo_db "Z2M-01" 90 = Some (h, d1)
      /\ recalc_train_health demo_clock demo_db_raised "Z2M-01" 90 = Some (h', d1')
      /\ h' <= h.
Proof.
  assert (Hr : Forall2 raised (anomalies demo_db) (anomalies demo_db_raised)).
  { repeat constructor; cbn; lia. }
  split; [ exact Hr | ].
  apply (recalc_train_health_monotone demo_clock demo_db demo_db_raised "Z2M-01" 90 Hr).
  - repeat constructor; cbn; lia.
  - repeat constructor; cbn; lia.
Defined.

(** ** C5: the health depends on the average only *)

Lemma health_float_copies rows k :
  rows <> [] -> (1 <= k)%nat ->
  health_float (List.concat (repeat rows k)) = health_float rows.
Proof.
  intros Hne Hk. pose proof (rows_length_pos rows Hne) as Hn.
  unfold health_float.
  rewrite sum_concat_repeat, length_concat_repeat, Nat2Z.inj_mul.
  rewrite <- Z.mul_assoc.
  rewrite int_truediv_scale by lia. reflexivity.
Qed.

(** C5: on a non-empty set of rows, [k >= 1] copies of the set give the
    same health as the set itself; one anomaly of criticality 100 and ten
    anomalies of criticality 100 both give the health 0. *)
Theorem health_depends_on_average :
  forall (rows : list Z) (k : nat),
    rows <> [] -> (1 <= k)%nat ->
    health_of_rows (List.concat (repeat rows k)) = health_of_rows rows
    /\ health_of_rows [100] = Some 0
    /\ health_of_rows (repeat 100 10) = Some 0.
Proof.
  intros rows k Hne Hk.
  split; [ | split; vm_compute; reflexivity ].
  pose proof (rows_length_pos rows Hne) as Hn.
  assert (Hn' : 0 < Z.of_nat (List.length (List.concat (repeat rows k)))).
  { rewrite length_concat_repeat, Nat2Z.inj_mul. nia. }
  unfold health_of_rows.
  rewrite (health_float_copies rows k Hne Hk).
  destruct rows as [ | x rows0 ]; [ contradiction | ].
  destruct (List.concat (repeat (x :: rows0) k)) as [ | y l ] eqn:E;
    [ simpl in Hn'; lia | ].
  replace (Z.of_nat (List.length (y :: l)) * 100 =? 0) with false
    by (symmetry; apply Z.eqb_neq; lia).
  replace (Z.of_nat (List.length (x :: rows0)) * 100 =? 0) with false
    by (symmetry; apply Z.eqb_neq; lia).
  reflexivity.
Qed.

Lemma health_depends_on_average_witness :
  [80; 40] <> [] /\ (1 <= 3)%nat
  /\ health_of_rows [80; 40; 80; 40; 80; 40] = health_of_rows [80; 40].
Proof.
  assert (Hne : [80; 40] <> []) by discriminate.
  split; [ exact Hne | ]. split; [ repeat constructor | ].
  exact (proj1 (health_depends_on_average [80; 40] 3 Hne ltac:(repeat constructor))).
Defined.

(** ** C2: the health formula *)

(** The formula of the specification for a non-empty set of rows:
    [clamp(100 - (s / (n * 100)) * 100, 0, 100)] in exact arithmetic. *)
Definition spec_health (rows : list Z) : Q :=
  let n := inject_Z (Z.of_nat (List.length rows)) in
  let s := inject_Z (Py.sum rows) in
  clampQ (100 - (s / (n * 100)) * 100)%Q (inject_Z 0) (inject_Z 100).

Lemma spec_fraction s n :
  0 < n ->
  (100 - (inject_Z s / (inject_Z n * 100)) * 100 == (100 * n - s) # Z.to_pos n)%Q.
Proof.
  intros Hn. rewrite <- Qmake_inject by lia.
  unfold Zminus. rewrite inject_Z_plus, inject_Z_mult, inject_Z_opp.
  assert (~ (inject_Z n == 0)%Q).
  { intros E. unfold Qeq in E. simpl in E. lia. }
  change (inject_Z 100) with 100%Q. field. assumption.
Qed.

Lemma health_val_const_hi : health_val 0 1 = 100.
Proof. vm_compute. reflexivity. Qed.

Lemma health_val_const_lo : health_val 1 1 = 0.
Proof. vm_compute. reflexivity. Qed.

Lemma health_val_range s M : 0 <= health_val s M <= 100.
Proof.
  unfold health_val. pose proof ONE_pos.
  split.
  - apply Z.le_trans with (round_ival (0 * ONE));
      [ rewrite round_ival_int; lia | apply round_ival_mono; lia ].
  - apply Z.le_trans with (round_ival (100 * ONE));
      [ apply round_ival_mono; lia | rewrite round_ival_int; lia ].
Qed.

Lemma health_val_zero M : 0 < M -> health_val 0 M = 100.
Proof.
  intros HM. pose proof (health_val_scale M 0 1 HM ltac:(lia)) as H.
  rewrite Z.mul_0_r, Z.mul_1_r in H. rewrite H. exact health_val_const_hi.
Qed.

Lemma health_val_full M : 0 < M -> health_val M M = 0.
Proof.
  intros HM. pose proof (health_val_scale M 1 1 HM ltac:(lia)) as H.
  rewrite Z.mul_1_r in H. rewrite H. exact health_val_const_lo.
Qed.

Lemma health_val_spec s n :
  0 < n < 2 ^ 44 ->
  2 * Z.abs (health_val s (100 * n) * n - clampZ (100 * n - s) (0 * n) (100 * n)) <= n.
Proof.
  intros Hn. unfold clampZ.
  pose proof (health_val_range s (100 * n)) as Rg.
  destruct (Z.le_gt_cases s 0) as [Neg | Pos].
  - pose proof (health_val_antitone s 0 (100 * n) ltac:(lia) Neg) as A.
    rewrite health_val_zero in A by lia.
    assert (E : health_val s (100 * n) = 100) by lia. rewrite E. lia.
  - destruct (Z.le_gt_cases s (100 * n)) as [In | Out].
    + replace (Z.max (0 * n) (Z.min (100 * n) (100 * n - s))) with (100 * n - s) by lia.
      apply health_val_nearest; lia.
    + pose proof (health_val_antitone (100 * n) s (100 * n) ltac:(lia) ltac:(lia)) as A.
      rewrite health_val_full in A by lia.
      assert (E : health_val s (100 * n) = 0) by lia. rewrite E. lia.
Qed.

Lemma health_of_rows_spec rows :
  rows <> [] -> Forall sqlite_int rows -> Z.of_nat (List.length rows) < 2 ^ 44 ->
  exists h, health_of_rows rows = Some h /\ nearest_integer (spec_health rows) h.
Proof.
  intros Hne S Hlen. pose proof (rows_length_pos rows Hne) as Hn.
  pose proof (health_of_rows_val rows Hne (sqlite_rows_sum rows S)) as E.
  cbv zeta in E. eexists. split; [ exact E | ].
  unfold spec_health.
  set (n := Z.of_nat (List.length rows)) in *. set (s := Py.sum rows) in *.
  apply (nearest_clamp_frac _ (100 * n - s) n 0 100); [ lia | lia | | ].
  - apply spec_fraction. lia.
  - replace (n * 100) with (100 * n) by lia. apply health_val_spec. lia.
Qed.

(** ** The rows that the two formulas read, in the words of the claims *)

(** The anomaly [a] was reported at or after the instant whose ISO text
    is [since]. *)
Definition reported_since (since : string) (a : anomaly_row) : bool :=
  match String.compare (date_signalement a) since with
  | Lt => false
  | _ => true
  end.

(** The [criticite_calc] of the anomalies of the train reported within
    the trailing window that starts at [since], in table order. *)
Fixpoint spec_window_rows (table : list anomaly_row) (train_id since : string)
    : list Z :=
  match table with
  | [] => []
  | a :: rest =>
      if string_dec (id_train a) train_id
      then if reported_since since a
           then criticite_calc a :: spec_window_rows rest train_id since
           else spec_window_rows rest train_id since
      else spec_window_rows rest train_id since
  end.

(** The number of anomalies for the same train and component reported
    within the trailing days that start at [since]. *)
Fixpoint spec_occurrences (table : list anomaly_row)
    (train_id component_name since : string) : Z :=
  match table with
  | [] => 0
  | a :: rest =>
      (if string_dec (id_train a) train_id
       then if string_dec (composant a) component_name
            then if reported_since since a then 1 else 0
            else 0
       else 0)
      + spec_occurrences rest train_id component_name since
  end.

(** The catalog value for the component: that of the catalog row of this
    name, and the baseline 50 when the catalog has none. *)
Fixpoint spec_catalog_value (catalog : list component_row)
    (component_name : string) : Z :=
  match catalog with
  | [] => 50
  | c :: rest =>
      if string_dec (name c) component_name then criticite_max c
      else spec_catalog_value rest component_name
  end.

Lemma text_ge_reported_since since a :
  text_ge (date_signalement a) since = reported_since since a.
Proof.
  unfold text_ge, reported_since, String.leb.
  rewrite String.compare_antisym.
  destruct (String.compare (date_signalement a) since); reflexivity.
Qed.

Lemma eqb_string_dec {A} (x y : string) (u v : A) :
  (if String.eqb x y then u else v) = (if string_dec x y then u else v).
Proof.
  destruct (String.eqb_spec x y) as [ E | N ]; destruct (string_dec x y);
    try reflexivity; contradiction.
Qed.

Lemma health_rows_spec clock d tr w :
  health_rows clock d tr w = spec_window_rows (anomalies d) tr (clock w).
Proof.
  unfold health_rows. induction (anomalies d) as [ | a l IH ]; [ reflexivity | ].
  cbn [filter spec_window_rows]. unfold in_window at 1.
  rewrite text_ge_reported_since.
  destruct (String.eqb_spec (id_train a) tr) as [ E | N ];
    destruct (string_dec (id_train a) tr) as [ E' | N' ]; try contradiction.
  - cbn [andb]. destruct (reported_since (clock w) a).
    + cbn [map]. f_equal. exact IH.
    + exact IH.
  - cbn [andb]. exact IH.
Qed.

Lemma count_similar_recent_spec clock d tr comp days :
  count_similar_recent clock d tr comp days
  = spec_occurrences (anomalies d) tr comp (clock days).
Proof.
  unfold count_similar_recent. induction (anomalies d) as [ | a l IH ]; [ reflexivity | ].
  cbn [filter spec_occurrences]. unfold similar_recent at 1.
  rewrite text_ge_reported_since. rewrite <- IH.
  destruct (String.eqb_spec (id_train a) tr) as [ E | N ];
    destruct (string_dec (id_train a) tr) as [ E' | N' ]; try contradiction;
    destruct (String.eqb_spec (composant a) comp) as [ C | NC ];
    destruct (string_dec (composant a) comp) as [ C' | NC' ]; try contradiction;
    cbn [andb]; try lia.
  destruct (reported_since (clock days) a); cbn [List.length]; lia.
Qed.

Lemma get_component_criticite_spec d comp :
  get_component_criticite d comp = spec_catalog_value (components d) comp.
Proof.
  unfold get_component_criticite.
  induction (components d) as [ | c l IH ]; [ reflexivity | ].
  cbn [find spec_catalog_value].
  destruct (String.eqb_spec (name c) comp) as [ E | N ];
    destruct (string_dec (name c) comp) as [ E' | N' ]; try contradiction.
  - reflexivity.
  - exact IH.
Qed.


(** ** The call of the clock *)

Lemma days_ago_iso_returns utcnow days :
  window_start_ok utcnow days -> exists since, days_ago_iso utcnow days = Some since.
Proof.
  intros [ Hd Hn ]. unfold days_ago_iso, PyTime.sub_days.
  replace (999999999 <? Z.abs days) with false by (symmetry; apply Z.ltb_ge; lia).
  replace (0 <? PyTime.toordinal utcnow - days) with true
    by (symmetry; apply Z.ltb_lt; lia).
  replace (PyTime.toordinal utcnow - days <=? PyTime.MAXORDINAL) with true
    by (symmetry; apply Z.leb_le; unfold PyTime.MAXORDINAL; lia).
  cbn [andb]. destruct (PyTime.ord2ymd _) as [ [ y m ] dd ].
  eexists. reflexivity.
Qed.

Lemma days_ago_iso_raises utcnow days :
  ~ window_start_ok utcnow days -> days_ago_iso utcnow days = None.
Proof.
  intros N. unfold days_ago_iso, PyTime.sub_days.
  destruct (Z.ltb_spec 999999999 (Z.abs days)) as [ L | L ]; [ reflexivity | ].
  destruct (Z.ltb_spec 0 (PyTime.toordinal utcnow - days)) as [ P | P ];
    [ | reflexivity ].
  destruct (Z.leb_spec (PyTime.toordinal utcnow - days) PyTime.MAXORDINAL) as [ M | M ];
    [ | reflexivity ].
  exfalso. apply N. unfold window_start_ok. unfold PyTime.MAXORDINAL in M. lia.
Qed.

(** C2, amended: [recalc_train_health] returns only when the start of
    the window is a date that [datetime] can hold, and raises
    [OverflowError] otherwise.  When it returns, the result is 100 if no
    anomaly of the train was reported in the window, and otherwise an
    integer nearest to [clamp(100 - (s / (n * 100)) * 100, 0, 100)], [n]
    being the number of these anomalies and [s] the sum of their
    criticalities; the returned value is the one written in the
    [etat_sante] column of the train; two anomalies of criticality 80 and
    40 give 40.  The criticalities are SQLite integers and there are fewer
    than 2^44 rows in the window. *)
Theorem recalc_train_health_formula :
  forall utcnow d tr w,
    (window_start_ok utcnow w ->
     exists since,
       days_ago_iso utcnow w = Some since
       /\ let rows := spec_window_rows (anomalies d) tr since in
          Forall sqlite_int rows -> Z.of_nat (List.length rows) < 2 ^ 44 ->
          exists h,
            recalc_train_health_at utcnow d tr w
            = Some (h, update_etat_sante d tr h)
            /\ (rows = [] -> h = 100)
            /\ (rows <> [] -> nearest_integer (spec_health rows) h)
            /\ Forall (fun t => t_id_train t = tr -> etat_sante t = h)
                      (trains (update_etat_sante d tr h))
            /\ (rows = [80; 40] -> h = 40))
    /\ (~ window_start_ok utcnow w ->
        recalc_train_health_at utcnow d tr w = None).
Proof.
  intros utcnow d tr w. split.
  2:{ intros W. unfold recalc_train_health_at.
      rewrite (days_ago_iso_raises utcnow w W). reflexivity. }
  intros W. destruct (days_ago_iso_returns utcnow w W) as (since & Hclock).
  exists since. split; [ exact Hclock | ].
  intros rows S Hlen.
  assert (Er : health_rows (fun _ => since) d tr w = rows)
    by apply health_rows_spec.
  assert (Hex : exists h, health_of_rows rows = Some h
                          /\ (rows = [] -> h = 100)
                          /\ (rows <> [] -> nearest_integer (spec_health rows) h)).
  { destruct rows as [ | x rows0 ] eqn:E.
    - exists 100. split; [ reflexivity | ]. split; [ reflexivity | ].
      intros N; contradiction.
    - destruct (health_of_rows_spec (x :: rows0) ltac:(discriminate) S Hlen)
        as (h & Eh & Hh).
      exists h. split; [ exact Eh | ]. split; [ discriminate | ].
      intros _; exact Hh. }
  destruct Hex as (h & Eh & H1 & H2).
  exists h. unfold recalc_train_health_at. rewrite Hclock.
  unfold recalc_train_health. rewrite Er, Eh.
  split; [ reflexivity | ]. split; [ exact H1 | ]. split; [ exact H2 | ].
  split.
  - simpl. apply Forall_forall. intros t Ht. apply in_map_iff in Ht.
    destruct Ht as (t0 & Et & _). intros Hid.
    destruct (String.eqb_spec (t_id_train t0) tr) as [E0 | N0].
    + subst t. reflexivity.
    + subst t. contradiction.
  - intros E. rewrite E in Eh. vm_compute in Eh. injection Eh as <-. reflexivity.
Qed.

(** The anomalies of [demo_db], and two of the train Z2M-05. *)
Definition demo_db_two_trains : db :=
  mk_db (users demo_db) (trains demo_db) (components demo_db) (parts demo_db)
        (anomalies demo_db
         ++ [ demo_anomaly 4 "Z2M-05" "2025-04-04T08:00:00" "moteur" "Urgent" 90 "à traiter";
              demo_anomaly 5 "Z2M-05" "2025-04-05T08:00:00" "porte" "Faible" 10 "à traiter" ])
        (conformities demo_db).

Lemma demo_window_start_ok : window_start_ok demo_utcnow 90.
Proof. unfold window_start_ok. vm_compute. repeat split; discriminate. Qed.

Lemma recalc_train_health_formula_witness :
  window_start_ok demo_utcnow 90
  /\ days_ago_iso demo_utcnow 90 = Some "2025-03-01T00:00:00"%string
  /\ spec_window_rows (anomalies demo_db_two_trains) "Z2M-01" "2025-03-01T00:00:00"
     = [80; 40]
  /\ recalc_train_health_at demo_utcnow demo_db_two_trains "Z2M-01" 90
     = Some (40, update_etat_sante demo_db_two_trains "Z2M-01" 40)
  /\ nearest_integer (spec_health [80; 40]) 40.
Proof.
  assert (C : days_ago_iso demo_utcnow 90 = Some "2025-03-01T00:00:00"%string)
    by (vm_compute; reflexivity).
  assert (R : spec_window_rows (anomalies demo_db_two_trains) "Z2M-01"
                "2025-03-01T00:00:00" = [80; 40]) by (vm_compute; reflexivity).
  destruct (proj1 (recalc_train_health_formula demo_utcnow demo_db_two_trains
                     "Z2M-01" 90) demo_window_start_ok) as (since & Es & H).
  rewrite C in Es. injection Es as <-.
  destruct H as (h & E & _ & Hn & _ & H40).
  - rewrite R. repeat constructor; cbn; lia.
  - rewrite R. vm_compute. reflexivity.
  - specialize (H40 R). subst h.
    split; [ exact demo_window_start_ok | ].
    split; [ exact C | ]. split; [ exact R | ]. split; [ exact E | ].
    rewrite R in Hn. apply Hn. discriminate.
Defined.

(** The claim as it stands fails: with a window of 1000000 days the
    start of the window is before year 1, and [recalc_train_health] raises
    instead of returning 100 for a train that has no anomaly at all. *)
Lemma recalc_train_health_formula_counterexample :
  (forall since, spec_window_rows (anomalies demo_db) "Z2M-08" since = [])
  /\ days_ago_iso demo_utcnow 1000000 = None
  /\ recalc_train_health_at demo_utcnow demo_db "Z2M-08" 1000000 = None.
Proof.
  split; [ intros since; reflexivity | ].
  split; vm_compute; reflexivity.
Qed.

(** * The criticality formula *)

(** ** The criticality formula on values *)

(** The factor that multiplies [criticite_max]. *)
Definition factor_of (grav freq imm : float) : float :=
  (0.5 + 0.3 * grav + 0.2 * freq * imm)%float.

Definition grav_values : list float := [1.0; 0.6; 0.3]%float.
Definition freq_values : list float := [0.0; 0.2; 0.4; 0.6; 0.8; 1.0]%float.
Definition imm_values : list float := [1.0; 0.6]%float.

(** A factor is a finite float between 0.5 and 1. *)
Definition factor_ok (f : float) : bool :=
  ffin f && (2 ^ 1073 <=? fval f) && (fval f <=? 2 ^ 1074).

Lemma factor_table :
  forallb (fun gv => forallb (fun fq => forallb (fun im =>
    factor_ok (factor_of gv fq im)) imm_values) freq_values) grav_values = true.
Proof. vm_compute. reflexivity. Qed.

Lemma factor_of_ok gv fq im :
  In gv grav_values -> In fq freq_values -> In im imm_values ->
  ffin (factor_of gv fq im) = true
  /\ 2 ^ 1073 <= fval (factor_of gv fq im) <= ONE.
Proof.
  intros Hg Hf Hi. pose proof factor_table as T.
  rewrite forallb_forall in T. specialize (T gv Hg).
  rewrite forallb_forall in T. specialize (T fq Hf).
  rewrite forallb_forall in T. specialize (T im Hi).
  unfold factor_ok in T. rewrite !andb_true_iff in T.
  destruct T as [[T1 T2] T3]. apply Z.leb_le in T2, T3.
  unfold ONE. repeat split; assumption.
Qed.

Lemma grav_map_get_values g : In (grav_map_get g 0.6%float) grav_values.
Proof.
  unfold grav_map_get, grav_values.
  destruct (String.eqb g "Urgent"); [ simpl; auto | ].
  destruct (String.eqb g "Moyen"); [ simpl; auto | ].
  destruct (String.eqb g "Faible"); simpl; auto.
Qed.

Lemma float_of_int_small :
  Py.float_of_int 0 = Some 0.0%float /\ Py.float_of_int 1 = Some 1.0%float
  /\ Py.float_of_int 2 = Some 2.0%float /\ Py.float_of_int 3 = Some 3.0%float
  /\ Py.float_of_int 4 = Some 4.0%float.
Proof. vm_compute. repeat split; reflexivity. Qed.

Lemma freq_small :
  (Py.min 1.0 (0.0 / 5.0) = 0.0 /\ Py.min 1.0 (1.0 / 5.0) = 0.2
   /\ Py.min 1.0 (2.0 / 5.0) = 0.4 /\ Py.min 1.0 (3.0 / 5.0) = 0.6
   /\ Py.min 1.0 (4.0 / 5.0) = 0.8)%float.
Proof. vm_compute. repeat split; reflexivity. Qed.

(** From five occurrences on, the frequency factor is 1.0. *)
Lemma freq_saturates occ :
  5 <= occ < 2 ^ 63 ->
  exists occ_f, Py.float_of_int occ = Some occ_f
                /\ Py.min 1.0 (occ_f / 5.0)%float = 1.0%float.
Proof.
  intros Hocc. pose proof ONE_pos as HW.
  destruct fval_consts as (_ & (F1 & V1) & (F5 & V5) & _).
  assert (B : Z.abs (rnd (occ * ONE) 1) <= 2 ^ 63 * ONE).
  { apply rnd_abs_le_pow; [ lia | lia | ].
    rewrite Z.abs_mul, (Z.abs_eq ONE), Z.abs_eq by lia.
    rewrite Z.mul_1_r. apply Z.mul_le_mono_nonneg_r; lia. }
  destruct (float_of_int_fval occ) as (occ_f & E & Fo & Vo).
  { apply (fits_le _ 63); [ lia | exact B ]. }
  assert (L : 5 * ONE <= fval occ_f).
  { rewrite Vo. apply rnd_ge_ONE; [ lia | lia | ].
    rewrite Z.mul_1_r. apply Z.mul_le_mono_nonneg_r; lia. }
  assert (U : fval occ_f <= 2 ^ 63 * ONE) by (rewrite Vo; lia).
  assert (P5 : 0 < 5 * ONE) by lia.
  assert (B2 : Z.abs (rnd (fval occ_f * ONE) (5 * ONE)) <= 2 ^ 63 * ONE).
  { apply rnd_abs_le_pow; [ lia | lia | ].
    rewrite Z.abs_mul, (Z.abs_eq ONE), Z.abs_eq by lia.
    apply Z.mul_le_mono_nonneg; lia. }
  destruct (div_fval occ_f 5.0%float Fo F5) as (Fq & Vq).
  { rewrite V5. exact P5. }
  { rewrite V5. apply (fits_le _ 63); [ lia | exact B2 ]. }
  rewrite V5 in Vq.
  assert (Lq : 1 * ONE <= fval (occ_f / 5.0)%float).
  { rewrite Vq. apply rnd_ge_ONE; [ lia | lia | ].
    replace (1 * ONE * (5 * ONE)) with (5 * ONE * ONE) by ring.
    apply Z.mul_le_mono_nonneg_r; lia. }
  exists occ_f. split; [ exact E | ].
  unfold Py.min. rewrite (ltb_fval _ _ Fq F1), V1.
  destruct (Z.ltb_spec (fval (occ_f / 5.0)%float) (1 * ONE)); [ lia | reflexivity ].
Qed.

Lemma freq_factor_values occ :
  0 <= occ < 2 ^ 63 ->
  exists occ_f, Py.float_of_int occ = Some occ_f
                /\ In (Py.min 1.0 (occ_f / 5.0)%float) freq_values.
Proof.
  intros Hocc.
  destruct float_of_int_small as (S0 & S1 & S2 & S3 & S4).
  destruct freq_small as (Q0 & Q1 & Q2 & Q3 & Q4).
  assert (C : occ = 0 \/ occ = 1 \/ occ = 2 \/ occ = 3 \/ occ = 4 \/ 5 <= occ) by lia.
  destruct C as [-> | [-> | [-> | [-> | [-> | C]]]]].
  - eexists. split; [ exact S0 | ]. rewrite Q0. simpl; auto.
  - eexists. split; [ exact S1 | ]. rewrite Q1. simpl; auto.
  - eexists. split; [ exact S2 | ]. rewrite Q2. simpl; auto.
  - eexists. split; [ exact S3 | ]. rewrite Q3. simpl; auto 10.
  - eexists. split; [ exact S4 | ]. rewrite Q4. simpl; auto 10.
  - destruct (freq_saturates occ ltac:(lia)) as (f & E & Hf).
    exists f. split; [ exact E | ]. rewrite Hf. simpl; auto 10.
Qed.

(** The value of the score before rounding. *)
Definition score_val (cm F : Z) : Z := rnd (rnd (cm * ONE) 1 * F) ONE.

Lemma imm_values_in (i : bool) : In (if i then 1.0 else 0.6)%float imm_values.
Proof. destruct i; simpl; auto. Qed.

Lemma criticite_score_fval cm occ g i :
  sqlite_int cm -> 0 <= occ < 2 ^ 63 ->
  exists sc F, criticite_score cm occ g i = Some sc
               /\ ffin sc = true /\ fval sc = score_val cm F
               /\ 2 ^ 1073 <= F <= ONE.
Proof.
  intros Hcm Hocc. pose proof ONE_pos as HW. unfold sqlite_int in Hcm.
  destruct (freq_factor_values occ Hocc) as (occ_f & Eo & Hfq).
  destruct (factor_of_ok _ _ _ (grav_map_get_values g) Hfq (imm_values_in i))
    as (Ff & Lf & Uf).
  set (f := factor_of (grav_map_get g 0.6) (Py.min 1.0 (occ_f / 5.0))
                      (if i then 1.0 else 0.6)%float) in *.
  assert (B : Z.abs (rnd (cm * ONE) 1) <= 2 ^ 63 * ONE).
  { apply rnd_abs_le_pow; [ lia | lia | ].
    rewrite Z.abs_mul, (Z.abs_eq ONE) by lia.
    rewrite Z.mul_1_r. apply Z.mul_le_mono_nonneg_r; lia. }
  destruct (float_of_int_fval cm) as (cm_f & Ec & Fc & Vc).
  { apply (fits_le _ 63); [ lia | exact B ]. }
  assert (P73 : 0 < 2 ^ 1073) by (apply Z.pow_pos_nonneg; lia).
  assert (B2 : Z.abs (rnd (fval cm_f * fval f) ONE) <= 2 ^ 63 * ONE).
  { apply rnd_abs_le_pow; [ lia | lia | ].
    rewrite Z.abs_mul, (Z.abs_eq (fval f)) by lia.
    rewrite Vc. apply Z.mul_le_mono_nonneg; lia. }
  destruct (mul_fval cm_f f Fc Ff) as (Fs & Vs).
  { apply (fits_le _ 63); [ lia | exact B2 ]. }
  exists (cm_f * f)%float, (fval f).
  split.
  - unfold criticite_score. rewrite Eo, Ec. reflexivity.
  - split; [ exact Fs | ]. split; [ | lia ].
    rewrite Vs, Vc. reflexivity.
Qed.

(** The rows of a database fit SQLite: the catalog values are 64-bit
    integers and the anomalies table has fewer than 2^63 rows. *)
Definition db_storable (d : db) : Prop :=
  Forall (fun c => sqlite_int (criticite_max c)) (components d)
  /\ Z.of_nat (List.length (anomalies d)) < 2 ^ 63.

(** The end of [compute_criticite_calc], after the two database reads. *)
Definition criticite_result (criticite_max occ : Z) (gravite : string)
    (immobilisation : bool) : option Z :=
  match criticite_score criticite_max occ gravite immobilisation with
  | None => None
  | Some score =>
      match Py.round score with
      | None => None
      | Some r => Some (Z.max 0 (Z.min 100 r))
      end
  end.

Lemma compute_criticite_calc_result clock d tr comp g i :
  compute_criticite_calc clock d tr comp g i
  = criticite_result (get_component_criticite d comp)
                     (count_similar_recent clock d tr comp 90) g i.
Proof. reflexivity. Qed.

Lemma get_component_criticite_int d comp :
  Forall (fun c => sqlite_int (criticite_max c)) (components d) ->
  sqlite_int (get_component_criticite d comp).
Proof.
  intros H. unfold get_component_criticite.
  destruct (find (fun c => String.eqb (name c) comp) (components d)) as [ r | ] eqn:E.
  - apply find_some in E. destruct E as [E _].
    rewrite Forall_forall in H. apply H. exact E.
  - unfold sqlite_int. split; [ | reflexivity ]. discriminate.
Qed.

Lemma filter_length_bound {A} (f : A -> bool) l :
  (List.length (filter f l) <= List.length l)%nat.
Proof.
  induction l as [ | x l IH ]; simpl; [ lia | ].
  destruct (f x); simpl; lia.
Qed.

Lemma count_similar_recent_bounds clock d tr comp days :
  0 <= count_similar_recent clock d tr comp days
  <= Z.of_nat (List.length (anomalies d)).
Proof.
  unfold count_similar_recent.
  pose proof (filter_length_bound (similar_recent tr comp (clock days)) (anomalies d)).
  lia.
Qed.

Lemma criticite_result_some cm occ g i :
  sqlite_int cm -> 0 <= occ < 2 ^ 63 ->
  exists sc F, criticite_score cm occ g i = Some sc
               /\ criticite_result cm occ g i
                  = Some (Z.max 0 (Z.min 100 (round_ival (score_val cm F))))
               /\ 2 ^ 1073 <= F <= ONE.
Proof.
  intros Hcm Hocc.
  destruct (criticite_score_fval cm occ g i Hcm Hocc) as (sc & F & E & Fs & Vs & HF).
  exists sc, F. split; [ exact E | ]. split; [ | exact HF ].
  unfold criticite_result. rewrite E, (round_fval sc Fs), Vs. reflexivity.
Qed.

Lemma criticite_total clock d tr comp g i :
  db_storable d ->
  exists r, compute_criticite_calc clock d tr comp g i = Some r /\ 0 <= r <= 100.
Proof.
  intros [Hc Hn].
  rewrite compute_criticite_calc_result.
  pose proof (count_similar_recent_bounds clock d tr comp 90) as Ho.
  assert (Ho' : 0 <= count_similar_recent clock d tr comp 90 < 2 ^ 63) by lia.
  destruct (criticite_result_some _ _ g i (get_component_criticite_int d comp Hc) Ho')
    as (sc & F & _ & E & _).
  eexists. split; [ exact E | ]. lia.
Qed.

(** ** C3: the range of the result *)

(** C3: on every database that SQLite can hold, for every train,
    component (in the catalog or not, whatever its stored value), severity
    text, immobilisation flag and number of earlier occurrences,
    [compute_criticite_calc] returns an integer between 0 and 100. *)
Theorem compute_criticite_calc_range :
  forall clock d tr comp g i,
    db_storable d ->
    exists r, compute_criticite_calc clock d tr comp g i = Some r
              /\ 0 <= r <= 100.
Proof.
  intros clock d tr comp g i Hs. apply criticite_total. exact Hs.
Qed.

Lemma demo_db_storable : db_storable demo_db.
Proof.
  split; [ | vm_compute; reflexivity ].
  repeat constructor; cbn; lia.
Qed.

Lemma compute_criticite_calc_range_witness :
  db_storable demo_db
  /\ exists r, compute_criticite_calc demo_clock demo_db "Z2M-01" "frein" "Urgent" true
               = Some r /\ 0 <= r <= 100.
Proof.
  split; [ exact demo_db_storable | ].
  exact (compute_criticite_calc_range demo_clock demo_db "Z2M-01" "frein" "Urgent" true
           demo_db_storable).
Defined.

(** ** C4: the two defaults *)

Lemma find_absent comp l :
  ~ In comp (map name l) ->
  find (fun c => String.eqb (name c) comp) l = None.
Proof.
  induction l as [ | c l IH ]; intros H; simpl; [ reflexivity | ].
  destruct (String.eqb_spec (name c) comp) as [E | N].
  - exfalso. apply H. simpl. left. exact E.
  - apply IH. intros HI. apply H. simpl. right. exact HI.
Qed.

Lemma grav_map_get_default g :
  g <> "Urgent"%string -> g <> "Moyen"%string -> g <> "Faible"%string ->
  grav_map_get g 0.6%float = 0.6%float.
Proof.
  intros H1 H2 H3. unfold grav_map_get.
  destruct (String.eqb_spec g "Urgent"); [ contradiction | ].
  destruct (String.eqb_spec g "Moyen"); [ contradiction | ].
  destruct (String.eqb_spec g "Faible"); [ contradiction | ].
  reflexivity.
Qed.

(** C4: [compute_criticite_calc] returns a result on every database that
    SQLite can hold; for a component that is not in the catalog it is the
    result computed with [criticite_max = 50]; for a severity that is none
    of Urgent, Moyen, Faible the multiplier is 0.6 and the result is the one
    computed for Moyen. *)
Theorem compute_criticite_calc_defaults :
  forall clock d tr comp g i,
    db_storable d ->
    (exists r, compute_criticite_calc clock d tr comp g i = Some r)
    /\ (~ In comp (map name (components d)) ->
        get_component_criticite d comp = 50
        /\ compute_criticite_calc clock d tr comp g i
           = criticite_result 50 (count_similar_recent clock d tr comp 90) g i)
    /\ (g <> "Urgent"%string -> g <> "Moyen"%string -> g <> "Faible"%string ->
        grav_map_get g 0.6%float = 0.6%float
        /\ compute_criticite_calc clock d tr comp g i
           = compute_criticite_calc clock d tr comp "Moyen" i).
Proof.
  intros clock d tr comp g i Hs.
  split; [ | split ].
  - destruct (criticite_total clock d tr comp g i Hs) as (r & E & _).
    exists r. exact E.
  - intros Habs.
    assert (E : get_component_criticite d comp = 50).
    { unfold get_component_criticite. rewrite (find_absent comp _ Habs). reflexivity. }
    split; [ exact E | ]. rewrite compute_criticite_calc_result, E. reflexivity.
  - intros H1 H2 H3.
    pose proof (grav_map_get_default g H1 H2 H3) as E.
    split; [ exact E | ].
    unfold compute_criticite_calc, criticite_score. rewrite E. reflexivity.
Qed.

Lemma compute_criticite_calc_defaults_witness :
  db_storable demo_db
  /\ compute_criticite_calc demo_clock demo_db "Z2M-01" "essieu" "Grave" false
     = Some 34
  /\ get_component_criticite demo_db "essieu" = 50
  /\ compute_criticite_calc demo_clock demo_db "Z2M-01" "essieu" "Grave" false
     = compute_criticite_calc demo_clock demo_db "Z2M-01" "essieu" "Moyen" false.
Proof.
  destruct (compute_criticite_calc_defaults demo_clock demo_db "Z2M-01" "essieu"
              "Grave" false demo_db_storable) as (_ & H50 & Hg).
  split; [ exact demo_db_storable | ].
  split; [ vm_compute; reflexivity | ].
  split.
  - apply H50. cbn. intros H.
    repeat (destruct H as [H | H]; [ discriminate H | ]). exact H.
  - apply Hg; discriminate.
Defined.

(** ** C1: the criticality formula *)

(** The formula of the specification, in exact arithmetic. *)
Definition spec_severity (gravite : string) : Q :=
  if String.eqb gravite "Urgent" then 1
  else if String.eqb gravite "Moyen" then 6 # 10
  else if String.eqb gravite "Faible" then 3 # 10
  else 6 # 10.

(** [min(1.0, occ / 5.0)] *)
Definition spec_frequency (occ : Z) : Q :=
  if Qlt_le_dec (inject_Z occ / 5) 1 then (inject_Z occ / 5)%Q else 1.

Definition spec_immobilisation (immobilisation : bool) : Q :=
  if immobilisation then 1 else 6 # 10.

Definition spec_score (max_criticality : Z) (gravite : string) (occ : Z)
    (immobilisation : bool) : Q :=
  (inject_Z max_criticality
   * ((5 # 10) + (3 # 10) * spec_severity gravite
      + (2 # 10) * spec_frequency occ * spec_immobilisation immobilisation))%Q.

Definition spec_criticality (max_criticality : Z) (gravite : string) (occ : Z)
    (immobilisation : bool) : Q :=
  clampQ (spec_score max_criticality gravite occ immobilisation)
         (inject_Z 0) (inject_Z 100).

(** The same formula in thousandths. *)
Definition sev10 (gravite : string) : Z :=
  if String.eqb gravite "Urgent" then 10
  else if String.eqb gravite "Moyen" then 6
  else if String.eqb gravite "Faible" then 3
  else 6.

Definition imm10 (immobilisation : bool) : Z := if immobilisation then 10 else 6.

Definition factor1000 (gravite : string) (occ : Z) (immobilisation : bool) : Z :=
  500 + 30 * sev10 gravite + 4 * Z.min occ 5 * imm10 immobilisation.

Lemma spec_frequency_frac occ :
  (spec_frequency occ == Z.min occ 5 # 5)%Q.
Proof.
  unfold spec_frequency.
  destruct (Qlt_le_dec (inject_Z occ / 5) 1) as [L | L].
  - assert (Ho : occ < 5).
    { unfold Qlt, Qdiv, Qmult, Qinv, inject_Z in L. simpl in L. lia. }
    replace (Z.min occ 5) with occ by lia.
    unfold Qeq, Qdiv, Qmult, Qinv, inject_Z. simpl. lia.
  - assert (Ho : 5 <= occ).
    { unfold Qle, Qdiv, Qmult, Qinv, inject_Z in L. simpl in L. lia. }
    replace (Z.min occ 5) with 5 by lia. reflexivity.
Qed.

Lemma spec_factor_frac g occ i :
  ((5 # 10) + (3 # 10) * spec_severity g
   + (2 # 10) * spec_frequency occ * spec_immobilisation i
   == factor1000 g occ i # 1000)%Q.
Proof.
  rewrite spec_frequency_frac.
  unfold factor1000, spec_severity, sev10, spec_immobilisation, imm10.
  set (o := Z.min occ 5).
  destruct (String.eqb g "Urgent"); [ | destruct (String.eqb g "Moyen");
    [ | destruct (String.eqb g "Faible") ] ];
    destruct i; unfold Qeq, Qmult, Qplus; cbn [Qnum Qden];
    rewrite ?Pos2Z.inj_mul; lia.
Qed.

Lemma spec_score_frac cm g occ i :
  (spec_score cm g occ i == cm * factor1000 g occ i # 1000)%Q.
Proof.
  unfold spec_score. rewrite spec_factor_frac.
  unfold Qeq, Qmult, inject_Z; cbn [Qnum Qden]. reflexivity.
Qed.

Lemma factor1000_bounds g occ i : 0 <= occ -> 590 <= factor1000 g occ i <= 1000.
Proof.
  intros Ho. unfold factor1000, sev10, imm10.
  destruct (String.eqb g "Urgent"); [ | destruct (String.eqb g "Moyen");
    [ | destruct (String.eqb g "Faible") ] ]; destruct i; lia.
Qed.

(** *** Reduction to finitely many severities and occurrence counts *)

Definition canon_gravite (g : string) : string :=
  if String.eqb g "Urgent" then "Urgent"
  else if String.eqb g "Moyen" then "Moyen"
  else if String.eqb g "Faible" then "Faible"
  else "".

Lemma grav_map_get_canon g :
  grav_map_get (canon_gravite g) 0.6%float = grav_map_get g 0.6%float.
Proof.
  unfold canon_gravite, grav_map_get.
  destruct (String.eqb g "Urgent"); [ reflexivity | ].
  destruct (String.eqb g "Moyen"); [ reflexivity | ].
  destruct (String.eqb g "Faible"); reflexivity.
Qed.

Lemma sev10_canon g : sev10 (canon_gravite g) = sev10 g.
Proof.
  unfold canon_gravite, sev10.
  destruct (String.eqb g "Urgent"); [ reflexivity | ].
  destruct (String.eqb g "Moyen"); [ reflexivity | ].
  destruct (String.eqb g "Faible"); reflexivity.
Qed.

Lemma canon_gravite_in g : In (canon_gravite g) ["Urgent"; "Moyen"; "Faible"; ""]%string.
Proof.
  unfold canon_gravite.
  destruct (String.eqb g "Urgent"); [ simpl; auto | ].
  destruct (String.eqb g "Moyen"); [ simpl; auto | ].
  destruct (String.eqb g "Faible"); simpl; auto.
Qed.

Lemma criticite_score_canon cm occ g i :
  0 <= occ < 2 ^ 63 ->
  criticite_score cm occ g i = criticite_score cm (Z.min occ 5) (canon_gravite g) i.
Proof.
  intros Ho. unfold criticite_score. rewrite grav_map_get_canon.
  destruct (Z.le_gt_cases occ 5) as [Le | Gt].
  - replace (Z.min occ 5) with occ by lia. reflexivity.
  - replace (Z.min occ 5) with 5 by lia.
    destruct (freq_saturates occ ltac:(lia)) as (f1 & E1 & H1).
    destruct (freq_saturates 5 ltac:(lia)) as (f2 & E2 & H2).
    rewrite E1, E2. cbv zeta. rewrite H1, H2. reflexivity.
Qed.

(** *** The catalog values from 0 to 201, by evaluation *)

Definition criticite_check (cm occ : Z) (g : string) (i : bool) : bool :=
  match criticite_result cm occ g i with
  | Some r =>
      2 * Z.abs (r * 1000 - clampZ (cm * factor1000 g occ i) (0 * 1000) (100 * 1000))
      <=? 1000
  | None => false
  end.

Definition small_catalog : list Z := map Z.of_nat (seq 0 202).
Definition small_occ : list Z := [0; 1; 2; 3; 4; 5].

Lemma criticite_check_table :
  forallb (fun cm => forallb (fun occ => forallb (fun g => forallb (fun i =>
    criticite_check cm occ g i) [true; false])
    ["Urgent"; "Moyen"; "Faible"; ""]%string) small_occ) small_catalog = true.
Proof. vm_compute. reflexivity. Qed.

Lemma forallb4 {A B C D : Type} (f : A -> B -> C -> D -> bool) la lb lc ld :
  forallb (fun a => forallb (fun b => forallb (fun c => forallb (fun d =>
    f a b c d) ld) lc) lb) la = true ->
  forall a b c d, In a la -> In b lb -> In c lc -> In d ld -> f a b c d = true.
Proof.
  intros T a b c d Ia Ib Ic Id.
  rewrite forallb_forall in T. specialize (T a Ia).
  rewrite forallb_forall in T. specialize (T b Ib).
  rewrite forallb_forall in T. specialize (T c Ic).
  rewrite forallb_forall in T. exact (T d Id).
Qed.

Lemma criticite_check_small cm occ g i :
  0 <= cm <= 201 -> 0 <= occ ->
  criticite_check cm (Z.min occ 5) (canon_gravite g) i = true.
Proof.
  intros Hcm Ho.
  assert (I1 : In cm small_catalog).
  { unfold small_catalog. apply in_map_iff. exists (Z.to_nat cm).
    split; [ lia | ]. apply in_seq. lia. }
  assert (I2 : In (Z.min occ 5) small_occ).
  { unfold small_occ.
    assert (C : Z.min occ 5 = 0 \/ Z.min occ 5 = 1 \/ Z.min occ 5 = 2
                \/ Z.min occ 5 = 3 \/ Z.min occ 5 = 4 \/ Z.min occ 5 = 5) by lia.
    destruct C as [C | [C | [C | [C | [C | C]]]]]; rewrite C; simpl; auto 10. }
  assert (I3 : In i [true; false]) by (destruct i; simpl; auto).
  exact (forallb4 criticite_check _ _ _ _ criticite_check_table
           cm (Z.min occ 5) (canon_gravite g) i I1 I2 (canon_gravite_in g) I3).
Qed.

Lemma round_ival_half_neg : round_ival (- 2 ^ 1073) = 0.
Proof. vm_compute. reflexivity. Qed.

(** The result is a nearest integer of the clamped exact score. *)
Lemma criticite_result_nearest cm occ g i :
  sqlite_int cm -> 0 <= occ < 2 ^ 63 ->
  exists r, criticite_result cm occ g i = Some r
            /\ 2 * Z.abs (r * 1000 - clampZ (cm * factor1000 g occ i) (0 * 1000) (100 * 1000))
               <= 1000.
Proof.
  intros Hcm Ho. pose proof ONE_pos as HW.
  pose proof (factor1000_bounds g occ i ltac:(lia)) as HK.
  destruct (criticite_result_some cm occ g i Hcm Ho) as (sc & F & _ & E & HF).
  assert (P73 : 0 < 2 ^ 1073) by (apply Z.pow_pos_nonneg; lia).
  assert (EW : ONE = 2 * 2 ^ 1073) by reflexivity.
  destruct (Z.lt_trichotomy cm 0) as [Neg | Rest].
  - (* negative catalog value: the score is at most -0.5 *)
    assert (L1 : rnd (cm * ONE) 1 <= -1 * ONE).
    { apply rnd_le_ONE; [ lia | lia | ]. rewrite Z.mul_1_r.
      apply Z.mul_le_mono_nonneg_r; lia. }
    assert (L2 : score_val cm F <= -1 * 2 ^ 1073).
    { unfold score_val. apply rnd_le_grid; [ lia | lia | lia | ].
      apply Z.le_trans with (-1 * ONE * F).
      - apply Z.mul_le_mono_nonneg_r; lia.
      - replace (-1 * 2 ^ 1073 * ONE) with (-1 * ONE * 2 ^ 1073) by ring.
        apply Z.mul_le_mono_nonpos_l; lia. }
    pose proof (round_ival_mono _ _ L2) as L3.
    replace (-1 * 2 ^ 1073) with (- 2 ^ 1073) in L3 by lia.
    rewrite round_ival_half_neg in L3.
    eexists. split; [ exact E | ].
    replace (Z.max 0 (Z.min 100 (round_ival (score_val cm F)))) with 0 by lia.
    unfold clampZ.
    assert (cm * factor1000 g occ i <= 0) by nia. lia.
  - destruct (Z.le_gt_cases cm 201) as [Small | Big].
    + (* evaluated *)
      pose proof (criticite_check_small cm occ g i ltac:(lia) ltac:(lia)) as C.
      unfold criticite_check in C. unfold criticite_result in C |- *.
      rewrite <- (criticite_score_canon cm occ g i Ho) in C.
      assert (EK : factor1000 (canon_gravite g) (Z.min occ 5) i = factor1000 g occ i).
      { unfold factor1000. rewrite sev10_canon.
        replace (Z.min (Z.min occ 5) 5) with (Z.min occ 5) by lia. reflexivity. }
      rewrite EK in C.
      destruct (criticite_score cm occ g i) as [ s | ]; [ | discriminate ].
      destruct (Py.round s) as [ r | ]; [ | discriminate ].
      eexists. split; [ reflexivity | ]. apply Z.leb_le. exact C.
    + (* large catalog value: the score is at least 101 *)
      assert (L1 : 202 * ONE <= rnd (cm * ONE) 1).
      { apply rnd_ge_ONE; [ lia | lia | ]. rewrite Z.mul_1_r.
        apply Z.mul_le_mono_nonneg_r; lia. }
      assert (L2 : 101 * ONE <= score_val cm F).
      { unfold score_val. apply rnd_ge_ONE; [ lia | lia | ].
        apply Z.le_trans with (202 * ONE * 2 ^ 1073).
        - rewrite EW. ring_simplify. lia.
        - apply Z.mul_le_mono_nonneg; lia. }
      pose proof (round_ival_mono _ _ L2) as L3.
      rewrite round_ival_int in L3.
      eexists. split; [ exact E | ].
      replace (Z.max 0 (Z.min 100 (round_ival (score_val cm F)))) with 100 by lia.
      unfold clampZ.
      assert (100 * 1000 <= cm * factor1000 g occ i) by nia. lia.
Qed.

(** C1: on every database that SQLite can hold, [compute_criticite_calc]
    returns an integer nearest to
    [clamp(max * (0.5 + 0.3 * sev + 0.2 * freq * imm), 0, 100)], where [max]
    is the catalog value of the component (50 when absent), [sev] is 1, 0.6
    or 0.3, [freq = min(1, occ / 5)] for the number [occ] of anomalies of the
    same train and component reported in the last 90 days, and [imm] is 1
    or 0.6.  With [max = 95], Urgent, no earlier occurrence and
    immobilisation the result is 76; with [max = 95], Faible, six earlier
    occurrences and no immobilisation it is 67. *)
Theorem compute_criticite_calc_formula :
  forall clock d tr comp g i,
    db_storable d ->
    let max := spec_catalog_value (components d) comp in
    let occ := spec_occurrences (anomalies d) tr comp (clock 90) in
    (exists r, compute_criticite_calc clock d tr comp g i = Some r
               /\ nearest_integer (spec_criticality max g occ i) r)
    /\ (max = 95 -> occ = 0 ->
        compute_criticite_calc clock d tr comp "Urgent" true = Some 76)
    /\ (max = 95 -> occ = 6 ->
        compute_criticite_calc clock d tr comp "Faible" false = Some 67).
Proof.
  intros clock d tr comp g i [Hc Hn] max occ.
  pose proof (count_similar_recent_bounds clock d tr comp 90) as Ho.
  pose proof (get_component_criticite_int d comp Hc) as Hm.
  rewrite count_similar_recent_spec in Ho. fold occ in Ho.
  rewrite get_component_criticite_spec in Hm. fold max in Hm.
  assert (Ho' : 0 <= occ < 2 ^ 63) by lia.
  assert (R : forall g' i',
             compute_criticite_calc clock d tr comp g' i'
             = criticite_result max occ g' i').
  { intros g' i'. rewrite compute_criticite_calc_result.
    rewrite count_similar_recent_spec, get_component_criticite_spec. reflexivity. }
  split; [ | split ].
  - rewrite R.
    destruct (criticite_result_nearest max occ g i Hm Ho') as (r & E & Hr).
    exists r. split; [ exact E | ].
    unfold spec_criticality.
    apply (nearest_clamp_frac _ (max * factor1000 g occ i) 1000 0 100);
      [ lia | lia | apply spec_score_frac | exact Hr ].
  - intros Emax Eocc. rewrite R, Emax, Eocc. vm_compute. reflexivity.
  - intros Emax Eocc. rewrite R, Emax, Eocc. vm_compute. reflexivity.
Qed.

(** Six anomalies on the brakes of the train Z2M-05, all in the window. *)
Definition demo_db_recurrent : db :=
  mk_db (users demo_db) (trains demo_db) (components demo_db) (parts demo_db)
        (map (fun k => demo_anomaly k "Z2M-05" "2025-04-10T08:00:00" "frein"
                                    "Moyen" 64 "à traiter")
             [1; 2; 3; 4; 5; 6])
        (conformities demo_db).

(** Six recent anomalies on the brakes of the train Z2M-05, one on its
    doors, one on its brakes more than 90 days ago, and one on the brakes
    of the train Z2M-01. *)
Definition demo_db_mixed : db :=
  mk_db (users demo_db) (trains demo_db) (components demo_db) (parts demo_db)
        (map (fun k => demo_anomaly k "Z2M-05" "2025-04-10T08:00:00" "frein"
                                    "Moyen" 64 "à traiter")
             [1; 2; 3; 4; 5; 6]
         ++ [ demo_anomaly 7 "Z2M-05" "2025-04-11T08:00:00" "porte" "Moyen" 54 "à traiter";
              demo_anomaly 8 "Z2M-05" "2024-12-24T08:00:00" "frein" "Moyen" 64 "résolu";
              demo_anomaly 9 "Z2M-01" "2025-04-12T08:00:00" "frein" "Urgent" 76 "à traiter" ])
        (conformities demo_db).

Lemma compute_criticite_calc_formula_witness :
  db_storable demo_db_mixed
  /\ spec_catalog_value (components demo_db_mixed) "frein" = 95
  /\ spec_occurrences (anomalies demo_db_mixed) "Z2M-05" "frein" (demo_clock 90) = 6
  /\ spec_occurrences (anomalies demo_db_mixed) "Z2M-08" "frein" (demo_clock 90) = 0
  /\ compute_criticite_calc demo_clock demo_db_mixed "Z2M-05" "frein" "Faible" false
     = Some 67
  /\ compute_criticite_calc demo_clock demo_db_mixed "Z2M-08" "frein" "Urgent" true
     = Some 76
  /\ nearest_integer (spec_criticality 95 "Faible" 6 false) 67.
Proof.
  assert (S : db_storable demo_db_mixed).
  { split; [ | vm_compute; reflexivity ]. repeat constructor; cbn; lia. }
  destruct (compute_criticite_calc_formula demo_clock demo_db_mixed "Z2M-05" "frein"
              "Faible" false S) as ((r & E & Hr) & _ & H67).
  destruct (compute_criticite_calc_formula demo_clock demo_db_mixed "Z2M-08" "frein"
              "Urgent" true S) as (_ & H76 & _).
  assert (Em : spec_catalog_value (components demo_db_mixed) "frein" = 95)
    by (vm_compute; reflexivity).
  assert (Eo : spec_occurrences (anomalies demo_db_mixed) "Z2M-05" "frein"
                 (demo_clock 90) = 6) by (vm_compute; reflexivity).
  assert (Eo0 : spec_occurrences (anomalies demo_db_mixed) "Z2M-08" "frein"
                  (demo_clock 90) = 0) by (vm_compute; reflexivity).
  specialize (H67 Em Eo). specialize (H76 Em Eo0).
  split; [ exact S | ]. split; [ exact Em | ]. split; [ exact Eo | ].
  split; [ exact Eo0 | ]. split; [ exact H67 | ]. split; [ exact H76 | ].
  rewrite Em, Eo in Hr. rewrite H67 in E. injection E as <-. exact Hr.
Defined.

(** * The rest of the application

    The functions and page handlers of [app.py] around the scoring engine:
    [init_db], [login], [logout], [recalc_all_trains], and the handlers of
    the forms and buttons that write to the database.  What Streamlit
    draws is left out; a handler is the function from the database before
    the click to the database after it.  As above, [None] stands for a
    Python exception. *)

(** ** Python strings *)

Module PyStr.

(** [s.split(sep)[0]] for a non-empty [sep]: the part of [s] before the
    first occurrence of [sep], and [s] itself when [sep] does not occur. *)
Fixpoint split_head (sep s : string) : string :=
  if String.prefix sep s then EmptyString
  else match s with
       | EmptyString => EmptyString
       | String c s' => String c (split_head sep s')
       end.

(** The truth value of a string: it is not empty. *)
Definition truthy (s : string) : bool :=
  match s with EmptyString => false | String _ _ => true end.

End PyStr.

(** ** Database initialisation *)

(** [INSERT] into a table with a [TEXT PRIMARY KEY]: the row is added
    after the others; a key that is present already is refused
    ([sqlite3.IntegrityError]). *)
Definition insert_row {A} (key : A -> string) (tbl : list A) (r : A)
    : option (list A) :=
  if existsb (fun x => String.eqb (key x) (key r)) tbl then None
  else Some (tbl ++ [r]).

(** [c.executemany("INSERT ...", rows)] *)
Fixpoint executemany {A} (key : A -> string) (tbl rows : list A)
    : option (list A) :=
  match rows with
  | [] => Some tbl
  | r :: rest =>
      match insert_row key tbl r with
      | None => None
      | Some tbl' => executemany key tbl' rest
      end
  end.

Definition seed_users : list user_row :=
  [ mk_user "tech" "password" "technicien" "Technicien Demo";
    mk_user "responsable" "password" "responsable" "Responsable Demo" ].

Definition seed_trains : list train_row :=
  [ mk_train "Z2M-01" "Z2M" "2010-05-20" 450000 100 "";
    mk_train "Z2M-05" "Z2M" "2011-07-12" 512000 100 "";
    mk_train "Z2M-08" "Z2M" "2009-03-03" 600000 100 "" ].

Definition seed_components : list component_row :=
  [ mk_component "frein" 95; mk_component "porte" 80;
    mk_component "moteur" 90; mk_component "climatisation" 40;
    mk_component "compresseur" 85; mk_component "batterie" 70;
    mk_component "pantographe" 88 ].

Definition seed_parts : list part_row :=
  [ mk_part "VP001" "Valve de pression" 4 2 "frein,hydraulique";
    mk_part "VR003" "Vérin porte" 2 1 "porte";
    mk_part "PLT10" "Plaquette de frein" 20 5 "frein" ].

(** [SELECT COUNT( * ) FROM t], then the seed rows if the count is 0. *)
Definition seed_if_empty {A} (key : A -> string) (tbl seed : list A)
    : option (list A) :=
  if Z.of_nat (List.length tbl) =? 0 then executemany key tbl seed
  else Some tbl.

(** [init_db]: a table that [CREATE TABLE IF NOT EXISTS] creates is an
    empty list here; the four seeded tables are filled when empty. *)
Definition init_db (d : db) : option db :=
  match seed_if_empty username (users d) seed_users with
  | None => None
  | Some us =>
  match seed_if_empty t_id_train (trains d) seed_trains with
  | None => None
  | Some ts =>
  match seed_if_empty name (components d) seed_components with
  | None => None
  | Some cs =>
  match seed_if_empty ref (parts d) seed_parts with
  | None => None
  | Some ps => Some (mk_db us ts cs ps (anomalies d) (conformities d))
  end end end end.

(** The database file before the first run. *)
Definition empty_db : db := mk_db [] [] [] [] [] [].

(** ** Authentication *)

(** [st.session_state]: the keys [auth], [user] and [role]. *)
Record session := mk_session
  { auth : bool; s_user : option string; s_role : option string }.

Definition session_init : session := mk_session false None None.

Definition login (d : db) (s : session) (uname pwd : string) : bool * session :=
  match find (fun u => String.eqb (username u) uname
                       && String.eqb (password u) pwd) (users d) with
  | Some r => (true, mk_session true (Some uname) (Some (role r)))
  | None => (false, s)
  end.

Definition logout (s : session) : session := mk_session false None None.

(** ** Navigation *)

(** The choices of "Aller a" for a role. *)
Definition menu (role : string) : list string :=
  if String.eqb role "technicien"
  then ["Accueil"; "Nouvelle anomalie"; "Mes anomalies"; "Fiche de conformité";
        "Historique train"]%string
  else ["Dashboard"; "Liste anomalies"; "Gestion pièces"; "Trains & Santé"]%string.

(** The page blocks of the script, in order: the role and the page that
    each of them tests. *)
Definition page_blocks : list (string * string) :=
  [ ("technicien", "Accueil"); ("technicien", "Nouvelle anomalie");
    ("technicien", "Mes anomalies"); ("technicien", "Fiche de conformité");
    ("technicien", "Historique train");
    ("responsable", "Dashboard"); ("responsable", "Liste anomalies");
    ("responsable", "Gestion pièces"); ("responsable", "Trains & Santé") ]%string.

(** The blocks that run for a role and a page. *)
Definition pages_run (role page : string) : list (string * string) :=
  filter (fun b => String.eqb role (fst b) && String.eqb page (snd b)) page_blocks.

(** ** Recomputing every train *)

(** Each call of [recalc_train_health] reads the clock again: [clk k] is
    the reading of the call for the train number [k] of the list. *)
Fixpoint recalc_each (clk : nat -> Z -> string) (k : nat) (ids : list string)
    (d : db) : option db :=
  match ids with
  | [] => Some d
  | t :: rest =>
      match recalc_train_health (clk k) d t 90 with
      | None => None
      | Some (_, d1) => recalc_each clk (S k) rest d1
      end
  end.

(** [SELECT id_train FROM trains]: [id_train] is the primary key of the
    table, and SQLite answers a query that reads this column alone from the
    index of the key, so the ids come in the byte order of their text and
    not in the order of the rows of the table. *)
Fixpoint index_insert (x : string) (l : list string) : list string :=
  match l with
  | [] => [x]
  | y :: l' => if String.leb x y then x :: l else y :: index_insert x l'
  end.

Definition index_order (l : list string) : list string :=
  fold_right index_insert [] l.

Definition select_id_train (d : db) : list string :=
  index_order (map t_id_train (trains d)).

Definition recalc_all_trains (clk : nat -> Z -> string) (d : db) : option db :=
  recalc_each clk 0 (select_id_train d) d.

(** ** The technician's handlers *)

(** [INSERT INTO anomalies]: [new_id] is the key that [AUTOINCREMENT]
    gives to the row. *)
Definition insert_anomaly (d : db) (a : anomaly_row) : db :=
  mk_db (users d) (trains d) (components d) (parts d)
        (anomalies d ++ [a]) (conformities d).

(** The "Enregistrer anomalie" button, from the comment "compute
    criticity" on, that is after the photo step.  [clock1] is the clock
    read by [compute_criticite_calc], [now] the value of [now_iso()],
    [clock2] the clock read by [recalc_train_health]; [photo_path] is the
    value that the photo step leaves in the variable of this name.  Returns
    [crit_calc], [new_health] and the database. *)
Definition nouvelle_anomalie (clock1 clock2 : Z -> string) (now : string)
    (new_id : Z) (d : db) (user sid cat comp desc photo_path : string)
    (immobil : bool) (grav : string) : option (Z * Z * db) :=
  match compute_criticite_calc clock1 d sid comp grav immobil with
  | None => None
  | Some crit_calc =>
      let urg := urgence crit_calc in
      let d1 := insert_anomaly d
                  (mk_anomaly new_id sid user now cat comp desc photo_path
                              (if immobil then 1 else 0) grav crit_calc urg
                              "à traiter") in
      match recalc_train_health clock2 d1 sid 90 with
      | None => None
      | Some (new_health, d2) => Some (crit_calc, new_health, d2)
      end
  end.

(** The photo step of the button (the lines under the comment "save
    photo").  What the uploader holds, and what [Image.open] and [img.save]
    do with it, is decided outside the program: the outcome of the step is
    an input of the handler. *)
Inductive photo_file :=
| no_photo                          (* [photo_file] is empty *)
| photo_saved (saved_path : string) (* the image is saved at [saved_path] *)
| photo_error.                      (* [Image.open] or [img.save] raises *)

(** The value of [photo_path] after the step; [None] when the step
    raises, which ends the handler before the database is read. *)
Definition save_photo (f : photo_file) : option string :=
  match f with
  | no_photo => Some EmptyString
  | photo_saved saved_path => Some saved_path
  | photo_error => None
  end.

(** The whole "Enregistrer anomalie" button. *)
Definition enregistrer_anomalie (f : photo_file) (clock1 clock2 : Z -> string)
    (now : string) (new_id : Z) (d : db) (user sid cat comp desc : string)
    (immobil : bool) (grav : string) : option (Z * Z * db) :=
  match save_photo f with
  | None => None
  | Some photo_path =>
      nouvelle_anomalie clock1 clock2 now new_id d user sid cat comp desc
                        photo_path immobil grav
  end.

(** The anomaly shown by "Mes anomalies" for the number [sel]: none when
    [sel] is 0 or no row has this id. *)
Definition selected (d : db) (sel : Z) : option anomaly_row :=
  if sel =? 0 then None else find (fun a => id a =? sel) (anomalies d).

(** The "Marquer comme en cours" button. *)
Definition marquer_en_cours (d : db) (sel : Z) : db :=
  update_statut d sel "en cours".

(** The choices of "Piece remplacee": the empty choice, then one label
    per part. *)
Definition piece_label (p : part_row) : string :=
  (ref p ++ " - " ++ designation p)%string.

Definition piece_choices (d : db) : list string :=
  EmptyString :: map piece_label (parts d).

(** [piece.split(" - ")[0] if piece else ""] *)
Definition piece_ref_of (piece : string) : string :=
  if PyStr.truthy piece then PyStr.split_head " - " piece else EmptyString.

Definition insert_conformity (d : db) (c : conformity_row) : db :=
  mk_db (users d) (trains d) (components d) (parts d) (anomalies d)
        (conformities d ++ [c]).

Definition set_qty (q : Z) (p : part_row) : part_row :=
  mk_part (ref p) (designation p) q (seuil_min p) (utilises p).

(** SQLite's [qty - 1] on a 64-bit integer: the subtraction is done on
    integers unless it overflows; at the least integer, [- 2 ^ 63], it is
    done on floating-point numbers instead and gives -9223372036854775808.0,
    the same number. *)
Definition sqlite_minus_one (q : Z) : Z :=
  if q =? - 2 ^ 63 then q else q - 1.

(** [UPDATE parts SET qty = qty - 1 WHERE ref = ?] *)
Definition decrement_stock (d : db) (r : string) : db :=
  mk_db (users d) (trains d) (components d)
        (map (fun p => if String.eqb (ref p) r
                       then set_qty (sqlite_minus_one (qty p)) p else p)
             (parts d))
        (anomalies d) (conformities d).

(** The "Enregistrer la fiche" button. *)
Definition fiche_conformite (clock : Z -> string) (now : string) (new_id : Z)
    (d : db) (user train_sel typ comp piece result obs : string)
    : option (Z * db) :=
  let piece_ref := piece_ref_of piece in
  let d1 := insert_conformity d
              (mk_conformity new_id train_sel now user typ comp piece_ref
                             result obs) in
  let d2 := if PyStr.truthy piece_ref then decrement_stock d1 piece_ref else d1 in
  recalc_train_health clock d2 train_sel 90.

(** ** The manager's handlers *)

(** The KPIs of the dashboard, read after [recalc_all_trains]. *)
Definition kpi_total (d : db) : nat := List.length (trains d).

Definition kpi_bad (d : db) : nat :=
  List.length (filter (fun t => etat_sante t <? 50) (trains d)).

Definition kpi_medium (d : db) : nat :=
  List.length (filter (fun t => (50 <=? etat_sante t) && (etat_sante t <? 80))
                      (trains d)).

Definition kpi_good (d : db) : nat :=
  List.length (filter (fun t => 80 <=? etat_sante t) (trains d)).

Definition open_count (d : db) : nat :=
  List.length (filter (fun a => negb (String.eqb (statut a) "résolu"))
                      (anomalies d)).

Definition status_color (v : Z) : string :=
  if v <? 50 then "🔴" else if v <? 80 then "🟡" else "🟢".

(** The alert of "Gestion pieces": the parts below their threshold. *)
Definition low_stock (d : db) : list part_row :=
  filter (fun p => qty p <? seuil_min p) (parts d).

(** [UPDATE parts SET qty=? WHERE ref=?] *)
Definition update_stock (d : db) (r : string) (new_qty : Z) : db :=
  mk_db (users d) (trains d) (components d)
        (map (fun p => if String.eqb (ref p) r then set_qty new_qty p else p)
             (parts d))
        (anomalies d) (conformities d).

(** "Appliquer" in "Liste anomalies": the rows of the query built from
    the two choices, "Toutes" adding no condition. *)
Definition filtre_anomalies (d : db) (urg cat : string) : list anomaly_row :=
  filter (fun a =>
            (if String.eqb urg "Toutes" then true
             else String.eqb (urgence_col a) urg)
            && (if String.eqb cat "Toutes" then true
                else String.eqb (categorie a) cat))
         (anomalies d).

(** * Further properties of the two formulas *)

(** ** The health of any rows *)

Lemma health_of_rows_total rows :
  Forall sqlite_int rows ->
  exists h, health_of_rows rows = Some h /\ 0 <= h <= 100.
Proof.
  intros S. destruct rows as [ | x rows0 ] eqn:E.
  - exists 100. split; [ reflexivity | lia ].
  - rewrite <- E in *.
    assert (Hne : rows <> []) by (rewrite E; discriminate).
    pose proof (health_of_rows_val rows Hne (sqlite_rows_sum rows S)) as V.
    cbv zeta in V. eexists. split; [ exact V | apply health_val_range ].
Qed.

Lemma clampZ_scale n x : 0 < n ->
  clampZ (n * x) (0 * n) (100 * n) = n * clampZ x 0 100.
Proof. intros Hn. unfold clampZ. nia. Qed.

(** When the criticalities average to an integer [a], the health is
    [100 - a], clamped. *)
Lemma health_of_rows_average rows a :
  rows <> [] -> Forall sqlite_int rows -> Z.of_nat (List.length rows) < 2 ^ 44 ->
  Py.sum rows = a * Z.of_nat (List.length rows) ->
  health_of_rows rows = Some (clampZ (100 - a) 0 100).
Proof.
  intros Hne S Hlen Ha. pose proof (rows_length_pos rows Hne) as Hn.
  pose proof (health_of_rows_val rows Hne (sqlite_rows_sum rows S)) as V.
  cbv zeta in V. rewrite V. f_equal.
  set (n := Z.of_nat (List.length rows)) in *.
  pose proof (health_val_spec (Py.sum rows) n ltac:(lia)) as Sp.
  replace (n * 100) with (100 * n) by lia.
  set (h := health_val (Py.sum rows) (100 * n)) in *. clearbody h.
  rewrite Ha in Sp.
  replace (100 * n - a * n) with (n * (100 - a)) in Sp by ring.
  rewrite (clampZ_scale n (100 - a) Hn) in Sp.
  set (c := clampZ (100 - a) 0 100) in *. clearbody c.
  replace (h * n - n * c) with (n * (h - c)) in Sp by ring.
  rewrite Z.abs_mul, (Z.abs_eq n) in Sp by lia.
  destruct (Z.eq_dec h c) as [ Eq | Ne ]; [ exact Eq | exfalso ].
  assert (1 <= Z.abs (h - c)) by lia.
  assert (n * 1 <= n * Z.abs (h - c)) by (apply Z.mul_le_mono_nonneg_l; lia).
  lia.
Qed.

(** ** The factor of the criticality formula *)

(** The frequency factor as a float: [min(1.0, occ / 5.0)]. *)
Definition freq_float (occ : Z) : float :=
  nth (Z.to_nat (Z.min occ 5)) freq_values 1.0%float.

Lemma freq_factor_float occ :
  0 <= occ < 2 ^ 63 ->
  exists occ_f, Py.float_of_int occ = Some occ_f
                /\ Py.min 1.0 (occ_f / 5.0)%float = freq_float occ.
Proof.
  intros Hocc.
  destruct float_of_int_small as (S0 & S1 & S2 & S3 & S4).
  destruct freq_small as (Q0 & Q1 & Q2 & Q3 & Q4).
  assert (C : occ = 0 \/ occ = 1 \/ occ = 2 \/ occ = 3 \/ occ = 4 \/ 5 <= occ) by lia.
  destruct C as [-> | [-> | [-> | [-> | [-> | C]]]]].
  - eexists. split; [ exact S0 | ]. rewrite Q0. reflexivity.
  - eexists. split; [ exact S1 | ]. rewrite Q1. reflexivity.
  - eexists. split; [ exact S2 | ]. rewrite Q2. reflexivity.
  - eexists. split; [ exact S3 | ]. rewrite Q3. reflexivity.
  - eexists. split; [ exact S4 | ]. rewrite Q4. reflexivity.
  - destruct (freq_saturates occ ltac:(lia)) as (f & E & Hf).
    exists f. split; [ exact E | ]. rewrite Hf.
    unfold freq_float. replace (Z.min occ 5) with 5 by lia. reflexivity.
Qed.

Lemma freq_float_in occ : 0 <= occ -> In (freq_float occ) freq_values.
Proof.
  intros Ho. unfold freq_float. apply nth_In.
  unfold freq_values. simpl List.length. lia.
Qed.

(** The float that multiplies [criticite_max]. *)
Definition factor_float (g : string) (occ : Z) (i : bool) : float :=
  factor_of (grav_map_get g 0.6%float) (freq_float occ)
            (if i then 1.0 else 0.6)%float.

Lemma factor_float_ok g occ i :
  0 <= occ ->
  ffin (factor_float g occ i) = true
  /\ 2 ^ 1073 <= fval (factor_float g occ i) <= ONE.
Proof.
  intros Ho. unfold factor_float.
  apply factor_of_ok;
    [ apply grav_map_get_values | apply freq_float_in; exact Ho | apply imm_values_in ].
Qed.

Definition clamp_score (r : Z) : Z := Z.max 0 (Z.min 100 r).

Lemma criticite_result_factor cm occ g i :
  sqlite_int cm -> 0 <= occ < 2 ^ 63 ->
  criticite_result cm occ g i
  = Some (clamp_score (round_ival (score_val cm (fval (factor_float g occ i))))).
Proof.
  intros Hcm Hocc. pose proof ONE_pos as HW. unfold sqlite_int in Hcm.
  destruct (freq_factor_float occ Hocc) as (occ_f & Eo & Hfq).
  destruct (factor_float_ok g occ i ltac:(lia)) as (Ff & Lf & Uf).
  set (f := factor_float g occ i) in *.
  assert (B : Z.abs (rnd (cm * ONE) 1) <= 2 ^ 63 * ONE).
  { apply rnd_abs_le_pow; [ lia | lia | ].
    rewrite Z.abs_mul, (Z.abs_eq ONE) by lia.
    rewrite Z.mul_1_r. apply Z.mul_le_mono_nonneg_r; lia. }
  destruct (float_of_int_fval cm) as (cm_f & Ec & Fc & Vc).
  { apply (fits_le _ 63); [ lia | exact B ]. }
  assert (P73 : 0 < 2 ^ 1073) by (apply Z.pow_pos_nonneg; lia).
  assert (B2 : Z.abs (rnd (fval cm_f * fval f) ONE) <= 2 ^ 63 * ONE).
  { apply rnd_abs_le_pow; [ lia | lia | ].
    rewrite Z.abs_mul, (Z.abs_eq (fval f)) by lia.
    rewrite Vc. apply Z.mul_le_mono_nonneg; lia. }
  destruct (mul_fval cm_f f Fc Ff) as (Fs & Vs).
  { apply (fits_le _ 63); [ lia | exact B2 ]. }
  assert (E : criticite_score cm occ g i = Some (cm_f * f)%float).
  { unfold criticite_score. rewrite Eo, Ec. cbv zeta. rewrite Hfq. reflexivity. }
  unfold criticite_result. rewrite E, (round_fval _ Fs), Vs, Vc. reflexivity.
Qed.

(** The score grows with the factor when the catalog value is not
    negative, and is 0 when it is not positive. *)
Lemma score_val_mono cm cm' F F' :
  0 <= cm <= cm' -> 0 <= F <= F' -> score_val cm F <= score_val cm' F'.
Proof.
  intros Hcm HF. pose proof ONE_pos as HW. unfold score_val.
  assert (P : 0 <= rnd (cm * ONE) 1).
  { rewrite <- (rnd_0 1) at 1 by lia. apply rnd_mono; lia. }
  assert (M : rnd (cm * ONE) 1 <= rnd (cm' * ONE) 1).
  { apply rnd_mono; [ lia | lia | ]. rewrite !Z.mul_1_r.
    apply Z.mul_le_mono_nonneg_r; lia. }
  apply rnd_mono; [ lia | lia | ].
  apply Z.mul_le_mono_nonneg_r; [ lia | ].
  apply Z.mul_le_mono_nonneg; lia.
Qed.

Lemma score_val_nonpos cm F :
  cm <= 0 -> 0 <= F -> clamp_score (round_ival (score_val cm F)) = 0.
Proof.
  intros Hcm HF. pose proof ONE_pos as HW.
  assert (N : rnd (cm * ONE) 1 <= 0).
  { rewrite <- (rnd_0 1) by lia. apply rnd_mono; [ lia | lia | ].
    rewrite Z.mul_1_r, Z.mul_0_l. apply Z.mul_nonpos_nonneg; lia. }
  assert (N2 : score_val cm F <= 0).
  { unfold score_val. rewrite <- (rnd_0 ONE) by lia.
    apply rnd_mono; [ lia | lia | ].
    rewrite Z.mul_0_l. apply Z.mul_nonpos_nonneg; [ | lia ].
    apply Z.mul_nonpos_nonneg; lia. }
  pose proof (round_ival_mono _ _ N2) as R.
  pose proof (round_ival_int 0) as R0. rewrite Z.mul_0_l in R0.
  unfold clamp_score. lia.
Qed.

Lemma clamp_score_mono r r' : r <= r' -> clamp_score r <= clamp_score r'.
Proof. unfold clamp_score. lia. Qed.

Lemma criticite_value_mono cm cm' F F' :
  cm <= cm' -> 0 <= F <= F' ->
  clamp_score (round_ival (score_val cm F))
  <= clamp_score (round_ival (score_val cm' F')).
Proof.
  intros Hcm HF.
  destruct (Z.le_gt_cases cm 0) as [ Neg | Pos ].
  - rewrite (score_val_nonpos cm F Neg) by lia. unfold clamp_score. lia.
  - apply clamp_score_mono, round_ival_mono, score_val_mono; lia.
Qed.

(** The factor grows with the frequency, the severity and the
    immobilisation: the 36 floats, by evaluation. *)
Definition fle (a b : float) : bool := fval a <=? fval b.

Lemma factor_freq_table :
  forallb (fun gv => forallb (fun im => forallb (fun k => forallb (fun k' =>
    implb (k <=? k')%nat
          (fle (factor_of gv (nth k freq_values 1.0%float) im)
               (factor_of gv (nth k' freq_values 1.0%float) im)))
    (seq 0 6)) (seq 0 6)) imm_values) grav_values = true.
Proof. vm_compute. reflexivity. Qed.

Lemma factor_grav_table :
  forallb (fun fq => forallb (fun im =>
    fle (factor_of 0.3 fq im) (factor_of 0.6 fq im)
    && fle (factor_of 0.6 fq im) (factor_of 1.0 fq im))
    imm_values) freq_values = true.
Proof. vm_compute. reflexivity. Qed.

Lemma factor_imm_table :
  forallb (fun gv => forallb (fun fq =>
    fle (factor_of gv fq 0.6) (factor_of gv fq 1.0))
    freq_values) grav_values = true.
Proof. vm_compute. reflexivity. Qed.

Lemma factor_float_mono_occ g occ occ' i :
  0 <= occ <= occ' ->
  fval (factor_float g occ i) <= fval (factor_float g occ' i).
Proof.
  intros Ho. unfold factor_float, freq_float.
  set (k := Z.to_nat (Z.min occ 5)). set (k' := Z.to_nat (Z.min occ' 5)).
  assert (Ik : In k (seq 0 6)) by (apply in_seq; unfold k; lia).
  assert (Ik' : In k' (seq 0 6)) by (apply in_seq; unfold k'; lia).
  assert (L : (k <=? k')%nat = true) by (apply Nat.leb_le; unfold k, k'; lia).
  pose proof (forallb4 _ _ _ _ _ factor_freq_table
                _ _ _ _ (grav_map_get_values g) (imm_values_in i) Ik Ik') as T.
  cbv beta in T. rewrite L in T. simpl implb in T.
  apply Z.leb_le. exact T.
Qed.

Lemma factor_float_saturates g occ i :
  5 <= occ -> factor_float g occ i = factor_float g 5 i.
Proof.
  intros Ho. unfold factor_float, freq_float.
  replace (Z.min occ 5) with 5 by lia. reflexivity.
Qed.

Lemma factor_float_mono_grav occ i :
  0 <= occ ->
  fval (factor_float "Faible" occ i) <= fval (factor_float "Moyen" occ i)
  /\ fval (factor_float "Moyen" occ i) <= fval (factor_float "Urgent" occ i).
Proof.
  intros Ho. unfold factor_float.
  pose proof factor_grav_table as T.
  rewrite forallb_forall in T. specialize (T _ (freq_float_in occ Ho)).
  rewrite forallb_forall in T. specialize (T _ (imm_values_in i)).
  apply andb_true_iff in T. destruct T as [T1 T2].
  split; apply Z.leb_le; [ exact T1 | exact T2 ].
Qed.

Lemma factor_float_mono_imm g occ :
  0 <= occ ->
  fval (factor_float g occ false) <= fval (factor_float g occ true).
Proof.
  intros Ho. unfold factor_float.
  pose proof factor_imm_table as T.
  rewrite forallb_forall in T. specialize (T _ (grav_map_get_values g)).
  rewrite forallb_forall in T. specialize (T _ (freq_float_in occ Ho)).
  apply Z.leb_le. exact T.
Qed.

Lemma factor_float_default g occ i :
  g <> "Urgent"%string -> g <> "Moyen"%string -> g <> "Faible"%string ->
  factor_float g occ i = factor_float "Moyen" occ i.
Proof.
  intros H1 H2 H3. unfold factor_float.
  rewrite (grav_map_get_default g H1 H2 H3). reflexivity.
Qed.

(** The reads of [compute_criticite_calc] on a storable database. *)
Lemma compute_criticite_calc_value clock d tr comp g i :
  db_storable d ->
  compute_criticite_calc clock d tr comp g i
  = Some (clamp_score (round_ival (score_val
            (get_component_criticite d comp)
            (fval (factor_float g (count_similar_recent clock d tr comp 90) i))))).
Proof.
  intros [Hc Hn]. rewrite compute_criticite_calc_result.
  pose proof (count_similar_recent_bounds clock d tr comp 90) as Ho.
  apply criticite_result_factor;
    [ apply get_component_criticite_int; exact Hc | lia ].
Qed.

(** ** The health of a train *)

Definition anomalies_int (d : db) : Prop :=
  Forall (fun a => sqlite_int (criticite_calc a)) (anomalies d).

Lemma health_rows_int clock d tr w :
  anomalies_int d -> Forall sqlite_int (health_rows clock d tr w).
Proof.
  unfold anomalies_int, health_rows. intros H.
  apply Forall_map. apply Forall_forall. intros a Ha.
  apply filter_In in Ha. destruct Ha as [Ha _].
  rewrite Forall_forall in H. apply H. exact Ha.
Qed.

Lemma recalc_train_health_total clock d tr w :
  anomalies_int d ->
  exists h, recalc_train_health clock d tr w = Some (h, update_etat_sante d tr h)
            /\ health_of_rows (health_rows clock d tr w) = Some h
            /\ 0 <= h <= 100.
Proof.
  intros H.
  destruct (health_of_rows_total _ (health_rows_int clock d tr w H)) as (h & E & R).
  exists h. unfold recalc_train_health. rewrite E. repeat split; try reflexivity; lia.
Qed.

Lemma update_etat_sante_absent d tr h :
  ~ In tr (map t_id_train (trains d)) -> update_etat_sante d tr h = d.
Proof.
  intros N. unfold update_etat_sante. destruct d as [us ts cs ps an cf]. simpl in *.
  f_equal. induction ts as [ | t ts IH ]; simpl; [ reflexivity | ].
  simpl in N.
  destruct (String.eqb_spec (t_id_train t) tr) as [ E | _ ].
  - exfalso. apply N. left. exact E.
  - f_equal. apply IH. intros I. apply N. right. exact I.
Qed.

(** X1: when the start of the window is a date that [datetime] can hold,
    [recalc_train_health] returns an integer between 0 and 100, whatever
    the train and the number of rows, as long as the stored criticalities
    are SQLite integers, and it leaves the database as it was when no train
    has the given id; when the start of the window is not such a date, the
    function raises. *)
Theorem recalc_train_health_range :
  forall utcnow d tr w,
    anomalies_int d ->
    (window_start_ok utcnow w ->
     exists h d',
       recalc_train_health_at utcnow d tr w = Some (h, d')
       /\ 0 <= h <= 100
       /\ (~ In tr (map t_id_train (trains d)) -> d' = d))
    /\ (~ window_start_ok utcnow w ->
        recalc_train_health_at utcnow d tr w = None).
Proof.
  intros utcnow d tr w H. split.
  - intros W. destruct (days_ago_iso_returns utcnow w W) as (since & Es).
    destruct (recalc_train_health_total (fun _ => since) d tr w H) as (h & E & _ & R).
    exists h, (update_etat_sante d tr h).
    unfold recalc_train_health_at. rewrite Es.
    split; [ exact E | ]. split; [ exact R | ].
    apply update_etat_sante_absent.
  - intros W. unfold recalc_train_health_at.
    rewrite (days_ago_iso_raises utcnow w W). reflexivity.
Qed.

Lemma recalc_train_health_range_witness :
  anomalies_int demo_db
  /\ recalc_train_health_at demo_utcnow demo_db "Z2M-99" 90 = Some (100, demo_db)
  /\ (exists h d',
        recalc_train_health_at demo_utcnow demo_db "Z2M-01" 90 = Some (h, d')
        /\ 0 <= h <= 100)
  /\ recalc_train_health_at demo_utcnow demo_db "Z2M-01" 1000000 = None.
Proof.
  assert (S : anomalies_int demo_db).
  { unfold anomalies_int. repeat constructor; cbn; lia. }
  split; [ exact S | ].
  split; [ vm_compute; reflexivity | ].
  split.
  - destruct (proj1 (recalc_train_health_range demo_utcnow demo_db "Z2M-01" 90 S)
                demo_window_start_ok) as (h & d' & E & R & _).
    exists h, d'. split; [ exact E | exact R ].
  - apply (proj2 (recalc_train_health_range demo_utcnow demo_db "Z2M-01" 1000000 S)).
    unfold window_start_ok. vm_compute. intros [ _ [ C _ ] ]. apply C. reflexivity.
Defined.

(** X2: when the criticalities of the rows in the window add up to
    [a] times their number, the health is exactly [100 - a] (brought back
    into 0..100): the float arithmetic loses nothing.  In particular one
    anomaly of criticality [c] gives [100 - c]. *)
Theorem recalc_train_health_integer_average :
  forall clock d tr w a,
    let rows := health_rows clock d tr w in
    rows <> [] -> Forall sqlite_int rows ->
    Z.of_nat (List.length rows) < 2 ^ 44 ->
    Py.sum rows = a * Z.of_nat (List.length rows) ->
    option_map fst (recalc_train_health clock d tr w)
    = Some (Z.max 0 (Z.min 100 (100 - a))).
Proof.
  intros clock d tr w a rows Hne S Hlen Ha.
  unfold recalc_train_health. fold rows.
  rewrite (health_of_rows_average rows a Hne S Hlen Ha). reflexivity.
Qed.

Lemma recalc_train_health_integer_average_witness :
  option_map fst (recalc_train_health demo_clock demo_db "Z2M-01" 90) = Some 40.
Proof.
  apply (recalc_train_health_integer_average demo_clock demo_db "Z2M-01" 90 60).
  - discriminate.
  - repeat constructor; cbn; lia.
  - vm_compute. reflexivity.
  - vm_compute. reflexivity.
Defined.

(** Two updates of the health column. *)
Lemma update_etat_sante_twice d tr h h' :
  update_etat_sante (update_etat_sante d tr h) tr h' = update_etat_sante d tr h'.
Proof.
  unfold update_etat_sante. simpl. f_equal. rewrite map_map.
  apply map_ext. intros t.
  destruct (String.eqb (t_id_train t) tr) eqn:E1; cbn; rewrite E1; reflexivity.
Qed.

Lemma update_etat_sante_comm d tr tr' h h' :
  tr <> tr' ->
  update_etat_sante (update_etat_sante d tr h) tr' h'
  = update_etat_sante (update_etat_sante d tr' h') tr h.
Proof.
  intros Hne. unfold update_etat_sante. simpl. f_equal. rewrite !map_map.
  apply map_ext. intros t.
  destruct (String.eqb (t_id_train t) tr) eqn:E1;
    destruct (String.eqb (t_id_train t) tr') eqn:E2;
    cbn; rewrite ?E1, ?E2; try reflexivity.
  apply String.eqb_eq in E1, E2. congruence.
Qed.

Lemma health_rows_update_etat_sante clock d tr h tr' w :
  health_rows clock (update_etat_sante d tr h) tr' w = health_rows clock d tr' w.
Proof. reflexivity. Qed.

(** X3: recomputing the health of a train a second time, with the same
    reading of the clock, changes nothing; and the recomputations of two
    different trains can be done in either order. *)
Theorem recalc_train_health_idempotent :
  forall clock d tr w h d1,
    recalc_train_health clock d tr w = Some (h, d1) ->
    recalc_train_health clock d1 tr w = Some (h, d1)
    /\ forall clock' tr' w' h' d2,
         tr' <> tr ->
         recalc_train_health clock' d1 tr' w' = Some (h', d2) ->
         exists d1',
           recalc_train_health clock' d tr' w' = Some (h', d1')
           /\ recalc_train_health clock d1' tr w = Some (h, d2).
Proof.
  intros clock d tr w h d1 E. unfold recalc_train_health in E.
  destruct (health_of_rows (health_rows clock d tr w)) as [ h0 | ] eqn:Eh;
    [ | discriminate ].
  injection E as <- <-.
  split.
  - unfold recalc_train_health. rewrite health_rows_update_etat_sante, Eh.
    rewrite update_etat_sante_twice. reflexivity.
  - intros clock' tr' w' h' d2 Hne E'. unfold recalc_train_health in E'.
    rewrite health_rows_update_etat_sante in E'.
    destruct (health_of_rows (health_rows clock' d tr' w')) as [ h1 | ] eqn:Eh';
      [ | discriminate ].
    injection E' as <- <-.
    exists (update_etat_sante d tr' h1). unfold recalc_train_health.
    rewrite Eh', health_rows_update_etat_sante, Eh.
    split; [ reflexivity | ].
    rewrite (update_etat_sante_comm d tr tr' h0 h1) by congruence. reflexivity.
Qed.

Lemma recalc_train_health_idempotent_witness :
  recalc_train_health demo_clock (update_etat_sante demo_db "Z2M-01" 40) "Z2M-01" 90
  = Some (40, update_etat_sante demo_db "Z2M-01" 40).
Proof.
  apply (recalc_train_health_idempotent demo_clock demo_db "Z2M-01" 90 40).
  vm_compute. reflexivity.
Defined.

(** ** The criticality as a function of its inputs *)

Lemma count_similar_recent_nonneg clock d tr comp :
  0 <= count_similar_recent clock d tr comp 90.
Proof. apply count_similar_recent_bounds. Qed.

(** X4: the criticality never decreases when the number of similar
    recent anomalies grows, and no longer changes from five occurrences
    on: between two storable databases with the same catalog value for
    the component and [occ <= occ'] occurrences, the results satisfy
    [r <= r'], and [r = r'] when [occ >= 5]. *)
Theorem compute_criticite_calc_monotone_occ :
  forall clock clock' d d' tr comp g i,
    db_storable d -> db_storable d' ->
    get_component_criticite d' comp = get_component_criticite d comp ->
    count_similar_recent clock d tr comp 90
    <= count_similar_recent clock' d' tr comp 90 ->
    exists r r',
      compute_criticite_calc clock d tr comp g i = Some r
      /\ compute_criticite_calc clock' d' tr comp g i = Some r'
      /\ r <= r'
      /\ (5 <= count_similar_recent clock d tr comp 90 -> r' = r).
Proof.
  intros clock clock' d d' tr comp g i S S' Ecm Hocc.
  rewrite (compute_criticite_calc_value clock d tr comp g i S).
  rewrite (compute_criticite_calc_value clock' d' tr comp g i S').
  rewrite Ecm.
  pose proof (count_similar_recent_nonneg clock d tr comp) as P.
  set (occ := count_similar_recent clock d tr comp 90) in *.
  set (occ' := count_similar_recent clock' d' tr comp 90) in *.
  destruct (factor_float_ok g occ i P) as (_ & L & _).
  assert (P73 : 0 < 2 ^ 1073) by (apply Z.pow_pos_nonneg; lia).
  eexists. eexists. split; [ reflexivity | ]. split; [ reflexivity | ]. split.
  - apply criticite_value_mono; [ lia | ].
    split; [ lia | apply factor_float_mono_occ; lia ].
  - intros H5. rewrite (factor_float_saturates g occ i H5).
    rewrite (factor_float_saturates g occ' i) by lia. reflexivity.
Qed.

Lemma compute_criticite_calc_monotone_occ_witness :
  exists r r',
    compute_criticite_calc demo_clock demo_db "Z2M-05" "frein" "Faible" false = Some r
    /\ compute_criticite_calc demo_clock demo_db_recurrent "Z2M-05" "frein" "Faible" false
       = Some r'
    /\ r <= r'.
Proof.
  assert (S : db_storable demo_db).
  { split; [ | vm_compute; reflexivity ]. repeat constructor; cbn; lia. }
  assert (S' : db_storable demo_db_recurrent).
  { split; [ | vm_compute; reflexivity ]. repeat constructor; cbn; lia. }
  destruct (compute_criticite_calc_monotone_occ demo_clock demo_clock demo_db
              demo_db_recurrent "Z2M-05" "frein" "Faible" false S S')
    as (r & r' & E & E' & L & _).
  - vm_compute. reflexivity.
  - vm_compute. discriminate.
  - exists r, r'. split; [ exact E | ]. split; [ exact E' | exact L ].
Defined.

(** X5: on a storable database the criticality is ordered by the
    severity (Faible, then Moyen, then Urgent), an unknown severity counts
    as Moyen, and an immobilised train never scores less than one that
    is not. *)
Theorem compute_criticite_calc_monotone_gravite :
  forall clock d tr comp,
    db_storable d ->
    (forall i, exists rf rm ru,
        compute_criticite_calc clock d tr comp "Faible" i = Some rf
        /\ compute_criticite_calc clock d tr comp "Moyen" i = Some rm
        /\ compute_criticite_calc clock d tr comp "Urgent" i = Some ru
        /\ rf <= rm <= ru)
    /\ (forall g, exists r0 r1,
        compute_criticite_calc clock d tr comp g false = Some r0
        /\ compute_criticite_calc clock d tr comp g true = Some r1
        /\ r0 <= r1).
Proof.
  intros clock d tr comp S.
  pose proof (count_similar_recent_nonneg clock d tr comp) as P.
  assert (P73 : 0 < 2 ^ 1073) by (apply Z.pow_pos_nonneg; lia).
  split.
  - intros i.
    rewrite !(compute_criticite_calc_value clock d tr comp _ i S).
    set (occ := count_similar_recent clock d tr comp 90) in *.
    destruct (factor_float_mono_grav occ i P) as (L1 & L2).
    destruct (factor_float_ok "Faible" occ i P) as (_ & Lf & _).
    destruct (factor_float_ok "Moyen" occ i P) as (_ & Lm & _).
    do 3 eexists. split; [ reflexivity | ]. split; [ reflexivity | ].
    split; [ reflexivity | ].
    split; apply criticite_value_mono; lia.
  - intros g.
    rewrite !(compute_criticite_calc_value clock d tr comp g _ S).
    set (occ := count_similar_recent clock d tr comp 90) in *.
    pose proof (factor_float_mono_imm g occ P) as L.
    destruct (factor_float_ok g occ false P) as (_ & L0 & _).
    do 2 eexists. split; [ reflexivity | ]. split; [ reflexivity | ].
    apply criticite_value_mono; lia.
Qed.

Lemma compute_criticite_calc_monotone_gravite_witness :
  exists rf rm ru,
    compute_criticite_calc demo_clock demo_db "Z2M-01" "frein" "Faible" true = Some rf
    /\ compute_criticite_calc demo_clock demo_db "Z2M-01" "frein" "Moyen" true = Some rm
    /\ compute_criticite_calc demo_clock demo_db "Z2M-01" "frein" "Urgent" true = Some ru
    /\ rf <= rm <= ru.
Proof.
  assert (S : db_storable demo_db).
  { split; [ | vm_compute; reflexivity ]. repeat constructor; cbn; lia. }
  exact (proj1 (compute_criticite_calc_monotone_gravite demo_clock demo_db
                  "Z2M-01" "frein" S) true).
Defined.

(** The result against the catalog value. *)
Lemma criticite_result_catalog cm occ g i :
  sqlite_int cm -> 0 <= occ < 2 ^ 63 ->
  exists r, criticite_result cm occ g i = Some r
            /\ 0 <= r <= 100
            /\ (cm <= 0 -> r = 0)
            /\ (0 <= cm -> r <= cm)
            /\ (0 <= cm <= 100 -> 59 * cm - 50 <= 100 * r)
            /\ (169 <= cm -> r = 100).
Proof.
  intros Hcm Ho.
  destruct (criticite_result_nearest cm occ g i Hcm Ho) as (r & E & N).
  pose proof (criticite_result_factor cm occ g i Hcm Ho) as V.
  rewrite E in V. injection V as V.
  assert (R : 0 <= r <= 100) by (rewrite V; unfold clamp_score; lia).
  pose proof (factor1000_bounds g occ i ltac:(lia)) as HK.
  set (K := factor1000 g occ i) in *. clearbody K.
  exists r. split; [ exact E | ]. split; [ exact R | ].
  unfold clampZ in N.
  repeat split.
  - intros Neg. assert (cm * K <= 0) by nia. lia.
  - intros Pos. assert (cm * K <= cm * 1000) by nia. lia.
  - intros In. assert (cm * 590 <= cm * K) by nia.
    assert (cm * K <= 100 * 1000) by nia. lia.
  - intros Big. assert (169 * 590 <= cm * K) by nia. lia.
Qed.

(** X6: on a storable database the criticality never exceeds the
    catalog value of the component (50 for an unknown component) when this
    value is not negative, is 0 when the value is not positive and 100 when
    it is 169 or more; for a value between 0 and 100 it is at least 59 % of
    it, less one half.  So an anomaly is labelled critique only on a
    component whose catalog value is at least 80. *)
Theorem compute_criticite_calc_catalog_bounds :
  forall clock d tr comp g i,
    db_storable d ->
    let cm := get_component_criticite d comp in
    exists r,
      compute_criticite_calc clock d tr comp g i = Some r
      /\ (cm <= 0 -> r = 0)
      /\ (0 <= cm -> r <= cm)
      /\ (0 <= cm <= 100 -> 59 * cm - 50 <= 100 * r)
      /\ (169 <= cm -> r = 100)
      /\ (urgence r = "critique"%string -> 80 <= cm)
      /\ (cm < 50 -> urgence r = "faible"%string).
Proof.
  intros clock d tr comp g i [Hc Hn] cm.
  rewrite compute_criticite_calc_result. fold cm.
  pose proof (count_similar_recent_bounds clock d tr comp 90) as Ho.
  destruct (criticite_result_catalog cm (count_similar_recent clock d tr comp 90) g i)
    as (r & E & R & B0 & B1 & B2 & B3).
  { apply get_component_criticite_int. exact Hc. }
  { lia. }
  exists r. split; [ exact E | ]. split; [ exact B0 | ]. split; [ exact B1 | ].
  split; [ exact B2 | ]. split; [ exact B3 | ].
  unfold urgence. split.
  - destruct (Z.leb_spec 80 r) as [ L | L ].
    + intros _. destruct (Z.le_gt_cases cm 0); [ | ]; [ rewrite B0 in L; lia | ].
      specialize (B1 ltac:(lia)). lia.
    + destruct (50 <=? r); discriminate.
  - intros Lt.
    assert (r < 50).
    { destruct (Z.le_gt_cases cm 0); [ rewrite B0; lia | ].
      specialize (B1 ltac:(lia)). lia. }
    destruct (Z.leb_spec 80 r); [ lia | ].
    destruct (Z.leb_spec 50 r); [ lia | reflexivity ].
Qed.

Lemma compute_criticite_calc_catalog_bounds_witness :
  exists r,
    compute_criticite_calc demo_clock demo_db "Z2M-01" "climatisation" "Urgent" true
    = Some r
    /\ r <= 40 /\ urgence r = "faible"%string.
Proof.
  assert (S : db_storable demo_db).
  { split; [ | vm_compute; reflexivity ]. repeat constructor; cbn; lia. }
  destruct (compute_criticite_calc_catalog_bounds demo_clock demo_db "Z2M-01"
              "climatisation" "Urgent" true S) as (r & E & _ & B1 & _ & _ & _ & F).
  exists r. split; [ exact E | ]. split.
  - apply B1. vm_compute. discriminate.
  - apply F. vm_compute. reflexivity.
Defined.

From Stdlib Require Import Ascii.

(** * Properties of the handlers *)

(** ** Declaring an anomaly *)

Lemma health_rows_insert clock d a tr w :
  health_rows clock (insert_anomaly d a) tr w
  = (health_rows clock d tr w
     ++ if in_window tr (clock w) a then [criticite_calc a] else [])%list.
Proof.
  unfold health_rows, insert_anomaly. cbn [anomalies].
  rewrite filter_app, map_app. cbn [filter].
  destruct (in_window tr (clock w) a); reflexivity.
Qed.

Lemma count_similar_recent_insert clock d a tr comp days :
  count_similar_recent clock (insert_anomaly d a) tr comp days
  = count_similar_recent clock d tr comp days
    + if similar_recent tr comp (clock days) a then 1 else 0.
Proof.
  unfold count_similar_recent, insert_anomaly. cbn [anomalies].
  rewrite filter_app, length_app. cbn [filter].
  destruct (similar_recent tr comp (clock days) a); cbn [List.length]; lia.
Qed.

Lemma anomalies_int_insert d a :
  anomalies_int d -> sqlite_int (criticite_calc a) ->
  anomalies_int (insert_anomaly d a).
Proof.
  unfold anomalies_int, insert_anomaly. cbn [anomalies]. intros H Ha.
  apply Forall_app. split; [ exact H | ]. constructor; [ exact Ha | constructor ].
Qed.

Lemma sqlite_int_percent c : 0 <= c <= 100 -> sqlite_int c.
Proof. unfold sqlite_int. lia. Qed.

(** The row written by the form. *)
Definition declared_row (now : string) (new_id : Z)
    (user sid cat comp desc photo_path : string) (immobil : bool)
    (grav : string) (crit : Z) : anomaly_row :=
  mk_anomaly new_id sid user now cat comp desc photo_path
             (if immobil then 1 else 0) grav crit (urgence crit) "à traiter".

Lemma nouvelle_anomalie_total clock1 clock2 now new_id d user sid cat comp desc
    photo immobil grav :
  db_storable d -> anomalies_int d ->
  exists crit h,
    let row := declared_row now new_id user sid cat comp desc photo immobil grav crit in
    nouvelle_anomalie clock1 clock2 now new_id d user sid cat comp desc photo
                      immobil grav
    = Some (crit, h, update_etat_sante (insert_anomaly d row) sid h)
    /\ compute_criticite_calc clock1 d sid comp grav immobil = Some crit
    /\ 0 <= crit <= 100 /\ 0 <= h <= 100
    /\ health_of_rows (health_rows clock2 d sid 90
                       ++ if text_ge now (clock2 90) then [crit] else [])
       = Some h.
Proof.
  intros S I.
  destruct (criticite_total clock1 d sid comp grav immobil S) as (crit & Ec & Rc).
  set (row := declared_row now new_id user sid cat comp desc photo immobil grav crit).
  assert (I1 : anomalies_int (insert_anomaly d row)).
  { apply anomalies_int_insert; [ exact I | ]. apply sqlite_int_percent. exact Rc. }
  destruct (recalc_train_health_total clock2 _ sid 90 I1) as (h & Eh & Hr & Rh).
  exists crit, h. cbv zeta. fold row.
  unfold nouvelle_anomalie. rewrite Ec. cbv zeta.
  change (mk_anomaly new_id sid user now cat comp desc photo
            (if immobil then 1 else 0) grav crit (urgence crit) "à traiter")
    with row.
  rewrite Eh. split; [ reflexivity | ]. split; [ reflexivity | ].
  split; [ exact Rc | ]. split; [ exact Rh | ].
  rewrite health_rows_insert in Hr.
  unfold in_window, row, declared_row in Hr.
  cbn [id_train date_signalement criticite_calc] in Hr.
  rewrite String.eqb_refl in Hr. cbn [andb] in Hr. exact Hr.
Qed.

(** X7: on a storable database the "Enregistrer anomalie" button fails
    exactly when the photo step raises, and then before anything is read
    or written.  Otherwise the criticality is computed before the row is
    written (the new anomaly does not count as its own precedent); the row
    carries this criticality, the label derived from it, the status
    "a traiter" and the path left by the photo step (empty without a
    photo); the health returned is that of the rows that were in the
    window, with the new criticality added when the timestamp of the row is
    in the window. *)
Theorem enregistrer_anomalie_effect :
  forall f clock1 clock2 now new_id d user sid cat comp desc immobil grav,
    db_storable d -> anomalies_int d ->
    (f = photo_error ->
     enregistrer_anomalie f clock1 clock2 now new_id d user sid cat comp desc
                          immobil grav = None)
    /\ (forall photo_path,
          f = no_photo /\ photo_path = EmptyString \/ f = photo_saved photo_path ->
          exists crit h d',
            enregistrer_anomalie f clock1 clock2 now new_id d user sid cat comp
                                 desc immobil grav = Some (crit, h, d')
            /\ compute_criticite_calc clock1 d sid comp grav immobil = Some crit
            /\ 0 <= crit <= 100 /\ 0 <= h <= 100
            /\ anomalies d'
               = (anomalies d
                  ++ [mk_anomaly new_id sid user now cat comp desc photo_path
                                 (if immobil then 1 else 0) grav crit
                                 (urgence crit) "à traiter"])%list
            /\ health_of_rows (health_rows clock2 d sid 90
                               ++ if text_ge now (clock2 90) then [crit] else [])
               = Some h
            /\ Forall (fun t => t_id_train t = sid -> etat_sante t = h) (trains d')
            /\ users d' = users d /\ components d' = components d
            /\ parts d' = parts d /\ conformities d' = conformities d).
Proof.
  intros f clock1 clock2 now new_id d user sid cat comp desc immobil grav S I.
  split; [ intros ->; reflexivity | ].
  intros photo Hf.
  assert (Ef : enregistrer_anomalie f clock1 clock2 now new_id d user sid cat comp
                 desc immobil grav
               = nouvelle_anomalie clock1 clock2 now new_id d user sid cat comp desc
                                   photo immobil grav).
  { destruct Hf as [ [ -> -> ] | -> ]; reflexivity. }
  rewrite Ef. clear Ef Hf f.
  destruct (nouvelle_anomalie_total clock1 clock2 now new_id d user sid cat comp
              desc photo immobil grav S I) as (crit & h & E & Ec & Rc & Rh & Hh).
  cbv zeta in E.
  exists crit, h. eexists. split; [ exact E | ].
  split; [ exact Ec | ]. split; [ exact Rc | ]. split; [ exact Rh | ].
  split; [ reflexivity | ]. split; [ exact Hh | ].
  split; [ | repeat split ].
  cbn [trains update_etat_sante insert_anomaly].
  apply Forall_forall. intros t Ht. apply in_map_iff in Ht.
  destruct Ht as (t0 & Et & _). intros Hid.
  destruct (String.eqb_spec (t_id_train t0) sid) as [ E0 | N0 ].
  - subst t. reflexivity.
  - subst t. contradiction.
Qed.

Lemma demo_db_int : anomalies_int demo_db.
Proof. unfold anomalies_int. repeat constructor; cbn; lia. Qed.

Lemma enregistrer_anomalie_effect_witness :
  enregistrer_anomalie photo_error demo_clock demo_clock "2025-04-05T09:00:00" 4
                       demo_db "tech" "Z2M-01" "mécanique" "frein" "" true "Urgent"
  = None
  /\ exists crit h d',
       enregistrer_anomalie (photo_saved "uploads/1743843600_frein.jpg") demo_clock
                            demo_clock "2025-04-05T09:00:00" 4 demo_db "tech"
                            "Z2M-01" "mécanique" "frein" "" true "Urgent"
       = Some (crit, h, d')
       /\ 0 <= crit <= 100 /\ 0 <= h <= 100
       /\ anomalies d'
          = (anomalies demo_db
             ++ [mk_anomaly 4 "Z2M-01" "tech" "2025-04-05T09:00:00" "mécanique"
                            "frein" "" "uploads/1743843600_frein.jpg" 1 "Urgent"
                            crit (urgence crit) "à traiter"])%list.
Proof.
  split.
  - apply (proj1 (enregistrer_anomalie_effect photo_error demo_clock demo_clock
                    "2025-04-05T09:00:00" 4 demo_db "tech" "Z2M-01" "mécanique"
                    "frein" "" true "Urgent" demo_db_storable demo_db_int)).
    reflexivity.
  - destruct (proj2 (enregistrer_anomalie_effect
                       (photo_saved "uploads/1743843600_frein.jpg") demo_clock
                       demo_clock "2025-04-05T09:00:00" 4 demo_db "tech" "Z2M-01"
                       "mécanique" "frein" "" true "Urgent" demo_db_storable
                       demo_db_int)
                "uploads/1743843600_frein.jpg"%string
                (or_intror eq_refl))
      as (crit & h & d' & E & _ & Rc & Rh & Ea & _).
    exists crit, h, d'. split; [ exact E | ]. split; [ exact Rc | ].
    split; [ exact Rh | exact Ea ].
Defined.

Lemma db_storable_before d a :
  db_storable (insert_anomaly d a) -> db_storable d.
Proof.
  unfold db_storable, insert_anomaly. cbn [components anomalies].
  rewrite length_app. cbn [List.length]. intros [H1 H2]. split; [ exact H1 | lia ].
Qed.

(** X8: declaring an anomaly adds one to the count of similar recent
    anomalies exactly when its timestamp is in the window; and a second
    declaration for the same train, component, severity and
    immobilisation, made with the same reading of the clock, never scores
    less than the first. *)
Theorem nouvelle_anomalie_escalates :
  forall clock1 clock2 now id1 d user sid cat comp desc photo immobil grav
         crit h d1,
    db_storable d1 -> anomalies_int d ->
    nouvelle_anomalie clock1 clock2 now id1 d user sid cat comp desc photo
                      immobil grav = Some (crit, h, d1) ->
    count_similar_recent clock1 d1 sid comp 90
    = count_similar_recent clock1 d sid comp 90
      + (if text_ge now (clock1 90) then 1 else 0)
    /\ forall clock3 now' id2 user' cat' desc' photo',
         exists crit' h' d2,
           nouvelle_anomalie clock1 clock3 now' id2 d1 user' sid cat' comp desc'
                             photo' immobil grav = Some (crit', h', d2)
           /\ crit <= crit'.
Proof.
  intros clock1 clock2 now id1 d user sid cat comp desc photo immobil grav
         crit h d1 S1 I E.
  assert (S : db_storable d).
  { unfold nouvelle_anomalie in E.
    destruct (compute_criticite_calc clock1 d sid comp grav immobil) as [ c | ];
      [ | discriminate ].
    cbv zeta in E.
    destruct (recalc_train_health clock2 _ sid 90) as [ [ h0 d0 ] | ] eqn:Er;
      [ | discriminate ].
    injection E as _ _ <-.
    unfold recalc_train_health in Er.
    destruct (health_of_rows _) in Er; [ | discriminate ].
    injection Er as _ <-.
    destruct S1 as [ H1 H2 ]. cbn [components anomalies update_etat_sante] in H1, H2.
    eapply db_storable_before. split; [ exact H1 | exact H2 ]. }
  destruct (nouvelle_anomalie_total clock1 clock2 now id1 d user sid cat comp
              desc photo immobil grav S I) as (c & h0 & E0 & Ec & Rc & Rh & _).
  cbv zeta in E0. rewrite E0 in E. injection E as -> -> <-.
  set (row := declared_row now id1 user sid cat comp desc photo immobil grav crit) in *.
  assert (Cnt : count_similar_recent clock1
                  (update_etat_sante (insert_anomaly d row) sid h) sid comp 90
                = count_similar_recent clock1 d sid comp 90
                  + (if text_ge now (clock1 90) then 1 else 0)).
  { change (count_similar_recent clock1
              (update_etat_sante (insert_anomaly d row) sid h) sid comp 90)
      with (count_similar_recent clock1 (insert_anomaly d row) sid comp 90).
    rewrite count_similar_recent_insert. f_equal.
    unfold similar_recent, row, declared_row. cbn [id_train composant date_signalement].
    rewrite !String.eqb_refl. reflexivity. }
  split; [ exact Cnt | ].
  intros clock3 now' id2 user' cat' desc' photo'.
  assert (I1 : anomalies_int (update_etat_sante (insert_anomaly d row) sid h)).
  { apply (anomalies_int_insert d row I). apply sqlite_int_percent. exact Rc. }
  destruct (nouvelle_anomalie_total clock1 clock3 now' id2 _ user' sid cat' comp
              desc' photo' immobil grav S1 I1) as (c' & h' & E' & Ec' & _).
  cbv zeta in E'.
  exists c', h'. eexists. split; [ exact E' | ].
  rewrite (compute_criticite_calc_value _ _ _ _ _ _ S) in Ec.
  rewrite (compute_criticite_calc_value _ _ _ _ _ _ S1) in Ec'.
  injection Ec as <-. injection Ec' as <-.
  change (get_component_criticite (update_etat_sante (insert_anomaly d row) sid h) comp)
    with (get_component_criticite d comp).
  rewrite Cnt.
  pose proof (count_similar_recent_nonneg clock1 d sid comp) as P.
  destruct (factor_float_ok grav (count_similar_recent clock1 d sid comp 90) immobil P)
    as (_ & L & _).
  assert (P73 : 0 < 2 ^ 1073) by (apply Z.pow_pos_nonneg; lia).
  apply criticite_value_mono; [ lia | ].
  split; [ lia | ]. apply factor_float_mono_occ.
  destruct (text_ge now (clock1 90)); lia.
Qed.

Definition demo_db_declared : db :=
  update_etat_sante
    (insert_anomaly demo_db
       (declared_row "2025-04-05T09:00:00" 4 "tech" "Z2M-01" "mécanique" "frein"
                     "" "" true "Urgent" 80))
    "Z2M-01" 33.

Lemma nouvelle_anomalie_escalates_witness :
  count_similar_recent demo_clock demo_db_declared "Z2M-01" "frein" 90
  = count_similar_recent demo_clock demo_db "Z2M-01" "frein" 90 + 1.
Proof.
  assert (S1 : db_storable demo_db_declared).
  { split; [ | vm_compute; reflexivity ]. repeat constructor; cbn; lia. }
  refine (proj1 (nouvelle_anomalie_escalates demo_clock demo_clock
                   "2025-04-05T09:00:00" 4 demo_db "tech" "Z2M-01" "mécanique"
                   "frein" "" "" true "Urgent" 80 33 demo_db_declared S1
                   demo_db_int _)).
  vm_compute. reflexivity.
Defined.

(** ** The status buttons *)

Lemma update_statut_twice d sel st st' :
  update_statut (update_statut d sel st) sel st' = update_statut d sel st'.
Proof.
  unfold update_statut. cbn [users trains components parts anomalies conformities].
  f_equal. rewrite map_map. apply map_ext. intros a.
  destruct (id a =? sel) eqn:E; cbn [id set_statut]; rewrite E; reflexivity.
Qed.

Lemma selected_update_statut d sel st a :
  selected d sel = Some a ->
  selected (update_statut d sel st) sel = Some (set_statut st a).
Proof.
  unfold selected. destruct (sel =? 0); [ discriminate | ].
  intros F. unfold update_statut. cbn [anomalies].
  apply find_update_statut. exact F.
Qed.

Lemma selected_update_statut_other d sel sel' st :
  sel' <> sel ->
  selected (update_statut d sel st) sel'
  = selected d sel'.
Proof.
  intros Hne. unfold selected. destruct (sel' =? 0); [ reflexivity | ].
  unfold update_statut. cbn [anomalies].
  induction (anomalies d) as [ | a l IH ]; [ reflexivity | ].
  cbn [map find].
  destruct (id a =? sel) eqn:E.
  - cbn [id set_statut].
    destruct (id a =? sel') eqn:E'.
    + apply Z.eqb_eq in E, E'. congruence.
    + exact IH.
  - destruct (id a =? sel'); [ reflexivity | exact IH ].
Qed.

(** X9: the status buttons write the status of the rows with the
    selected id and of no other row: the selected anomaly reads back with
    the new status and its other columns as they were, another id reads
    back as before, and a second click replaces the effect of the first
    (a resolved anomaly is put back "en cours" by the other button). *)
Theorem update_statut_last_wins :
  forall d sel st st',
    update_statut (update_statut d sel st) sel st' = update_statut d sel st'
    /\ (forall a, selected d sel = Some a ->
                  selected (update_statut d sel st) sel = Some (set_statut st a))
    /\ (forall sel', sel' <> sel ->
                     selected (update_statut d sel st) sel' = selected d sel')
    /\ marquer_en_cours (update_statut d sel "résolu") sel = marquer_en_cours d sel.
Proof.
  intros d sel st st'.
  split; [ apply update_statut_twice | ].
  split; [ intros a; apply selected_update_statut | ].
  split; [ intros sel'; apply selected_update_statut_other | ].
  apply update_statut_twice.
Qed.

Lemma open_count_update_resolu l sel :
  (List.length (filter (fun a => negb (String.eqb (statut a) "résolu"))
                  (map (fun a => if (id a =? sel)%Z then set_statut "résolu" a else a) l))
   <= List.length (filter (fun a => negb (String.eqb (statut a) "résolu")) l))%nat.
Proof.
  induction l as [ | a l IH ]; [ apply Nat.le_refl | ].
  cbn [map filter]. destruct (id a =? sel).
  - cbn [statut set_statut]. rewrite String.eqb_refl. cbn [negb].
    destruct (negb (String.eqb (statut a) "résolu")); cbn [List.length]; lia.
  - destruct (negb (String.eqb (statut a) "résolu")); cbn [List.length]; lia.
Qed.

Lemma open_count_update_resolu_lt l sel a :
  find (fun x => id x =? sel) l = Some a ->
  statut a <> "résolu"%string ->
  (List.length (filter (fun a => negb (String.eqb (statut a) "résolu"))
                  (map (fun a => if (id a =? sel)%Z then set_statut "résolu" a else a) l))
   < List.length (filter (fun a => negb (String.eqb (statut a) "résolu")) l))%nat.
Proof.
  intros F Hst. induction l as [ | x l IH ]; [ discriminate | ].
  cbn [find] in F. cbn [map filter].
  pose proof (open_count_update_resolu l sel) as Le.
  destruct (id x =? sel) eqn:E.
  - injection F as ->. cbn [statut set_statut]. rewrite String.eqb_refl. cbn [negb].
    apply String.eqb_neq in Hst. rewrite Hst. cbn [negb List.length]. lia.
  - specialize (IH F).
    destruct (negb (String.eqb (statut x) "résolu")); cbn [List.length]; lia.
Qed.

(** X10: for an anomaly that the page shows, "Marquer comme resolu"
    never fails: the anomaly reads back as resolved, the number of open
    anomalies does not grow and drops when the anomaly was open, and the
    health written for its train is the one computed from the rows as they
    were before the click. *)
Theorem marquer_resolu_effect :
  forall clock d sel a,
    anomalies_int d -> selected d sel = Some a ->
    exists h d',
      marquer_resolu clock d sel = Some (h, d')
      /\ selected d' sel = Some (set_statut "résolu" a)
      /\ health_of_rows (health_rows clock d (id_train a) 90) = Some h
      /\ (open_count d' <= open_count d)%nat
      /\ (statut a <> "résolu"%string -> (open_count d' < open_count d)%nat).
Proof.
  intros clock d sel a I Sel.
  pose proof (selected_update_statut d sel "résolu" a Sel) as Sel1.
  assert (F : find (fun x => id x =? sel) (anomalies d) = Some a).
  { unfold selected in Sel. destruct (sel =? 0); [ discriminate | exact Sel ]. }
  assert (I1 : anomalies_int (update_statut d sel "résolu")).
  { unfold anomalies_int, update_statut. cbn [anomalies].
    apply Forall_map. unfold anomalies_int in I.
    eapply Forall_impl; [ | exact I ]. intros x Hx.
    destruct (id x =? sel); exact Hx. }
  destruct (recalc_train_health_total clock _ (id_train a) 90 I1) as (h & E & Hh & _).
  exists h. eexists. split.
  - unfold marquer_resolu. cbn [anomalies update_statut].
    rewrite (find_update_statut _ _ _ _ F). cbn [id_train set_statut]. exact E.
  - split; [ exact Sel1 | ]. split.
    + rewrite <- Hh. f_equal. symmetry.
      apply same_but_statut_rows. apply update_statut_same_but_statut.
    + unfold open_count. cbn [anomalies update_etat_sante update_statut].
      split; [ apply open_count_update_resolu | ].
      apply open_count_update_resolu_lt. exact F.
Qed.

Lemma marquer_resolu_effect_witness :
  exists h d',
    marquer_resolu demo_clock demo_db 1 = Some (h, d')
    /\ (open_count d' < open_count demo_db)%nat.
Proof.
  destruct (marquer_resolu_effect demo_clock demo_db 1
              (demo_anomaly 1 "Z2M-01" "2025-04-02T10:00:00" "frein" "Urgent" 80
                            "à traiter") demo_db_int)
    as (h & d' & E & _ & _ & _ & Lt).
  - vm_compute. reflexivity.
  - exists h, d'. split; [ exact E | ]. apply Lt. vm_compute. discriminate.
Defined.

(** ** The conformity sheet *)

Fixpoint no_space (s : string) : bool :=
  match s with
  | EmptyString => true
  | String c s' => negb (Ascii.eqb c " "%char) && no_space s'
  end.

Lemma split_head_label a b :
  no_space a = true ->
  PyStr.split_head " - " (a ++ " - " ++ b) = a.
Proof.
  induction a as [ | c a IH ]; intros H.
  - cbn. destruct b; reflexivity.
  - cbn [no_space] in H. apply andb_true_iff in H. destruct H as [ Hc Ha ].
    apply negb_true_iff, Ascii.eqb_neq in Hc.
    change (String c a ++ " - " ++ b)%string with (String c (a ++ " - " ++ b)%string).
    cbn [PyStr.split_head String.prefix].
    destruct (ascii_dec " " c) as [ Eq | _ ]; [ congruence | ].
    f_equal. apply IH. exact Ha.
Qed.

Lemma truthy_app a c b : PyStr.truthy (a ++ String c b) = true.
Proof. destruct a; reflexivity. Qed.

Lemma truthy_iff s : PyStr.truthy s = true <-> s <> EmptyString.
Proof. destruct s; simpl; split; congruence. Qed.

(** X11: the reference read back from a label of the "Piece remplacee"
    list is the reference of the part, provided that the reference holds
    no space; the empty choice gives the empty reference. *)
Theorem piece_ref_of_label :
  forall p,
    no_space (ref p) = true ->
    piece_ref_of (piece_label p) = ref p
    /\ piece_ref_of EmptyString = EmptyString.
Proof.
  intros p H. split; [ | reflexivity ].
  unfold piece_ref_of, piece_label.
  change (" - " ++ designation p)%string with (String " " ("- " ++ designation p)).
  rewrite truthy_app.
  change (String " " ("- " ++ designation p)) with (" - " ++ designation p)%string.
  apply split_head_label. exact H.
Qed.

Lemma piece_ref_of_label_witness :
  piece_ref_of (piece_label (mk_part "VP001" "Valve de pression" 4 2 "frein,hydraulique"))
  = "VP001"%string.
Proof.
  apply (piece_ref_of_label (mk_part "VP001" "Valve de pression" 4 2 "frein,hydraulique")).
  reflexivity.
Defined.

Lemma piece_ref_of_label_eq p :
  no_space (ref p) = true -> piece_ref_of (piece_label p) = ref p.
Proof.
  intros H. unfold piece_ref_of, piece_label.
  change (" - " ++ designation p)%string with (String " " ("- " ++ designation p)).
  rewrite truthy_app.
  change (String " " ("- " ++ designation p)) with (" - " ++ designation p)%string.
  apply split_head_label. exact H.
Qed.

Lemma anomalies_int_same d d' :
  anomalies d' = anomalies d -> anomalies_int d -> anomalies_int d'.
Proof. unfold anomalies_int. intros ->. exact (fun H => H). Qed.

(** The row [q'] is the row [q] of the parts after one unit of the
    reference [r] is taken: a row of another reference is as it was; a row
    of this reference has one unit less when its quantity is a 64-bit
    integer above the least one, [- 2 ^ 63]; at this least quantity the row
    keeps the same number. *)
Definition taken (r : string) (q q' : part_row) : Prop :=
  (ref q <> r -> q' = q)
  /\ (ref q = r -> - 2 ^ 63 < qty q < 2 ^ 63 -> q' = set_qty (qty q - 1) q)
  /\ (ref q = r -> qty q = - 2 ^ 63 -> q' = q).

Lemma decrement_stock_taken d r :
  Forall2 (taken r) (parts d) (parts (decrement_stock d r)).
Proof.
  unfold decrement_stock. cbn [parts].
  induction (parts d) as [ | q l IH ]; [ constructor | ].
  cbn [map]. constructor; [ | exact IH ].
  unfold taken, sqlite_minus_one.
  destruct (String.eqb_spec (ref q) r) as [ E | N ].
  - split; [ intros C; contradiction | ].
    destruct (Z.eqb_spec (qty q) (- 2 ^ 63)) as [ Q | Q ].
    + split; [ intros _ C; lia | ]. intros _ _. destruct q; reflexivity.
    + split; [ reflexivity | intros _ C; contradiction ].
  - split; [ reflexivity | ]. split; intros C; contradiction.
Qed.

(** X12: "Enregistrer la fiche" with a part chosen in the list (a
    reference without space, not empty) never fails; it takes exactly one
    unit from every row of this reference whose quantity is above the least
    64-bit integer, also when the quantity is 0 or less (there is no floor
    at 0); a quantity of [- 2 ^ 63] stays the same number; the other parts
    are left as they were, and one row is added to the conformities.  With
    the empty choice the parts are not changed. *)
Theorem fiche_conformite_stock :
  forall clock now new_id d user train_sel typ comp result obs p,
    anomalies_int d ->
    no_space (ref p) = true -> ref p <> EmptyString ->
    (exists h d',
       fiche_conformite clock now new_id d user train_sel typ comp
                        (piece_label p) result obs = Some (h, d')
       /\ Forall2 (taken (ref p)) (parts d) (parts d')
       /\ conformities d'
          = (conformities d
             ++ [mk_conformity new_id train_sel now user typ comp (ref p)
                               result obs])%list)
    /\ (exists h d',
       fiche_conformite clock now new_id d user train_sel typ comp
                        EmptyString result obs = Some (h, d')
       /\ parts d' = parts d).
Proof.
  intros clock now new_id d user train_sel typ comp result obs p I Hs Hne.
  split.
  - unfold fiche_conformite. rewrite (piece_ref_of_label_eq p Hs).
    rewrite (proj2 (truthy_iff (ref p)) Hne).
    set (d1 := insert_conformity d _).
    assert (I2 : anomalies_int (decrement_stock d1 (ref p))).
    { apply (anomalies_int_same d); [ reflexivity | exact I ]. }
    destruct (recalc_train_health_total clock _ train_sel 90 I2) as (h & E & _).
    exists h. eexists. split; [ exact E | ].
    split; [ | reflexivity ].
    cbn [parts update_etat_sante].
    exact (decrement_stock_taken d1 (ref p)).
  - unfold fiche_conformite. cbn [piece_ref_of PyStr.truthy].
    set (d1 := insert_conformity d _).
    assert (I1 : anomalies_int d1).
    { apply (anomalies_int_same d); [ reflexivity | exact I ]. }
    destruct (recalc_train_health_total clock _ train_sel 90 I1) as (h & E & _).
    exists h. eexists. split; [ exact E | reflexivity ].
Qed.

(** The parts of [demo_db] with an exhausted part and a part at the least
    quantity that a row can hold. *)
Definition demo_db_stock : db :=
  mk_db (users demo_db) (trains demo_db) (components demo_db)
        [ mk_part "VP001" "Valve de pression" 0 2 "frein,hydraulique";
          mk_part "VR003" "Vérin porte" (- 2 ^ 63) 1 "porte";
          mk_part "PLT10" "Plaquette de frein" 20 5 "frein" ]
        (anomalies demo_db) (conformities demo_db).

Lemma fiche_conformite_stock_witness :
  option_map (fun r => parts (snd r))
    (fiche_conformite demo_clock "2025-04-06T08:00:00" 1 demo_db_stock "tech" "Z2M-01"
                      "corrective" "frein"
                      (piece_label (mk_part "VP001" "Valve de pression" 0 2
                                            "frein,hydraulique"))
                      "Conforme" "")
  = Some [ mk_part "VP001" "Valve de pression" (-1) 2 "frein,hydraulique";
           mk_part "VR003" "Vérin porte" (- 2 ^ 63) 1 "porte";
           mk_part "PLT10" "Plaquette de frein" 20 5 "frein" ]
  /\ option_map (fun r => parts (snd r))
       (fiche_conformite demo_clock "2025-04-06T08:00:00" 1 demo_db_stock "tech"
                         "Z2M-01" "corrective" "porte"
                         (piece_label (mk_part "VR003" "Vérin porte" (- 2 ^ 63) 1
                                               "porte"))
                         "Conforme" "")
     = Some (parts demo_db_stock).
Proof.
  assert (I : anomalies_int demo_db_stock) by exact demo_db_int.
  split.
  - destruct (proj1 (fiche_conformite_stock demo_clock "2025-04-06T08:00:00" 1
                demo_db_stock "tech" "Z2M-01" "corrective" "frein" "Conforme" ""
                (mk_part "VP001" "Valve de pression" 0 2 "frein,hydraulique") I
                eq_refl ltac:(discriminate)))
      as (h & d' & E & T & _).
    rewrite E. cbn [option_map snd]. f_equal.
    cbn [parts demo_db_stock] in T.
    inversion T as [ | q1 q1' l1 l1' T1 R1 ]; subst.
    inversion R1 as [ | q2 q2' l2 l2' T2 R2 ]; subst.
    inversion R2 as [ | q3 q3' l3 l3' T3 R3 ]; subst.
    inversion R3; subst.
    destruct T1 as (_ & T1 & _). destruct T2 as (T2 & _). destruct T3 as (T3 & _).
    rewrite (T1 eq_refl ltac:(cbn; lia)).
    rewrite (T2 ltac:(cbn; discriminate)), (T3 ltac:(cbn; discriminate)).
    reflexivity.
  - destruct (proj1 (fiche_conformite_stock demo_clock "2025-04-06T08:00:00" 1
                demo_db_stock "tech" "Z2M-01" "corrective" "porte" "Conforme" ""
                (mk_part "VR003" "Vérin porte" (- 2 ^ 63) 1 "porte") I
                eq_refl ltac:(discriminate)))
      as (h & d' & E & T & _).
    rewrite E. cbn [option_map snd]. f_equal.
    cbn [parts demo_db_stock] in T.
    inversion T as [ | q1 q1' l1 l1' T1 R1 ]; subst.
    inversion R1 as [ | q2 q2' l2 l2' T2 R2 ]; subst.
    inversion R2 as [ | q3 q3' l3 l3' T3 R3 ]; subst.
    inversion R3; subst.
    destruct T1 as (T1 & _). destruct T2 as (_ & _ & T2). destruct T3 as (T3 & _).
    rewrite (T1 ltac:(cbn; discriminate)), (T3 ltac:(cbn; discriminate)).
    rewrite (T2 eq_refl eq_refl). reflexivity.
Defined.

(** X13: a conformity sheet does not change the health: the value that
    "Enregistrer la fiche" returns and writes is the one that
    [recalc_train_health] gives on the database before the click, and the
    anomalies are left as they were. *)
Theorem fiche_conformite_health :
  forall clock now new_id d user train_sel typ comp piece result obs,
    option_map fst (fiche_conformite clock now new_id d user train_sel typ comp
                                     piece result obs)
    = option_map fst (recalc_train_health clock d train_sel 90)
    /\ forall h d',
         fiche_conformite clock now new_id d user train_sel typ comp piece
                          result obs = Some (h, d') ->
         anomalies d' = anomalies d
         /\ Forall (fun t => t_id_train t = train_sel -> etat_sante t = h)
                   (trains d').
Proof.
  intros clock now new_id d user train_sel typ comp piece result obs.
  unfold fiche_conformite.
  set (pr := piece_ref_of piece).
  set (d1 := insert_conformity d _).
  set (d2 := if PyStr.truthy pr then decrement_stock d1 pr else d1).
  assert (A : anomalies d2 = anomalies d).
  { unfold d2. destruct (PyStr.truthy pr); reflexivity. }
  assert (T : trains d2 = trains d).
  { unfold d2. destruct (PyStr.truthy pr); reflexivity. }
  assert (H : health_rows clock d2 train_sel 90 = health_rows clock d train_sel 90).
  { unfold health_rows. rewrite A. reflexivity. }
  unfold recalc_train_health. rewrite H.
  destruct (health_of_rows (health_rows clock d train_sel 90)) as [ h0 | ].
  - split; [ reflexivity | ].
    intros h d' E. injection E as <- <-.
    split; [ exact A | ].
    cbn [trains update_etat_sante]. rewrite T.
    apply Forall_forall. intros t Ht. apply in_map_iff in Ht.
    destruct Ht as (t0 & Et & _). intros Hid.
    destruct (String.eqb_spec (t_id_train t0) train_sel) as [ E0 | N0 ].
    + subst t. reflexivity.
    + subst t. contradiction.
  - split; [ reflexivity | ]. intros h d' E. discriminate E.
Qed.

(** ** The stock *)

Lemma find_update_stock l r q r' :
  find (fun p => String.eqb (ref p) r')
       (map (fun p => if String.eqb (ref p) r then set_qty q p else p) l)
  = option_map (fun p => if String.eqb (ref p) r then set_qty q p else p)
               (find (fun p => String.eqb (ref p) r') l).
Proof.
  induction l as [ | p l IH ]; [ reflexivity | ].
  cbn [map find].
  destruct (String.eqb (ref p) r) eqn:E.
  - cbn [ref set_qty].
    destruct (String.eqb (ref p) r') eqn:E'; [ | exact IH ].
    cbn [option_map]. rewrite E. reflexivity.
  - destruct (String.eqb (ref p) r') eqn:E'; [ | exact IH ].
    cbn [option_map]. rewrite E. reflexivity.
Qed.

Lemma update_stock_absent d r q :
  ~ In r (map ref (parts d)) -> update_stock d r q = d.
Proof.
  intros N. unfold update_stock. destruct d as [us ts cs ps an cf].
  cbn [users trains components parts anomalies conformities] in *.
  f_equal. induction ps as [ | p ps IH ]; [ reflexivity | ].
  cbn [map] in *.
  destruct (String.eqb_spec (ref p) r) as [ E | _ ].
  - exfalso. apply N. left. exact E.
  - f_equal. apply IH. intros I. apply N. right. exact I.
Qed.

(** X14: "Mettre a jour" writes the new quantity in the rows of the
    given reference and nowhere else: a part looked up by its reference
    afterwards is the part as it was, with the new quantity if its
    reference is the given one; a reference that no part has leaves the
    database as it was; the updated part is in the alert list exactly when
    the new quantity is below its threshold. *)
Theorem update_stock_lookup :
  forall d r q,
    (forall r',
        find (fun p => String.eqb (ref p) r') (parts (update_stock d r q))
        = option_map (fun p => if String.eqb (ref p) r then set_qty q p else p)
                     (find (fun p => String.eqb (ref p) r') (parts d)))
    /\ (~ In r (map ref (parts d)) -> update_stock d r q = d)
    /\ (forall p, In p (parts d) -> ref p = r ->
                  (In (set_qty q p) (low_stock (update_stock d r q))
                   <-> q < seuil_min p))
    /\ anomalies (update_stock d r q) = anomalies d
    /\ trains (update_stock d r q) = trains d.
Proof.
  intros d r q.
  split; [ intros r'; apply find_update_stock | ].
  split; [ apply update_stock_absent | ].
  split; [ | split; reflexivity ].
  intros p Hp Hr. unfold low_stock, update_stock. cbn [parts].
  rewrite filter_In. cbn [qty seuil_min set_qty]. rewrite Z.ltb_lt.
  split; [ intros [ _ H ]; exact H | ].
  intros H. split; [ | exact H ].
  apply in_map_iff. exists p. split; [ | exact Hp ].
  rewrite Hr, String.eqb_refl. reflexivity.
Qed.

(** ** The dashboard *)

Lemma status_color_cases v :
  String.eqb (status_color v) "🔴" = (v <? 50)
  /\ String.eqb (status_color v) "🟡" = ((50 <=? v) && (v <? 80))
  /\ String.eqb (status_color v) "🟢" = (80 <=? v).
Proof.
  unfold status_color.
  destruct (Z.ltb_spec v 50) as [ L | L ].
  - replace (50 <=? v) with false by (symmetry; apply Z.leb_gt; lia).
    replace (80 <=? v) with false by (symmetry; apply Z.leb_gt; lia).
    repeat split; reflexivity.
  - replace (50 <=? v) with true by (symmetry; apply Z.leb_le; lia).
    destruct (Z.ltb_spec v 80) as [ M | M ].
    + replace (80 <=? v) with false by (symmetry; apply Z.leb_gt; lia).
      repeat split; reflexivity.
    + replace (80 <=? v) with true by (symmetry; apply Z.leb_le; lia).
      repeat split; reflexivity.
Qed.

Lemma kpi_count_partition (l : list train_row) :
  (List.length (filter (fun t => (etat_sante t <? 50)%Z) l)
   + List.length (filter (fun t => ((50 <=? etat_sante t) && (etat_sante t <? 80))%Z) l)
   + List.length (filter (fun t => (80 <=? etat_sante t)%Z) l)
   = List.length l)%nat.
Proof.
  induction l as [ | t l IH ]; [ reflexivity | ].
  cbn [filter].
  destruct (Z.ltb_spec (etat_sante t) 50) as [ L | L ].
  - replace (50 <=? etat_sante t) with false by (symmetry; apply Z.leb_gt; lia).
    replace (80 <=? etat_sante t) with false by (symmetry; apply Z.leb_gt; lia).
    cbn [andb List.length]. lia.
  - replace (50 <=? etat_sante t) with true by (symmetry; apply Z.leb_le; lia).
    destruct (Z.ltb_spec (etat_sante t) 80) as [ M | M ].
    + replace (80 <=? etat_sante t) with false by (symmetry; apply Z.leb_gt; lia).
      cbn [andb List.length]. lia.
    + replace (80 <=? etat_sante t) with true by (symmetry; apply Z.leb_le; lia).
      cbn [andb List.length]. lia.
Qed.

(** X15: the three categories of the dashboard count every train once:
    bad + medium + good = total; and each category counts the trains that
    the list below shows with its colour. *)
Theorem kpi_partition :
  forall d,
    (kpi_bad d + kpi_medium d + kpi_good d = kpi_total d)%nat
    /\ kpi_bad d
       = List.length (filter (fun t => String.eqb (status_color (etat_sante t)) "🔴")
                             (trains d))
    /\ kpi_medium d
       = List.length (filter (fun t => String.eqb (status_color (etat_sante t)) "🟡")
                             (trains d))
    /\ kpi_good d
       = List.length (filter (fun t => String.eqb (status_color (etat_sante t)) "🟢")
                             (trains d)).
Proof.
  intros d. unfold kpi_bad, kpi_medium, kpi_good, kpi_total.
  split; [ apply kpi_count_partition | ].
  repeat split; f_equal; apply filter_ext; intros t;
    destruct (status_color_cases (etat_sante t)) as (C1 & C2 & C3);
    symmetry; assumption.
Qed.

(** ** Recomputing every train *)

Lemma Forall2_map_left {A B C} (R : B -> C -> Prop) (f : A -> B) l l' :
  Forall2 R (map f l) l' -> Forall2 (fun x y => R (f x) y) l l'.
Proof.
  revert l'. induction l as [ | x l IH ]; intros l' H.
  - inversion H. constructor.
  - cbn [map] in H. inversion H; subst. constructor; [ assumption | ].
    apply IH. assumption.
Qed.

Lemma Forall2_nth_error {A B} (R : A -> B -> Prop) l l' k x :
  Forall2 R l l' -> nth_error l k = Some x ->
  exists y, nth_error l' k = Some y /\ R x y.
Proof.
  intros H. revert k. induction H as [ | a b l l' Hab H IH ]; intros k E.
  - destruct k; discriminate E.
  - destruct k as [ | k ].
    + injection E as <-. exists b. split; [ reflexivity | exact Hab ].
    + apply IH. exact E.
Qed.

Lemma same_but_etat_sante_refl t : same_but_etat_sante t t.
Proof. unfold same_but_etat_sante. repeat split. Qed.

(** The state of a train row after the trains [ids] are recomputed on
    the database [d], the first of them with the clock reading [clk k]. *)
Definition recomputed (clk : nat -> Z -> string) (d : db) (k : nat)
    (ids : list string) (t t' : train_row) : Prop :=
  same_but_etat_sante t t'
  /\ (~ In (t_id_train t) ids -> t' = t)
  /\ (forall j, nth_error ids j = Some (t_id_train t) ->
        health_of_rows (health_rows (clk (k + j)%nat) d (t_id_train t) 90)
        = Some (etat_sante t')
        /\ 0 <= etat_sante t' <= 100).

Lemma recalc_each_spec clk ids :
  forall k d,
    anomalies_int d -> NoDup ids ->
    exists d',
      recalc_each clk k ids d = Some d'
      /\ users d' = users d /\ components d' = components d
      /\ parts d' = parts d /\ anomalies d' = anomalies d
      /\ conformities d' = conformities d
      /\ Forall2 (recomputed clk d k ids) (trains d) (trains d').
Proof.
  induction ids as [ | t0 rest IH ]; intros k d I ND.
  - exists d. cbn [recalc_each]. repeat split.
    induction (trains d) as [ | t l IHl ]; constructor; [ | exact IHl ].
    unfold recomputed. split; [ apply same_but_etat_sante_refl | ].
    split; [ reflexivity | ]. intros j E. destruct j; discriminate E.
  - inversion ND as [ | ? ? Hnot ND' ]; subst.
    destruct (recalc_train_health_total (clk k) d t0 90 I) as (h0 & E0 & Hh0 & R0).
    set (d1 := update_etat_sante d t0 h0) in *.
    assert (I1 : anomalies_int d1) by exact I.
    destruct (IH (S k) d1 I1 ND') as (d' & E & Fu & Fc & Fp & Fa & Ff & F2).
    exists d'. cbn [recalc_each]. rewrite E0.
    split; [ exact E | ].
    split; [ exact Fu | ]. split; [ exact Fc | ]. split; [ exact Fp | ].
    split; [ exact Fa | ]. split; [ exact Ff | ].
    unfold d1 in F2. cbn [trains update_etat_sante] in F2.
    apply Forall2_map_left in F2.
    eapply Forall2_impl; [ | exact F2 ].
    intros t t' (Sb & Keep & Hj). cbv beta in Sb, Keep, Hj.
    destruct (String.eqb_spec (t_id_train t) t0) as [ Eq | Ne ].
    + (* the train recomputed first *)
      cbn [t_id_train set_etat_sante] in Keep, Hj.
      rewrite Eq in Keep. specialize (Keep Hnot). subst t'.
      unfold recomputed. split; [ | split ].
      * unfold same_but_etat_sante. cbn. repeat split.
      * intros N. exfalso. apply N. left. symmetry. exact Eq.
      * intros j Ej. cbn [etat_sante set_etat_sante].
        destruct j as [ | j ].
        -- rewrite Nat.add_0_r, Eq. split; [ exact Hh0 | exact R0 ].
        -- cbn [nth_error] in Ej. exfalso. apply Hnot.
           rewrite <- Eq. eapply nth_error_In. exact Ej.
    + unfold recomputed. split; [ exact Sb | split ].
      * intros N. apply Keep. intros In'. apply N. right. exact In'.
      * intros j Ej. destruct j as [ | j ].
        -- cbn [nth_error] in Ej. injection Ej as Ej. congruence.
        -- cbn [nth_error] in Ej. specialize (Hj j Ej).
           rewrite Nat.add_succ_r. exact Hj.
Qed.

(** *** The order of the ids *)

Lemma ascii_compare_lt_trans a b c :
  Ascii.compare a b = Lt -> Ascii.compare b c = Lt -> Ascii.compare a c = Lt.
Proof.
  unfold Ascii.compare. rewrite !N.compare_lt_iff. apply N.lt_trans.
Qed.

Lemma string_compare_lt_trans a :
  forall b c, String.compare a b = Lt -> String.compare b c = Lt ->
              String.compare a c = Lt.
Proof.
  induction a as [ | x a IH ]; intros b c Hab Hbc.
  - destruct b as [ | y b ]; [ discriminate Hab | ].
    destruct c as [ | z c ]; [ discriminate Hbc | reflexivity ].
  - destruct b as [ | y b ]; [ discriminate Hab | ].
    destruct c as [ | z c ]; [ discriminate Hbc | ].
    cbn [String.compare] in *.
    destruct (Ascii.compare x y) eqn:Exy; try discriminate Hab;
      destruct (Ascii.compare y z) eqn:Eyz; try discriminate Hbc.
    + apply Ascii.compare_eq_iff in Exy, Eyz. subst y z.
      rewrite (proj2 (N.compare_eq_iff _ _) eq_refl : Ascii.compare x x = Eq).
      exact (IH b c Hab Hbc).
    + apply Ascii.compare_eq_iff in Exy. subst y. rewrite Eyz. reflexivity.
    + apply Ascii.compare_eq_iff in Eyz. subst z. rewrite Exy. reflexivity.
    + rewrite (ascii_compare_lt_trans x y z Exy Eyz). reflexivity.
Qed.

Lemma string_compare_refl a : String.compare a a = Eq.
Proof.
  pose proof (String.compare_antisym a a) as H.
  destruct (String.compare a a); [ reflexivity | discriminate H | discriminate H ].
Qed.

Lemma string_leb_ltb a b :
  String.leb a b = true -> a <> b -> String.ltb a b = true.
Proof.
  unfold String.leb, String.ltb. intros L N.
  destruct (String.compare a b) eqn:E; [ | reflexivity | discriminate L ].
  apply String.compare_eq_iff in E. contradiction.
Qed.

Lemma string_leb_not_ltb a b : String.leb a b = true -> String.ltb b a = false.
Proof.
  unfold String.leb, String.ltb. rewrite (String.compare_antisym b a).
  destruct (String.compare a b); cbn; congruence.
Qed.

Lemma string_leb_trans a b c :
  String.leb a b = true -> String.leb b c = true -> String.leb a c = true.
Proof.
  unfold String.leb. intros Hab Hbc.
  destruct (String.compare a b) eqn:Eab; [ | | discriminate Hab ].
  - apply String.compare_eq_iff in Eab. subst b. exact Hbc.
  - destruct (String.compare b c) eqn:Ebc; [ | | discriminate Hbc ].
    + apply String.compare_eq_iff in Ebc. subst c. rewrite Eab. reflexivity.
    + rewrite (string_compare_lt_trans a b c Eab Ebc). reflexivity.
Qed.

(** The number of the ids of [l] that come before [x]. *)
Definition count_before (x : string) (l : list string) : nat :=
  List.length (filter (fun y => String.ltb y x) l).

Lemma count_before_index_insert x y l :
  count_before x (index_insert y l) = count_before x (y :: l).
Proof.
  unfold count_before. induction l as [ | z l IH ]; [ reflexivity | ].
  cbn [index_insert]. destruct (String.leb y z); [ reflexivity | ].
  cbn [filter] in *.
  destruct (String.ltb z x); destruct (String.ltb y x);
    cbn [List.length] in *; rewrite IH; reflexivity.
Qed.

Lemma count_before_index_order x l :
  count_before x (index_order l) = count_before x l.
Proof.
  induction l as [ | y l IH ]; [ reflexivity | ].
  cbn [index_order fold_right]. fold (index_order l).
  rewrite count_before_index_insert. unfold count_before in *.
  cbn [filter]. destruct (String.ltb y x); cbn [List.length]; rewrite IH; reflexivity.
Qed.

Lemma In_index_insert x y l : In x (index_insert y l) <-> x = y \/ In x l.
Proof.
  induction l as [ | z l IH ]; cbn [index_insert In].
  - split; [ intros [ <- | [] ]; left; reflexivity | ].
    intros [ -> | [] ]. left. reflexivity.
  - destruct (String.leb y z); cbn [In].
    + split.
      * intros [ <- | H ]; [ left; reflexivity | right; exact H ].
      * intros [ -> | H ]; [ left; reflexivity | right; exact H ].
    + rewrite IH. split.
      * intros [ H | [ H | H ] ]; auto.
      * intros [ H | [ H | H ] ]; auto.
Qed.

Lemma In_index_order x l : In x (index_order l) <-> In x l.
Proof.
  induction l as [ | y l IH ]; [ reflexivity | ].
  cbn [index_order fold_right]. fold (index_order l).
  rewrite In_index_insert, IH. cbn [In]. split.
  - intros [ -> | H ]; [ left; reflexivity | right; exact H ].
  - intros [ <- | H ]; [ left; reflexivity | right; exact H ].
Qed.

Lemma NoDup_index_insert y l :
  ~ In y l -> NoDup l -> NoDup (index_insert y l).
Proof.
  induction l as [ | z l IH ]; intros Hy ND; cbn [index_insert].
  - constructor; [ intros [] | constructor ].
  - destruct (String.leb y z).
    + constructor; assumption.
    + inversion ND as [ | ? ? Hz ND' ]; subst. constructor.
      * rewrite In_index_insert. intros [ -> | C ]; [ | exact (Hz C) ].
        apply Hy. left. reflexivity.
      * apply IH; [ | exact ND' ]. intros C. apply Hy. right. exact C.
Qed.

Lemma NoDup_index_order l : NoDup l -> NoDup (index_order l).
Proof.
  induction l as [ | y l IH ]; intros ND; [ constructor | ].
  inversion ND as [ | ? ? Hy ND' ]; subst.
  cbn [index_order fold_right]. fold (index_order l).
  apply NoDup_index_insert; [ | apply IH; exact ND' ].
  rewrite In_index_order. exact Hy.
Qed.

(** Every id of the list is followed by ids that do not come before it. *)
Fixpoint ascending (l : list string) : Prop :=
  match l with
  | [] => True
  | x :: l' => Forall (fun y => String.leb x y = true) l' /\ ascending l'
  end.

Lemma ascending_index_insert y l : ascending l -> ascending (index_insert y l).
Proof.
  induction l as [ | z l IH ]; intros A; cbn [index_insert].
  - split; constructor.
  - destruct A as [ Fz A ]. destruct (String.leb y z) eqn:L.
    + split; [ | split; assumption ].
      constructor; [ exact L | ].
      eapply Forall_impl; [ | exact Fz ].
      intros u Hu. exact (string_leb_trans y z u L Hu).
    + split; [ | apply IH; exact A ].
      apply Forall_forall. intros u Hu. apply In_index_insert in Hu.
      destruct Hu as [ -> | Hu ].
      * destruct (String.leb_total z y) as [ T | T ]; [ exact T | congruence ].
      * rewrite Forall_forall in Fz. apply Fz. exact Hu.
Qed.

Lemma ascending_index_order l : ascending (index_order l).
Proof.
  induction l as [ | y l IH ]; [ exact I | ].
  cbn [index_order fold_right]. fold (index_order l).
  apply ascending_index_insert. exact IH.
Qed.

Lemma ascending_rank l :
  forall k x, ascending l -> NoDup l -> nth_error l k = Some x ->
              count_before x l = k.
Proof.
  induction l as [ | a l IH ]; intros k x A ND E.
  - destruct k; discriminate E.
  - destruct A as [ Fa A ]. inversion ND as [ | ? ? Ha ND' ]; subst.
    unfold count_before in *. cbn [filter].
    destruct k as [ | k ].
    + injection E as <-. unfold String.ltb at 1. rewrite string_compare_refl.
      assert (Z0 : filter (fun y => String.ltb y a) l = []).
      { clear IH A ND ND' Ha. induction Fa as [ | u l Hu Fa IHl ]; [ reflexivity | ].
        cbn [filter]. rewrite (string_leb_not_ltb a u Hu). exact IHl. }
      rewrite Z0. reflexivity.
    + cbn [nth_error] in E. pose proof (nth_error_In _ _ E) as Hin.
      rewrite Forall_forall in Fa.
      rewrite (string_leb_ltb a x (Fa x Hin)) by (intros ->; exact (Ha Hin)).
      cbn [List.length]. f_equal. exact (IH k x A ND' E).
Qed.

(** In the index order an id of the list stands at the rank given by the
    number of ids that come before it. *)
Lemma index_order_rank l x :
  NoDup l -> In x l -> nth_error (index_order l) (count_before x l) = Some x.
Proof.
  intros ND Hin. apply In_index_order in Hin.
  destruct (In_nth_error _ _ Hin) as (k & Ek).
  pose proof (ascending_rank _ k x (ascending_index_order l)
                (NoDup_index_order l ND) Ek) as R.
  rewrite count_before_index_order in R. rewrite R. exact Ek.
Qed.

(** The turn of the train [t] in [recalc_all_trains]: the number of
    trains of the table whose id comes before the id of [t] in byte
    order. *)
Definition turn (d : db) (t : train_row) : nat :=
  List.length (filter (fun u => String.ltb (t_id_train u) (t_id_train t)) (trains d)).

Lemma count_before_turn d t :
  count_before (t_id_train t) (map t_id_train (trains d)) = turn d t.
Proof.
  unfold count_before, turn. induction (trains d) as [ | u l IH ]; [ reflexivity | ].
  cbn [map filter]. destruct (String.ltb (t_id_train u) (t_id_train t));
    cbn [List.length]; rewrite IH; reflexivity.
Qed.

(** X16: when the train ids are distinct and the stored criticalities
    are SQLite integers, [recalc_all_trains] never fails; it leaves every
    table but [trains] as it was, and in [trains] it changes only the
    health.  The trains are visited in the byte order of their ids: the
    train that has [k] trains before it in this order gets the health of
    its own anomalies computed with the clock reading number [k], a value
    between 0 and 100. *)
Theorem recalc_all_trains_effect :
  forall clk d,
    anomalies_int d -> NoDup (map t_id_train (trains d)) ->
    exists d',
      recalc_all_trains clk d = Some d'
      /\ users d' = users d /\ components d' = components d
      /\ parts d' = parts d /\ anomalies d' = anomalies d
      /\ conformities d' = conformities d
      /\ forall j t,
           nth_error (trains d) j = Some t ->
           exists t',
             nth_error (trains d') j = Some t'
             /\ same_but_etat_sante t t'
             /\ health_of_rows (health_rows (clk (turn d t)) d (t_id_train t) 90)
                = Some (etat_sante t')
             /\ 0 <= etat_sante t' <= 100.
Proof.
  intros clk d I ND.
  destruct (recalc_each_spec clk (select_id_train d) 0%nat d I
              (NoDup_index_order _ ND))
    as (d' & E & Fu & Fc & Fp & Fa & Ff & F2).
  exists d'. split; [ exact E | ].
  split; [ exact Fu | ]. split; [ exact Fc | ]. split; [ exact Fp | ].
  split; [ exact Fa | ]. split; [ exact Ff | ].
  intros j t Ej.
  destruct (Forall2_nth_error _ _ _ j t F2 Ej) as (t' & Ej' & Sb & _ & Hj).
  exists t'. split; [ exact Ej' | ]. split; [ exact Sb | ].
  apply (Hj (turn d t)). rewrite <- count_before_turn.
  apply index_order_rank; [ exact ND | ].
  apply in_map. eapply nth_error_In. exact Ej.
Qed.

(** The trains of [demo_db] in another order, so that the order of the
    table is not the order of the ids. *)
Definition demo_db_unordered : db :=
  mk_db (users demo_db)
        [ mk_train "Z2M-08" "Z2M" "2009-03-03" 600000 100 "";
          mk_train "Z2M-01" "Z2M" "2010-05-20" 450000 100 "";
          mk_train "Z2M-05" "Z2M" "2011-07-12" 512000 100 "" ]
        (components demo_db) (parts demo_db) (anomalies demo_db)
        (conformities demo_db).

(** The clock of the demonstration shows 2025-03-01 at the first reading
    and 2025-04-03 from then on. *)
Definition demo_clk (k : nat) (days : Z) : string :=
  match k with
  | O => "2025-03-01T00:00:00"
  | _ => "2025-04-03T00:00:00"
  end.

Lemma recalc_all_trains_effect_witness :
  select_id_train demo_db_unordered = ["Z2M-01"; "Z2M-05"; "Z2M-08"]%string
  /\ option_map (fun d' => map (fun t => (t_id_train t, etat_sante t)) (trains d'))
       (recalc_all_trains demo_clk demo_db_unordered)
     = Some [("Z2M-08", 100); ("Z2M-01", 40); ("Z2M-05", 100)]%string
  /\ option_map (fun d' => map (fun t => (t_id_train t, etat_sante t)) (trains d'))
       (recalc_all_trains (fun k => demo_clk (S k)) demo_db_unordered)
     = Some [("Z2M-08", 100); ("Z2M-01", 60); ("Z2M-05", 100)]%string.
Proof.
  assert (I : anomalies_int demo_db_unordered) by exact demo_db_int.
  assert (ND : NoDup (map t_id_train (trains demo_db_unordered))).
  { cbn. repeat constructor; cbn; intros H;
      repeat (destruct H as [ H | H ]; [ discriminate H | ]); exact H. }
  split; [ reflexivity | ].
  destruct (recalc_all_trains_effect demo_clk demo_db_unordered I ND)
    as (d' & E & _).
  split.
  - rewrite E. vm_compute in E. injection E as <-. reflexivity.
  - vm_compute. reflexivity.
Defined.

(** ** Authentication *)

Definition credentials (uname pwd : string) (u : user_row) : bool :=
  String.eqb (username u) uname && String.eqb (password u) pwd.

Lemma credentials_iff uname pwd u :
  credentials uname pwd u = true <-> username u = uname /\ password u = pwd.
Proof.
  unfold credentials. rewrite andb_true_iff, !String.eqb_eq. reflexivity.
Qed.

Lemma NoDup_map_unique {A B} (f : A -> B) l x y :
  NoDup (map f l) -> In x l -> In y l -> f x = f y -> x = y.
Proof.
  induction l as [ | a l IH ]; intros ND Hx Hy E; [ contradiction | ].
  cbn [map] in ND. inversion ND as [ | ? ? Hnot ND' ]; subst.
  destruct Hx as [ -> | Hx ]; destruct Hy as [ -> | Hy ].
  - reflexivity.
  - exfalso. apply Hnot. rewrite E. apply in_map. exact Hy.
  - exfalso. apply Hnot. rewrite <- E. apply in_map. exact Hx.
  - apply IH; assumption.
Qed.

(** X17: [login] succeeds exactly when a row of [users] has this
    username and this password (compared byte for byte).  A failed login
    leaves the session as it was; a successful one records the username
    and the role of such a row, which is the role of the user of that name
    when the usernames are distinct; [logout] then gives the initial
    session back. *)
Theorem login_correct :
  forall d s uname pwd,
    (fst (login d s uname pwd) = true
     <-> exists u, In u (users d) /\ username u = uname /\ password u = pwd)
    /\ (fst (login d s uname pwd) = false -> snd (login d s uname pwd) = s)
    /\ (fst (login d s uname pwd) = true ->
        auth (snd (login d s uname pwd)) = true
        /\ s_user (snd (login d s uname pwd)) = Some uname
        /\ (exists u, In u (users d) /\ username u = uname /\ password u = pwd
                      /\ s_role (snd (login d s uname pwd)) = Some (role u))
        /\ (NoDup (map username (users d)) ->
            forall u, In u (users d) -> username u = uname ->
                      s_role (snd (login d s uname pwd)) = Some (role u)))
    /\ logout (snd (login d s uname pwd)) = session_init.
Proof.
  intros d s uname pwd. unfold login.
  change (fun u => String.eqb (username u) uname && String.eqb (password u) pwd)
    with (credentials uname pwd).
  destruct (find (credentials uname pwd) (users d)) as [ r | ] eqn:F.
  - apply find_some in F. destruct F as [ Hin Hc ].
    apply credentials_iff in Hc. destruct Hc as [ Hu Hp ].
    cbn [fst snd auth s_user s_role].
    split; [ split; [ intros _; exists r; auto | reflexivity ] | ].
    split; [ discriminate | ].
    split; [ | reflexivity ].
    intros _. split; [ reflexivity | ]. split; [ reflexivity | ].
    split; [ exists r; auto | ].
    intros ND u Hu_in Hu_name. f_equal. f_equal.
    apply (NoDup_map_unique username (users d)); [ exact ND | exact Hin | exact Hu_in | ].
    congruence.
  - cbn [fst snd].
    split; [ split; [ discriminate | ] | ].
    + intros (u & Hin & Hu & Hp).
      pose proof (find_none _ _ F u Hin) as N.
      assert (T : credentials uname pwd u = true) by (apply credentials_iff; auto).
      congruence.
    + split; [ reflexivity | ]. split; [ discriminate | reflexivity ].
Qed.

(** ** Initialisation *)

Lemma seeds_inserted :
  executemany username [] seed_users = Some seed_users
  /\ executemany t_id_train [] seed_trains = Some seed_trains
  /\ executemany name [] seed_components = Some seed_components
  /\ executemany ref [] seed_parts = Some seed_parts.
Proof. vm_compute. repeat split; reflexivity. Qed.

(** The table after [init_db]. *)
Definition seeded {A} (tbl seed : list A) : list A :=
  match tbl with [] => seed | _ => tbl end.

Lemma init_db_value d :
  init_db d
  = Some (mk_db (seeded (users d) seed_users) (seeded (trains d) seed_trains)
                (seeded (components d) seed_components)
                (seeded (parts d) seed_parts)
                (anomalies d) (conformities d)).
Proof.
  destruct seeds_inserted as (Su & St & Sc & Sp).
  unfold init_db.
  assert (Eu : seed_if_empty username (users d) seed_users
               = Some (seeded (users d) seed_users)).
  { destruct (users d); [ exact Su | reflexivity ]. }
  assert (Et : seed_if_empty t_id_train (trains d) seed_trains
               = Some (seeded (trains d) seed_trains)).
  { destruct (trains d); [ exact St | reflexivity ]. }
  assert (Ec : seed_if_empty name (components d) seed_components
               = Some (seeded (components d) seed_components)).
  { destruct (components d); [ exact Sc | reflexivity ]. }
  assert (Ep : seed_if_empty ref (parts d) seed_parts
               = Some (seeded (parts d) seed_parts)).
  { destruct (parts d); [ exact Sp | reflexivity ]. }
  rewrite Eu, Et, Ec, Ep. reflexivity.
Qed.

Lemma seeded_nonempty {A} (tbl seed : list A) : seed <> [] -> seeded tbl seed <> [].
Proof. intros H. destruct tbl; [ exact H | discriminate ]. Qed.

Lemma seeded_seeded {A} (tbl seed : list A) :
  seed <> [] -> seeded (seeded tbl seed) seed = seeded tbl seed.
Proof.
  intros H. destruct tbl as [ | x l ]; [ | reflexivity ].
  cbn [seeded]. destruct seed; [ contradiction | reflexivity ].
Qed.

(** X18: [init_db] never fails (the seed rows have distinct keys and go
    into empty tables only), it leaves the users, trains, components and
    parts tables non-empty, and running it again changes nothing. *)
Theorem init_db_idempotent :
  forall d,
    exists d1,
      init_db d = Some d1
      /\ init_db d1 = Some d1
      /\ users d1 <> [] /\ trains d1 <> [] /\ components d1 <> []
      /\ parts d1 <> [].
Proof.
  intros d. rewrite (init_db_value d). eexists. split; [ reflexivity | ].
  rewrite init_db_value. cbn [users trains components parts anomalies conformities].
  rewrite !seeded_seeded by discriminate.
  split; [ reflexivity | ].
  repeat split; apply seeded_nonempty; discriminate.
Qed.

(** X19: [init_db] never overwrites data: a table that holds a row is
    left as it is, the anomalies and the conformities are never touched,
    and each of the four seeded tables is filled, independently of the
    three others, exactly when it is empty. *)
Theorem init_db_keeps_data :
  forall d,
    exists d1,
      init_db d = Some d1
      /\ anomalies d1 = anomalies d /\ conformities d1 = conformities d
      /\ (users d <> [] -> users d1 = users d)
      /\ (trains d <> [] -> trains d1 = trains d)
      /\ (components d <> [] -> components d1 = components d)
      /\ (parts d <> [] -> parts d1 = parts d)
      /\ (users d = [] -> users d1 = seed_users)
      /\ (trains d = [] -> trains d1 = seed_trains)
      /\ (components d = [] -> components d1 = seed_components)
      /\ (parts d = [] -> parts d1 = seed_parts).
Proof.
  intros d. rewrite (init_db_value d). eexists. split; [ reflexivity | ].
  cbn [users trains components parts anomalies conformities].
  split; [ reflexivity | ]. split; [ reflexivity | ].
  repeat split; intros H;
    try (rewrite H; reflexivity);
    match goal with
    | |- seeded ?l _ = _ => destruct l; [ contradiction | reflexivity ]
    end.
Qed.

(** * The application as a transition system *)

(** One interaction with the application: Streamlit runs the script
    again, so [init_db] runs first; then the handler of the widget that was
    used runs on the result.  The premises are what the page guarantees
    before the handler runs (an anomaly is shown for the number entered,
    the piece is one of the list, the new quantity is not negative) and
    what SQLite guarantees for the key of a new anomaly (unused, positive,
    64-bit); the other inputs are not constrained: the readings of the
    clock are any texts, and the path of the photo is any text, empty or
    not.  An interaction whose photo step raises writes nothing after
    [init_db]: it is the step [step_view]. *)
Inductive step (d : db) : db -> Prop :=
| step_view : forall d0,
    init_db d = Some d0 -> step d d0
| step_nouvelle_anomalie :
    forall d0 clock1 clock2 now new_id user sid cat comp desc photo immobil
           grav crit h d',
      init_db d = Some d0 ->
      ~ In new_id (map id (anomalies d0)) -> 1 <= new_id < 2 ^ 63 ->
      nouvelle_anomalie clock1 clock2 now new_id d0 user sid cat comp desc photo
                        immobil grav = Some (crit, h, d') ->
      step d d'
| step_marquer_en_cours : forall d0 sel a,
    init_db d = Some d0 -> selected d0 sel = Some a ->
    step d (marquer_en_cours d0 sel)
| step_marquer_resolu : forall d0 clock sel a h d',
    init_db d = Some d0 -> selected d0 sel = Some a ->
    marquer_resolu clock d0 sel = Some (h, d') ->
    step d d'
| step_fiche_conformite :
    forall d0 clock now new_id user train_sel typ comp piece result obs h d',
      init_db d = Some d0 -> In piece (piece_choices d0) ->
      fiche_conformite clock now new_id d0 user train_sel typ comp piece result
                       obs = Some (h, d') ->
      step d d'
| step_dashboard : forall d0 clk d',
    init_db d = Some d0 -> recalc_all_trains clk d0 = Some d' ->
    step d d'
| step_update_stock : forall d0 r new_qty,
    init_db d = Some d0 -> 0 <= new_qty ->
    step d (update_stock d0 r new_qty).

(** The databases that the application can reach from a new file. *)
Inductive reachable : db -> Prop :=
| reach_init : forall d, init_db empty_db = Some d -> reachable d
| reach_step : forall d d', reachable d -> step d d' -> reachable d'.

(** ** The invariant *)

Definition score_ok (a : anomaly_row) : Prop :=
  0 <= criticite_calc a <= 95
  /\ urgence_col a = urgence (criticite_calc a)
  /\ 1 <= id a < 2 ^ 63
  /\ In (statut a) ["à traiter"; "en cours"; "résolu"]%string.

Record app_inv (d : db) : Prop := mk_app_inv
  { inv_users : users d = seed_users;
    inv_components : components d = seed_components;
    inv_trains : Forall2 same_but_etat_sante seed_trains (trains d);
    inv_health : Forall (fun t => 5 <= etat_sante t <= 100) (trains d);
    inv_scores : Forall score_ok (anomalies d);
    inv_ids : NoDup (map id (anomalies d));
    inv_refs : map ref (parts d) = map ref seed_parts }.

Definition seed_db : db :=
  mk_db seed_users seed_trains seed_components seed_parts [] [].

Lemma init_db_empty : init_db empty_db = Some seed_db.
Proof. rewrite init_db_value. reflexivity. Qed.

Lemma app_inv_seed : app_inv seed_db.
Proof.
  constructor; cbn [users trains components parts anomalies conformities seed_db];
    try reflexivity.
  - unfold seed_trains. repeat constructor.
  - unfold seed_trains. repeat constructor; cbn; lia.
  - constructor.
  - constructor.
Qed.

(** Under the invariant the four seeded tables hold rows, so [init_db]
    does nothing. *)
Lemma init_db_inv d : app_inv d -> init_db d = Some d.
Proof.
  intros [ Hu Hc Ht _ _ _ Hr ]. rewrite init_db_value.
  destruct d as [ us ts cs ps an cf ].
  cbn [users trains components parts anomalies conformities] in *.
  subst us cs.
  assert (Ets : seeded ts seed_trains = ts).
  { destruct ts; [ inversion Ht | reflexivity ]. }
  assert (Eps : seeded ps seed_parts = ps).
  { destruct ps; [ discriminate Hr | reflexivity ]. }
  rewrite Ets, Eps. reflexivity.
Qed.

(** *** Bounds under the invariant *)

Lemma seed_catalog_bounds comp d :
  components d = seed_components ->
  0 <= get_component_criticite d comp <= 95.
Proof.
  intros E. unfold get_component_criticite. rewrite E.
  destruct (find (fun c => String.eqb (name c) comp) seed_components) as [ r | ] eqn:F;
    [ | lia ].
  apply find_some in F. destruct F as [ Hin _ ].
  unfold seed_components in Hin. cbn [In] in Hin.
  repeat (destruct Hin as [ <- | Hin ]; [ cbn; lia | ]). contradiction.
Qed.

Lemma seed_catalog_int d :
  components d = seed_components ->
  Forall (fun c => sqlite_int (criticite_max c)) (components d).
Proof.
  intros ->. unfold seed_components, sqlite_int. repeat constructor; cbn; lia.
Qed.

(** Distinct keys between 1 and [N - 1]: fewer than [N] rows. *)
Lemma distinct_keys_length (l : list Z) N :
  0 < N -> NoDup l -> Forall (fun x => 1 <= x < N) l ->
  Z.of_nat (List.length l) < N.
Proof.
  intros HN ND F. rewrite Forall_forall in F.
  assert (ND' : NoDup (map Z.to_nat l)).
  { apply NoDup_map_NoDup_ForallPairs; [ | exact ND ].
    intros x y Hx Hy E. specialize (F x Hx) as Fx. specialize (F y Hy) as Fy. lia. }
  assert (I : incl (map Z.to_nat l) (seq 1 (Z.to_nat (N - 1)))).
  { intros n Hn. apply in_map_iff in Hn. destruct Hn as (x & <- & Hx).
    specialize (F x Hx). apply in_seq. lia. }
  pose proof (NoDup_incl_length ND' I) as L.
  rewrite length_map, length_seq in L. lia.
Qed.

Lemma app_inv_storable d : app_inv d -> db_storable d /\ anomalies_int d.
Proof.
  intros [ _ Hc _ _ Hs Hn _ ]. split; [ split | ].
  - apply seed_catalog_int. exact Hc.
  - rewrite <- (length_map id).
    apply distinct_keys_length; [ reflexivity | exact Hn | ].
    apply Forall_map. eapply Forall_impl; [ | exact Hs ].
    intros a (_ & _ & H & _). exact H.
  - unfold anomalies_int. eapply Forall_impl; [ | exact Hs ].
    intros a (H & _). unfold sqlite_int. lia.
Qed.

Lemma health_val_floor : health_val 95 100 = 5.
Proof. vm_compute. reflexivity. Qed.

Lemma health_of_rows_floor rows h :
  Forall (fun c => 0 <= c <= 95) rows ->
  health_of_rows rows = Some h -> 5 <= h <= 100.
Proof.
  intros F E. destruct rows as [ | x rows0 ] eqn:El.
  - injection E as <-. lia.
  - rewrite <- El in *.
    assert (Hne : rows <> []) by (rewrite El; discriminate).
    assert (S : Forall sqlite_int rows).
    { eapply Forall_impl; [ | exact F ].
      intros c Hc. cbv beta in Hc. unfold sqlite_int. lia. }
    pose proof (health_of_rows_val rows Hne (sqlite_rows_sum rows S)) as V.
    cbv zeta in V. rewrite V in E. injection E as <-.
    pose proof (rows_length_pos rows Hne) as Hn.
    pose proof (sum_bounds 0 95 rows F) as B.
    set (n := Z.of_nat (List.length rows)) in *.
    split; [ | apply health_val_range ].
    rewrite <- health_val_floor.
    rewrite <- (health_val_scale n 95 100) by lia.
    apply health_val_antitone; lia.
Qed.

Lemma health_rows_scores clock d tr w :
  Forall score_ok (anomalies d) ->
  Forall (fun c => 0 <= c <= 95) (health_rows clock d tr w).
Proof.
  intros H. unfold health_rows. apply Forall_map. apply Forall_forall.
  intros a Ha. apply filter_In in Ha. destruct Ha as [ Ha _ ].
  rewrite Forall_forall in H. destruct (H a Ha) as (R & _). exact R.
Qed.

(** *** Each write keeps the invariant *)

Lemma app_inv_update_etat_sante d tr h :
  app_inv d -> 5 <= h <= 100 -> app_inv (update_etat_sante d tr h).
Proof.
  intros [ Hu Hc Ht Hh Hs Hn Hr ] Rh.
  constructor; cbn [users trains components parts anomalies conformities
                    update_etat_sante]; try assumption.
  - clear Hh. revert Ht. generalize seed_trains.
    induction (trains d) as [ | t l IH ]; intros s Ht; inversion Ht; subst;
      cbn [map]; constructor.
    + destruct (String.eqb (t_id_train t) tr); [ | assumption ].
      match goal with H : same_but_etat_sante _ t |- _ => exact H end.
    + apply IH. assumption.
  - apply Forall_map. eapply Forall_impl; [ | exact Hh ].
    intros t Rt. destruct (String.eqb (t_id_train t) tr); [ cbn; lia | exact Rt ].
Qed.

Lemma app_inv_recalc clock d tr w h d' :
  app_inv d -> recalc_train_health clock d tr w = Some (h, d') ->
  app_inv d' /\ 5 <= h <= 100.
Proof.
  intros I E. unfold recalc_train_health in E.
  destruct (health_of_rows (health_rows clock d tr w)) as [ h0 | ] eqn:Eh;
    [ | discriminate ].
  injection E as <- <-.
  pose proof (health_of_rows_floor _ _ (health_rows_scores clock d tr w (inv_scores d I)) Eh)
    as R.
  split; [ apply app_inv_update_etat_sante; assumption | exact R ].
Qed.

Lemma app_inv_insert_anomaly d a :
  app_inv d -> score_ok a -> ~ In (id a) (map id (anomalies d)) ->
  app_inv (insert_anomaly d a).
Proof.
  intros [ Hu Hc Ht Hh Hs Hn Hr ] Ha Fresh.
  constructor; cbn [users trains components parts anomalies conformities
                    insert_anomaly]; try assumption.
  - apply Forall_app. split; [ exact Hs | ]. constructor; [ exact Ha | constructor ].
  - rewrite map_app. cbn [map]. apply NoDup_app; [ exact Hn | | ].
    + constructor; [ intros [] | constructor ].
    + intros x Hx [ <- | [] ]. exact (Fresh Hx).
Qed.

Lemma app_inv_update_statut d sel st :
  app_inv d -> In st ["à traiter"; "en cours"; "résolu"]%string ->
  app_inv (update_statut d sel st).
Proof.
  intros [ Hu Hc Ht Hh Hs Hn Hr ] Hst.
  constructor; cbn [users trains components parts anomalies conformities
                    update_statut]; try assumption.
  - apply Forall_map. eapply Forall_impl; [ | exact Hs ].
    intros a (H1 & H2 & H3 & H4). destruct (id a =? sel).
    + unfold score_ok. cbn [criticite_calc urgence_col id statut set_statut].
      repeat split; try assumption; lia.
    + repeat split; try assumption; lia.
  - rewrite map_map.
    replace (map (fun x => id (if id x =? sel then set_statut st x else x)) (anomalies d))
      with (map id (anomalies d)); [ exact Hn | ].
    apply map_ext. intros a. destruct (id a =? sel); reflexivity.
Qed.

Lemma map_ref_set_qty (f : part_row -> Z) r l :
  map ref (map (fun p => if String.eqb (ref p) r then set_qty (f p) p else p) l)
  = map ref l.
Proof.
  rewrite map_map. apply map_ext. intros p.
  destruct (String.eqb (ref p) r); reflexivity.
Qed.

Lemma app_inv_parts d ps cf :
  app_inv d -> map ref ps = map ref (parts d) ->
  app_inv (mk_db (users d) (trains d) (components d) ps (anomalies d) cf).
Proof.
  intros [ Hu Hc Ht Hh Hs Hn Hr ] E.
  constructor; cbn [users trains components parts anomalies conformities];
    try assumption.
  rewrite E. exact Hr.
Qed.

Lemma app_inv_recalc_each clk ids :
  forall k d d', app_inv d -> recalc_each clk k ids d = Some d' -> app_inv d'.
Proof.
  induction ids as [ | t rest IH ]; intros k d d' I E.
  - injection E as <-. exact I.
  - cbn [recalc_each] in E.
    destruct (recalc_train_health (clk k) d t 90) as [ [ h d1 ] | ] eqn:Er;
      [ | discriminate ].
    apply (IH (S k) d1 d'); [ | exact E ].
    exact (proj1 (app_inv_recalc _ _ _ _ _ _ I Er)).
Qed.

Lemma criticite_seed_bounds clock d sid comp grav immobil crit :
  app_inv d ->
  compute_criticite_calc clock d sid comp grav immobil = Some crit ->
  0 <= crit <= 95.
Proof.
  intros I E. destruct (app_inv_storable d I) as [ [ Hc Hn ] _ ].
  rewrite compute_criticite_calc_result in E.
  pose proof (count_similar_recent_bounds clock d sid comp 90) as Ho.
  pose proof (seed_catalog_bounds comp d (inv_components d I)) as Hcm.
  destruct (criticite_result_catalog (get_component_criticite d comp)
              (count_similar_recent clock d sid comp 90) grav immobil)
    as (r & Er & R & _ & B1 & _).
  { apply get_component_criticite_int. exact Hc. }
  { lia. }
  rewrite Er in E. injection E as <-. specialize (B1 ltac:(lia)). lia.
Qed.

Lemma step_inv d d' : app_inv d -> step d d' -> app_inv d'.
Proof.
  intros I St. pose proof (init_db_inv d I) as E0.
  destruct St as [ d0 Ei
                 | d0 clock1 clock2 now new_id user sid cat comp desc photo immobil
                      grav crit h d' Ei Fresh Rid E
                 | d0 sel a Ei Sel
                 | d0 clock sel a h d' Ei Sel E
                 | d0 clock now new_id user train_sel typ comp piece result obs h d'
                      Ei Hp E
                 | d0 clk d' Ei E
                 | d0 r new_qty Ei Hq ];
    rewrite E0 in Ei; injection Ei as <-.
  - exact I.
  - unfold nouvelle_anomalie in E.
    destruct (compute_criticite_calc clock1 d sid comp grav immobil) as [ c | ] eqn:Ec;
      [ | discriminate ].
    cbv zeta in E.
    destruct (recalc_train_health clock2 _ sid 90) as [ [ h0 d2 ] | ] eqn:Er;
      [ | discriminate ].
    injection E as <- <- <-.
    refine (proj1 (app_inv_recalc _ _ _ _ _ _ _ Er)).
    apply app_inv_insert_anomaly; [ exact I | | exact Fresh ].
    unfold score_ok. cbn [criticite_calc urgence_col id statut].
    split; [ exact (criticite_seed_bounds _ _ _ _ _ _ _ I Ec) | ].
    split; [ reflexivity | ]. split; [ exact Rid | ]. left. reflexivity.
  - unfold marquer_en_cours. apply app_inv_update_statut; [ exact I | ].
    right. left. reflexivity.
  - unfold marquer_resolu in E.
    destruct (find _ _) as [ a0 | ] in E; [ | discriminate ].
    refine (proj1 (app_inv_recalc _ _ _ _ _ _ _ E)).
    apply app_inv_update_statut; [ exact I | ].
    right. right. left. reflexivity.
  - unfold fiche_conformite in E.
    refine (proj1 (app_inv_recalc _ _ _ _ _ _ _ E)).
    destruct (PyStr.truthy (piece_ref_of piece)).
    + unfold decrement_stock, insert_conformity.
      cbn [users trains components parts anomalies conformities].
      apply app_inv_parts; [ exact I | ].
      apply (map_ref_set_qty (fun p => sqlite_minus_one (qty p))).
    + unfold insert_conformity. apply app_inv_parts; [ exact I | reflexivity ].
  - exact (app_inv_recalc_each clk _ _ _ _ I E).
  - unfold update_stock. apply app_inv_parts; [ exact I | ].
    apply (map_ref_set_qty (fun _ => new_qty)).
Qed.

Lemma reachable_inv d : reachable d -> app_inv d.
Proof.
  intros R. induction R as [ d E | d d' R IH St ].
  - rewrite init_db_empty in E. injection E as <-. exact app_inv_seed.
  - exact (step_inv d d' IH St).
Qed.

(** X20: in every database that the application reaches from a new
    file, whatever the sequence of clicks and the readings of the clock:
    the users and the component catalog are the seeded ones; the trains
    are the seeded ones up to their health, which lies between 5 and 100;
    every anomaly has a criticality between 0 and 95, the urgency label of
    this criticality, one of the three statuses and an id that no other
    anomaly has. *)
Theorem reachable_invariant :
  forall d,
    reachable d ->
    users d = seed_users /\ components d = seed_components
    /\ Forall2 same_but_etat_sante seed_trains (trains d)
    /\ Forall (fun t => 5 <= etat_sante t <= 100) (trains d)
    /\ Forall (fun a => 0 <= criticite_calc a <= 95
                        /\ urgence_col a = urgence (criticite_calc a)
                        /\ In (statut a) ["à traiter"; "en cours"; "résolu"]%string)
              (anomalies d)
    /\ NoDup (map id (anomalies d)).
Proof.
  intros d R. destruct (reachable_inv d R) as [ Hu Hc Ht Hh Hs Hn Hr ].
  split; [ exact Hu | ]. split; [ exact Hc | ]. split; [ exact Ht | ].
  split; [ exact Hh | ]. split; [ | exact Hn ].
  eapply Forall_impl; [ | exact Hs ].
  intros a (H1 & H2 & _ & H4). repeat split; try assumption; lia.
Qed.

(** A run: an anomaly is declared on the new database, then resolved. *)
Definition run_clock (days : Z) : string := "2025-01-01T00:00:00".

Definition run_db1 : db :=
  update_etat_sante
    (insert_anomaly seed_db
       (declared_row "2025-03-01T08:00:00" 1 "tech" "Z2M-01" "mécanique" "frein"
                     "" "" true "Urgent" 76))
    "Z2M-01" 24.

Lemma run_db1_reachable : reachable run_db1.
Proof.
  apply (reach_step seed_db).
  - apply reach_init. exact init_db_empty.
  - apply (step_nouvelle_anomalie seed_db seed_db run_clock run_clock
             "2025-03-01T08:00:00" 1 "tech" "Z2M-01" "mécanique" "frein" "" ""
             true "Urgent" 76 24).
    + rewrite init_db_value. reflexivity.
    + intros [].
    + split; [ lia | reflexivity ].
    + vm_compute. reflexivity.
Qed.

Lemma reachable_invariant_witness :
  Forall (fun t => 5 <= etat_sante t <= 100) (trains run_db1)
  /\ NoDup (map id (anomalies run_db1)).
Proof.
  destruct (reachable_invariant run_db1 run_db1_reachable)
    as (_ & _ & _ & Hh & _ & Hn).
  split; [ exact Hh | exact Hn ].
Defined.

(** X21: on a database that the application reaches from a new file,
    the handlers fail only as follows.  [init_db] returns the database
    itself; [compute_criticite_calc] returns a value for every train,
    component, severity and flag; [recalc_train_health] returns a value
    when the start of its window is a date that [datetime] can hold, and
    raises when it is not; the calls of the clock with the window of 90
    days, the only ones that the handlers make, return for every instant
    from the first of April of the year 1 on; "Enregistrer anomalie"
    returns unless its photo step raises; "Marquer comme resolu" for an
    anomaly that the page shows, "Enregistrer la fiche" and
    [recalc_all_trains] return. *)
Theorem reachable_never_raises :
  forall d,
    reachable d ->
    init_db d = Some d
    /\ (forall clock sid comp grav immobil,
          exists crit, compute_criticite_calc clock d sid comp grav immobil = Some crit)
    /\ (forall utcnow tr w,
          (window_start_ok utcnow w ->
           exists h d', recalc_train_health_at utcnow d tr w = Some (h, d'))
          /\ (~ window_start_ok utcnow w ->
              recalc_train_health_at utcnow d tr w = None))
    /\ (forall utcnow,
          91 <= PyTime.toordinal utcnow <= 3652059 ->
          exists since, days_ago_iso utcnow 90 = Some since)
    /\ (forall f clock1 clock2 now new_id user sid cat comp desc immobil grav,
          (f <> photo_error ->
           exists crit h d',
             enregistrer_anomalie f clock1 clock2 now new_id d user sid cat comp
                                  desc immobil grav = Some (crit, h, d'))
          /\ (f = photo_error ->
              enregistrer_anomalie f clock1 clock2 now new_id d user sid cat comp
                                   desc immobil grav = None))
    /\ (forall clock sel a,
          selected d sel = Some a ->
          exists h d', marquer_resolu clock d sel = Some (h, d'))
    /\ (forall clock now new_id user train_sel typ comp piece result obs,
          exists h d',
            fiche_conformite clock now new_id d user train_sel typ comp piece
                             result obs = Some (h, d'))
    /\ (forall clk, exists d', recalc_all_trains clk d = Some d').
Proof.
  intros d R. pose proof (reachable_inv d R) as I.
  destruct (app_inv_storable d I) as [ S A ].
  split; [ exact (init_db_inv d I) | ].
  split.
  { intros clock sid comp grav immobil.
    destruct (criticite_total clock d sid comp grav immobil S) as (r & E & _).
    exists r. exact E. }
  split.
  { intros utcnow tr w. split.
    - intros W. destruct (days_ago_iso_returns utcnow w W) as (since & Es).
      destruct (recalc_train_health_total (fun _ => since) d tr w A) as (h & E & _).
      exists h. eexists. unfold recalc_train_health_at. rewrite Es. exact E.
    - intros W. unfold recalc_train_health_at.
      rewrite (days_ago_iso_raises utcnow w W). reflexivity. }
  split.
  { intros utcnow Hn. apply days_ago_iso_returns. unfold window_start_ok. lia. }
  split.
  { intros f clock1 clock2 now new_id user sid cat comp desc immobil grav.
    split; [ | intros ->; reflexivity ].
    intros Hf.
    assert (Hp : exists photo, save_photo f = Some photo).
    { destruct f as [ | p | ]; [ eexists; reflexivity | eexists; reflexivity | ].
      contradiction. }
    destruct Hp as (photo & Ep).
    destruct (nouvelle_anomalie_total clock1 clock2 now new_id d user sid cat comp
                desc photo immobil grav S A) as (crit & h & E & _).
    cbv zeta in E. exists crit, h. eexists.
    unfold enregistrer_anomalie. rewrite Ep. exact E. }
  split.
  { intros clock sel a Sel.
    assert (F : find (fun x => id x =? sel) (anomalies d) = Some a).
    { unfold selected in Sel. destruct (sel =? 0); [ discriminate | exact Sel ]. }
    assert (A1 : anomalies_int (update_statut d sel "résolu")).
    { unfold anomalies_int, update_statut. cbn [anomalies].
      apply Forall_map. unfold anomalies_int in A.
      eapply Forall_impl; [ | exact A ]. intros x Hx.
      destruct (id x =? sel); exact Hx. }
    destruct (recalc_train_health_total clock _ (id_train a) 90 A1) as (h & E & _).
    exists h. eexists. unfold marquer_resolu. cbn [anomalies update_statut].
    rewrite (find_update_statut _ _ _ _ F). cbn [id_train set_statut]. exact E. }
  split.
  { intros clock now new_id user train_sel typ comp piece result obs.
    unfold fiche_conformite.
    set (d2 := if PyStr.truthy (piece_ref_of piece) then _ else _).
    assert (A2 : anomalies_int d2).
    { apply (anomalies_int_same d); [ | exact A ].
      unfold d2. destruct (PyStr.truthy (piece_ref_of piece)); reflexivity. }
    destruct (recalc_train_health_total clock d2 train_sel 90 A2) as (h & E & _).
    exists h. eexists. exact E. }
  intros clk. unfold recalc_all_trains.
  assert (G : forall ids k d0, app_inv d0 ->
                exists d', recalc_each clk k ids d0 = Some d').
  { induction ids as [ | t rest IH ]; intros k d0 I0.
    - exists d0. reflexivity.
    - destruct (app_inv_storable d0 I0) as [ _ A0 ].
      destruct (recalc_train_health_total (clk k) d0 t 90 A0) as (h & E & _).
      cbn [recalc_each]. rewrite E. apply IH.
      exact (proj1 (app_inv_recalc _ _ _ _ _ _ I0 E)). }
  apply G. exact I.
Qed.

Lemma reachable_never_raises_witness :
  init_db run_db1 = Some run_db1
  /\ (exists h d', marquer_resolu run_clock run_db1 1 = Some (h, d'))
  /\ (exists h d', recalc_train_health_at demo_utcnow run_db1 "Z2M-01" 90 = Some (h, d'))
  /\ recalc_train_health_at demo_utcnow run_db1 "Z2M-01" 1000000 = None
  /\ enregistrer_anomalie photo_error run_clock run_clock "2025-03-02T08:00:00" 2
       run_db1 "tech" "Z2M-01" "mécanique" "frein" "" true "Urgent" = None.
Proof.
  destruct (reachable_never_raises run_db1 run_db1_reachable)
    as (E & _ & H & _ & P & M & _).
  split; [ exact E | ].
  split.
  { apply (M run_clock 1
             (declared_row "2025-03-01T08:00:00" 1 "tech" "Z2M-01" "mécanique" "frein"
                           "" "" true "Urgent" 76)).
    vm_compute. reflexivity. }
  split; [ exact (proj1 (H demo_utcnow "Z2M-01"%string 90) demo_window_start_ok) | ].
  split.
  { apply (proj2 (H demo_utcnow "Z2M-01"%string 1000000)).
    unfold window_start_ok. vm_compute. intros [ _ [ C _ ] ]. apply C. reflexivity. }
  apply (proj2 (P photo_error run_clock run_clock "2025-03-02T08:00:00"%string 2
                  "tech"%string "Z2M-01"%string "mécanique"%string "frein"%string
                  ""%string true "Urgent"%string)).
  reflexivity.
Defined.

(** ** Navigation and the list of anomalies *)

Lemma pages_run_other role page :
  role <> "technicien"%string -> role <> "responsable"%string ->
  pages_run role page = [].
Proof.
  intros H1 H2. unfold pages_run, page_blocks. cbn [filter fst snd].
  apply String.eqb_neq in H1, H2. rewrite H1, H2. reflexivity.
Qed.

(** X22: a page chosen in the menu of a role runs exactly one block of
    the script, the one of this role and page, when the role is
    "technicien" or "responsable"; for any other role the menu is the
    manager's and no block runs.  So the technician's handlers run only for
    the role "technicien" and the manager's only for "responsable". *)
Theorem menu_pages :
  forall role page,
    In page (menu role) ->
    (role = "technicien"%string \/ role = "responsable"%string ->
     pages_run role page = [(role, page)])
    /\ (role <> "technicien"%string -> role <> "responsable"%string ->
        menu role = menu "responsable" /\ pages_run role page = [])
    /\ (forall b, In b (pages_run role page) -> b = (role, page)).
Proof.
  intros role page Hin.
  split; [ | split ].
  - intros [ -> | -> ]; cbn [menu String.eqb] in Hin; cbn in Hin;
      repeat (destruct Hin as [ <- | Hin ]; [ reflexivity | ]); contradiction.
  - intros H1 H2. split; [ | apply pages_run_other; assumption ].
    unfold menu. apply String.eqb_neq in H1. rewrite H1. reflexivity.
  - intros [ r p ] Hb. unfold pages_run in Hb. apply filter_In in Hb.
    destruct Hb as [ _ Hb ]. cbn [fst snd] in Hb.
    apply andb_true_iff in Hb. destruct Hb as [ Hr Hp ].
    apply String.eqb_eq in Hr, Hp. congruence.
Qed.

Lemma menu_pages_witness :
  pages_run "technicien" "Nouvelle anomalie" = [("technicien", "Nouvelle anomalie")]%string.
Proof.
  apply (menu_pages "technicien" "Nouvelle anomalie").
  - cbn. right. left. reflexivity.
  - left. reflexivity.
Defined.

Lemma urgence_cases c :
  String.eqb (urgence c) "critique" = (80 <=? c)
  /\ String.eqb (urgence c) "moyenne" = ((50 <=? c) && (c <? 80))
  /\ String.eqb (urgence c) "faible" = (c <? 50).
Proof.
  unfold urgence.
  destruct (Z.leb_spec 80 c) as [ L | L ].
  - replace (50 <=? c) with true by (symmetry; apply Z.leb_le; lia).
    replace (c <? 80) with false by (symmetry; apply Z.ltb_ge; lia).
    replace (c <? 50) with false by (symmetry; apply Z.ltb_ge; lia).
    repeat split; reflexivity.
  - replace (c <? 80) with true by (symmetry; apply Z.ltb_lt; lia).
    destruct (Z.leb_spec 50 c) as [ M | M ].
    + replace (c <? 50) with false by (symmetry; apply Z.ltb_ge; lia).
      repeat split; reflexivity.
    + replace (c <? 50) with true by (symmetry; apply Z.ltb_lt; lia).
      repeat split; reflexivity.
Qed.

Lemma filtre_anomalies_label d urg (f : Z -> bool) :
  Forall score_ok (anomalies d) ->
  String.eqb urg "Toutes" = false ->
  (forall c, String.eqb (urgence c) urg = f c) ->
  filtre_anomalies d urg "Toutes" = filter (fun a => f (criticite_calc a)) (anomalies d).
Proof.
  intros Hs Hu Hf. unfold filtre_anomalies. rewrite Hu.
  apply filter_ext_in. intros a Ha.
  rewrite Forall_forall in Hs. destruct (Hs a Ha) as (_ & E & _).
  rewrite E, Hf. cbn [String.eqb]. apply andb_true_r.
Qed.

Lemma filter_and_then {A} (f g : A -> bool) l :
  filter (fun a => f a && g a) l = filter g (filter (fun a => f a && true) l).
Proof.
  induction l as [ | a l IH ]; [ reflexivity | ].
  cbn [filter]. destruct (f a); destruct (g a) eqn:G; cbn [andb filter];
    rewrite ?G; congruence.
Qed.

(** X23: in a database that the application reaches from a new file,
    the filter "critique" of the list of anomalies gives exactly the
    anomalies whose criticality is at least 80, "moyenne" those between 50
    and 79, "faible" those below 50; "Toutes" for both choices gives every
    anomaly; and the two choices filter one after the other. *)
Theorem filtre_anomalies_urgence :
  forall d,
    reachable d ->
    filtre_anomalies d "critique" "Toutes"
    = filter (fun a => 80 <=? criticite_calc a) (anomalies d)
    /\ filtre_anomalies d "moyenne" "Toutes"
       = filter (fun a => (50 <=? criticite_calc a) && (criticite_calc a <? 80))
                (anomalies d)
    /\ filtre_anomalies d "faible" "Toutes"
       = filter (fun a => criticite_calc a <? 50) (anomalies d)
    /\ filtre_anomalies d "Toutes" "Toutes" = anomalies d
    /\ forall urg cat,
         filtre_anomalies d urg cat
         = filter (fun a => if String.eqb cat "Toutes" then true
                            else String.eqb (categorie a) cat)
                  (filtre_anomalies d urg "Toutes").
Proof.
  intros d R. pose proof (inv_scores d (reachable_inv d R)) as Hs.
  split; [ | split; [ | split; [ | split ] ] ].
  - apply (filtre_anomalies_label d "critique" (fun c => 80 <=? c) Hs eq_refl).
    intros c. apply urgence_cases.
  - apply (filtre_anomalies_label d "moyenne" (fun c => (50 <=? c) && (c <? 80)) Hs eq_refl).
    intros c. apply urgence_cases.
  - apply (filtre_anomalies_label d "faible" (fun c => c <? 50) Hs eq_refl).
    intros c. apply urgence_cases.
  - unfold filtre_anomalies. cbn [String.eqb Ascii.eqb Bool.eqb andb].
    induction (anomalies d) as [ | a l IH ]; [ reflexivity | ].
    cbn [filter]. f_equal. apply IH. inversion Hs; assumption.
  - intros urg cat.
    exact (filter_and_then
             (fun a => if String.eqb urg "Toutes" then true
                       else String.eqb (urgence_col a) urg)
             (fun a => if String.eqb cat "Toutes" then true
                       else String.eqb (categorie a) cat)
             (anomalies d)).
Qed.

Lemma filtre_anomalies_urgence_witness :
  filtre_anomalies run_db1 "moyenne" "Toutes"
  = filter (fun a => (50 <=? criticite_calc a) && (criticite_calc a <? 80))
           (anomalies run_db1).
Proof.
  exact (proj1 (proj2 (filtre_anomalies_urgence run_db1 run_db1_reachable))).
Defined.

(** ** The properties above on the demonstration database *)

Lemma update_statut_last_wins_witness :
  selected (update_statut demo_db 2 "résolu") 2
  = Some (set_statut "résolu"
            (demo_anomaly 2 "Z2M-01" "2025-04-03T11:30:00" "porte" "Faible" 40 "en cours")).
Proof.
  apply (proj1 (proj2 (update_statut_last_wins demo_db 2 "résolu" "en cours"))).
  vm_compute. reflexivity.
Defined.

Lemma fiche_conformite_health_witness :
  option_map fst (fiche_conformite demo_clock "2025-04-06T08:00:00" 1 demo_db "tech"
                    "Z2M-01" "corrective" "frein" "" "Conforme" "")
  = Some 40.
Proof.
  rewrite (proj1 (fiche_conformite_health demo_clock "2025-04-06T08:00:00" 1 demo_db
                    "tech" "Z2M-01" "corrective" "frein" "" "Conforme" "")).
  vm_compute. reflexivity.
Defined.

Lemma update_stock_lookup_witness :
  In (set_qty 1 (mk_part "VP001" "Valve de pression" 4 2 "frein,hydraulique"))
     (low_stock (update_stock demo_db "VP001" 1)).
Proof.
  apply (proj1 (proj2 (proj2 (update_stock_lookup demo_db "VP001" 1)))
           (mk_part "VP001" "Valve de pression" 4 2 "frein,hydraulique")).
  - left. reflexivity.
  - reflexivity.
  - reflexivity.
Defined.

Lemma login_correct_witness :
  login demo_db session_init "tech" "password"
  = (true, mk_session true (Some "tech"%string) (Some "technicien"%string))
  /\ s_role (snd (login demo_db session_init "tech" "password"))
     = Some "technicien"%string.
Proof.
  split; [ reflexivity | ].
  destruct (login_correct demo_db session_init "tech" "password")
    as (_ & _ & H & _).
  destruct (H eq_refl) as (_ & _ & _ & U).
  apply (U ltac:(cbn; repeat constructor; cbn; intros C;
                 repeat (destruct C as [ C | C ]; [ discriminate C | ]); exact C)
           (mk_user "tech" "password" "technicien" "Technicien Demo")).
  - left. reflexivity.
  - reflexivity.
Defined.
